(** * comrade-bot: the DKP auction engine (comrade/plugins/dkp/auction.py)

    A shallow embedding of the auction engine: the bid validator
    ([validate_bid]), the result resolver ([determine_results]), the timing
    rules of a [RunningAuction] ([time_left], [needs_update]) and the
    [Auctioneer] with its guarded channel operations.

    Conventions of the embedding.
    - Python [int] is [Z].
    - [datetime] is the number of microseconds since the epoch and
      [timedelta] a number of microseconds, both [Z]; [timedelta(seconds=n)]
      is [seconds n].  [total_seconds() > n] compares an integral number of
      microseconds with a whole number of seconds, so it is the integer
      comparison.
    - [datetime.utcnow()] reads a clock: the successive readings are a
      function [nat -> datetime] and the state counts the readings made.
    - [random.choice] draws from a sequence of numbers in the same way.
    - An f-string is the list of its literal and interpolated fragments.
    - A generator is modelled by the list of the messages it yields when it
      is run to its end, which every caller in the repository does.
    - A [set[Bid]] is the list of its elements in iteration order, without
      duplicates; the balance snapshot is a [gmap]; the channel dict, whose
      iteration order matters, is an association list in insertion order. *)

From Stdlib Require Import ZArith Lia Bool Sorted.
From stdpp Require Import base decidable option list gmap strings.

Local Open Scope Z_scope.

(** ** Data model *)

Definition datetime := Z.
Definition timedelta := Z.

Definition seconds (n : Z) : timedelta := n * 1000000.

Record AuctionItem := mkAuctionItem {
  item : string;
  quantity : Z;
  added_by : string
}.

Inductive Status := Running | Stopped | Finished.

Inductive BidderRank := Raider | Alt | Recruit | Member.

Record Bid := mkBid {
  bidder : string;
  rank : BidderRank;
  bid : Z;
  id : Z
}.

Record AuctionResults := mkAuctionResults {
  winners : list Bid;
  tied : list Bid;
  rolled : Z
}.

(** The fragments of an f-string: literal text, an interpolated integer, an
    interpolated duration (shown through [humanize_delta]) and an
    interpolated [AuctionResults] (shown through its [repr]). *)
Inductive Frag :=
| Str (s : string)
| Int (z : Z)
| Delta (td : timedelta)
| Res (r : AuctionResults).

Definition Text := list Frag.

Definition description (i : AuctionItem) : Text :=
  if quantity i >? 1 then [Str (item i); Str " x"; Int (quantity i)]
  else [Str (item i)].

Record RunningAuction := mkRunningAuction {
  auction_item : AuctionItem;
  status : Status;
  started_at : datetime;
  last_bid : option datetime;
  last_updated : option datetime;
  bids : list Bid;
  results : option AuctionResults
}.

Record AuctionMessage := mkAuctionMessage {
  channel : string;
  message : Text;
  hidden : bool
}.

(** Modelled from the spec: [CharacterDKP] is declared in
    comrade/plugins/dkp/provider.py, which is not part of the sources at
    hand.  The engine builds it from a name alone and reads [current]; the
    specification says that a bidder absent from the balance snapshot has a
    balance of 0. *)
Record CharacterDKP := mkCharacterDKP {
  name : string;
  current : Z
}.

Definition CharacterDKP_of_name (n : string) : CharacterDKP :=
  {| name := n; current := 0 |}.

(** [AuctionLimits] of comrade/core.py. *)
Record AuctionLimits := mkAuctionLimits {
  valuable : Z;
  member : Z;
  minimum : Z;
  maximum : Z
}.

#[global] Instance Status_eq_dec : EqDecision Status.
Proof. solve_decision. Defined.
#[global] Instance BidderRank_eq_dec : EqDecision BidderRank.
Proof. solve_decision. Defined.
#[global] Instance Bid_eq_dec : EqDecision Bid.
Proof. solve_decision. Defined.
#[global] Instance AuctionResults_eq_dec : EqDecision AuctionResults.
Proof. solve_decision. Defined.

(** ** Timing rules of a running auction *)

Definition later (candidate fin : datetime) : datetime :=
  if candidate >? fin then candidate else fin.

(** [RunningAuction.time_left], with the clock reading as argument. *)
Definition time_left (a : RunningAuction) (now : datetime) : timedelta :=
  let fin := started_at a + seconds 90 in
  let fin :=
    match last_bid a with
    | Some lb => later (lb + seconds 30) fin
    | None => fin
    end in
  let fin :=
    match last_updated a with
    | Some lu =>
        if (match last_bid a with None => true | Some lb => lu >? lb end)
        then later (lu + seconds 15) fin
        else fin
    | None => fin
    end in
  let fin :=
    if (match last_updated a with
        | None => true
        | Some lu => match last_bid a with None => false | Some lb => lu <? lb end
        end)
    then later (now + seconds 15) fin
    else fin in
  if fin >? now then fin - now else seconds 0.

(** [RunningAuction.needs_update], with the clock reading as argument. *)
Definition needs_update (a : RunningAuction) (now : datetime) : bool :=
  if negb (bool_decide (status a = Running)) then false
  else if ((now - started_at a >? seconds 30)
           && (match last_bid a with
               | None => true
               | Some lb => now - lb >? seconds 10
               end)
           && (match last_updated a with
               | None => true
               | Some lu => now - lu >? seconds 30
               end))%bool
  then true
  else false.

(** ** Bid validation *)

Definition dkp_get (dkp : gmap string CharacterDKP) (who : string) : CharacterDKP :=
  default (CharacterDKP_of_name who) (dkp !! who).

Definition msg_above_maximum (maximum : Z) : Text :=
  [Str "Error: Invalid Bid (bids above "; Int maximum; Str " are not allowed)."].

Definition msg_below_minimum (minimum : Z) : Text :=
  [Str "Error: Invalid bid (bids below "; Int minimum; Str " are not allowed)."].

Definition msg_increments (valuable_threshold : Z) : Text :=
  [Str "Error: Invalid Bid (bids above "; Int valuable_threshold;
   Str " must be in increments of 5)."].

Definition msg_not_enough : Text := [Str "Error: Invalid Bid (not enough dkp)."].

(** The [if]/[elif] chain of [validate_bid]: [Some reason] when one of its
    rejecting branches is taken, [None] when the chain falls through (the
    two [pass] branches included). *)
Definition validate_amount (bidder_dkp : CharacterDKP) (bid_amount : Z)
    (bids : list Bid) (valuable_threshold minimum maximum : Z) : option Text :=
  if bid_amount >? maximum then Some (msg_above_maximum maximum)
  else if bid_amount <? minimum then Some (msg_below_minimum minimum)
  else if current bidder_dkp =? bid_amount then None
  else if bool_decide (bid_amount ∈ (bid <$> bids)) then None
  else if (bid_amount >=? valuable_threshold) && negb (bid_amount mod 5 =? 0)
       then Some (msg_increments valuable_threshold)
  else None.

Definition validate_bid (who : string) (bid_amount : Z) (bids : list Bid)
    (dkp : gmap string CharacterDKP) (valuable_threshold minimum maximum : Z)
    : bool * Text :=
  let bidder_dkp := dkp_get dkp who in
  match validate_amount bidder_dkp bid_amount bids valuable_threshold minimum maximum with
  | Some reason => (false, reason)
  | None =>
      if bid_amount >? current bidder_dkp then (false, msg_not_enough)
      else (true, [])
  end.

(** ** Result resolution *)

Definition bid_key_t : Type := Z * Z * Z.

(** [_bid_key(dkp, member_treshold)]. *)
Definition _bid_key (dkp : gmap string CharacterDKP) (member_treshold : Z)
    (b : Bid) : bid_key_t :=
  (if (bid b >=? member_treshold) && bool_decide (rank b = Raider) then 1 else 0,
   bid b,
   current (dkp_get dkp (bidder b))).

(** Python's ordering of tuples of integers. *)
Definition key_ltb (k1 k2 : bid_key_t) : bool :=
  let '(a1, b1, c1) := k1 in
  let '(a2, b2, c2) := k2 in
  if a1 =? a2 then (if b1 =? b2 then c1 <? c2 else b1 <? b2) else a1 <? a2.

Definition key_eqb (k1 k2 : bid_key_t) : bool :=
  let '(a1, b1, c1) := k1 in
  let '(a2, b2, c2) := k2 in
  (a1 =? a2) && (b1 =? b2) && (c1 =? c2).

Section Sorting.
Context {A : Type} (key : A -> bid_key_t).

(** [sorted(xs, key=key, reverse=True)]: a stable sort, so elements with
    equal keys keep the order they had in [xs]. *)
Fixpoint insert_desc (x : A) (l : list A) : list A :=
  match l with
  | [] => [x]
  | y :: l' =>
      if key_ltb (key x) (key y) then y :: insert_desc x l' else x :: y :: l'
  end.

Fixpoint sorted_desc (l : list A) : list A :=
  match l with
  | [] => []
  | x :: l' => insert_desc x (sorted_desc l')
  end.

(** [itertools.groupby(xs, key)]: maximal runs of consecutive elements
    with equal keys. *)
Fixpoint groupby (l : list A) : list (list A) :=
  match l with
  | [] => []
  | x :: l' =>
      match groupby l' with
      | (y :: g) :: gs =>
          if key_eqb (key x) (key y) then (x :: y :: g) :: gs
          else [x] :: (y :: g) :: gs
      | gs => [x] :: gs
      end
  end.
End Sorting.

(** [_filter_bids]: the first bid of every (bidder, id) pair. *)
Fixpoint filter_seen (seen : gset (string * Z)) (l : list Bid) : list Bid :=
  match l with
  | [] => []
  | b :: l' =>
      let key := (bidder b, id b) in
      if decide (key ∈ seen) then filter_seen seen l'
      else b :: filter_seen ({[key]} ∪ seen) l'
  end.

Definition _filter_bids (l : list Bid) : list Bid := filter_seen ∅ l.

(** The [for] loop of [determine_results] over the groups, with its two
    [break]s; the state is (need, winners, tied). *)
Fixpoint award (groups : list (list Bid)) (need : Z) (winners tied : list Bid)
    : Z * list Bid * list Bid :=
  match groups with
  | [] => (need, winners, tied)
  | bids :: rest =>
      if Z.of_nat (length bids) <=? need then
        let winners := winners ++ bids in
        let need := need - Z.of_nat (length bids) in
        if need =? 0 then (need, winners, tied)
        else award rest need winners tied
      else (need, winners, tied ++ bids)
  end.

Definition all_bids (a : RunningAuction) (dkp : gmap string CharacterDKP)
    (member_treshold : Z) : list Bid :=
  _filter_bids (sorted_desc (_bid_key dkp member_treshold) (bids a)).

Definition determine_results (a : RunningAuction) (dkp : gmap string CharacterDKP)
    (member_treshold : Z) : AuctionResults :=
  let need := quantity (auction_item a) in
  let groups := groupby (_bid_key dkp member_treshold) (all_bids a dkp member_treshold) in
  let '(need, winners, tied) := award groups need [] [] in
  let rolled := if need =? 0 then 0 else need in
  {| winners := winners; tied := tied; rolled := rolled |}.

(** ** The Auctioneer *)

(** A Python [dict] with string keys, in insertion order. *)
Section Dict.
Context {V : Type}.

Fixpoint dict_get (d : list (string * V)) (k : string) : option V :=
  match d with
  | [] => None
  | (k', v) :: d' => if decide (k = k') then Some v else dict_get d' k
  end.

(** [d[k] = v]: an existing key keeps its place, a new key goes last. *)
Fixpoint dict_set (d : list (string * V)) (k : string) (v : V) : list (string * V) :=
  match d with
  | [] => [(k, v)]
  | (k', v') :: d' =>
      if decide (k = k') then (k', v) :: d' else (k', v') :: dict_set d' k v
  end.
End Dict.

Definition newline : string := String (Ascii.ascii_of_nat 10) EmptyString.

Module Auctioneer.

(** The attributes of an [Auctioneer] instance. *)
Record t := mk {
  _pending_items : list AuctionItem;
  _channels : list (string * option RunningAuction);
  _limits : AuctionLimits;
  _dkp : gmap string CharacterDKP
}.

(** What the methods read from outside: the successive readings of
    [datetime.utcnow()] and the successive draws of [random.choice]. *)
Record Env := mkEnv {
  utcnow_at : nat -> datetime;
  draw_at : nat -> nat
}.

Record World := mkWorld {
  self : t;
  clock_reads : nat;
  random_draws : nat
}.

(** A method run to its end: [None] when it raises, otherwise its value,
    the messages it yielded and the world it leaves. *)
Definition Gen (A : Type) : Type :=
  Env -> World -> option (A * list AuctionMessage * World).

Definition ret {A} (x : A) : Gen A := fun _ w => Some (x, [], w).

Definition bind {A B} (m : Gen A) (k : A -> Gen B) : Gen B := fun e w =>
  match m e w with
  | None => None
  | Some (x, out1, w1) =>
      match k x e w1 with
      | None => None
      | Some (y, out2, w2) => Some (y, out1 ++ out2, w2)
      end
  end.

Notation "'let*' x ':=' m 'in' k" := (bind m (fun x => k))
  (at level 10, x name, m at level 100, k at level 200).
Notation "m ';;' k" := (bind m (fun _ => k))
  (at level 100, k at level 200, right associativity).

Definition raise {A} : Gen A := fun _ _ => None.

Definition yield (m : AuctionMessage) : Gen unit := fun _ w => Some (tt, [m], w).

Definition get_self : Gen t := fun _ w => Some (self w, [], w).

Definition put_self (s : t) : Gen unit := fun _ w =>
  Some (tt, [], {| self := s; clock_reads := clock_reads w; random_draws := random_draws w |}).

Definition utcnow : Gen datetime := fun e w =>
  Some (utcnow_at e (clock_reads w), [],
        {| self := self w; clock_reads := S (clock_reads w); random_draws := random_draws w |}).

(** [random.choice(seq)]: raises on an empty sequence. *)
Definition choice {A} (seq : list A) : Gen A := fun e w =>
  match seq !! (draw_at e (random_draws w) `mod` length seq)%nat with
  | None => None
  | Some x =>
      Some (x, [],
            {| self := self w; clock_reads := clock_reads w;
               random_draws := S (random_draws w) |})
  end.

(** [self._channels[channel]] followed by an attribute access: raises when
    the key is missing or the slot holds [None]. *)
Definition the_auction (channel : string) : Gen RunningAuction :=
  let* s := get_self in
  match dict_get (_channels s) channel with
  | Some (Some auction) => ret auction
  | _ => raise
  end.

(** [self._channels[channel] = slot]; also what an in-place change of the
    auction object held by the channel amounts to. *)
Definition set_channel (channel : string) (slot : option RunningAuction) : Gen unit :=
  let* s := get_self in
  put_self {| _pending_items := _pending_items s;
              _channels := dict_set (_channels s) channel slot;
              _limits := _limits s;
              _dkp := _dkp s |}.

(** [RunningAuction(item=item)]: the factory of [started_at] reads the clock. *)
Definition new_auction (i : AuctionItem) : Gen RunningAuction :=
  let* now := utcnow in
  ret {| auction_item := i; status := Running; started_at := now;
         last_bid := None; last_updated := None; bids := []; results := None |}.

(** The property [time_left] reads the clock each time it is evaluated. *)
Definition read_time_left (auction : RunningAuction) : Gen timedelta :=
  let* now := utcnow in ret (time_left auction now).

(** The property [needs_update] reads the clock only after its status test. *)
Definition read_needs_update (auction : RunningAuction) : Gen bool :=
  if negb (bool_decide (status auction = Running)) then ret false
  else let* now := utcnow in ret (needs_update auction now).

Definition __init__ (channels : list string) (limits : AuctionLimits) : t :=
  {| _pending_items := [];
     _channels := fold_left (fun d c => dict_set d c None) channels [];
     _limits := limits;
     _dkp := ∅ |}.

Definition has_running_auctions (s : t) : bool :=
  existsb (fun kv => bool_decide (is_Some (snd kv))) (_channels s).

Definition add (i : AuctionItem) : Gen unit :=
  let* s := get_self in
  put_self {| _pending_items := _pending_items s ++ [i];
              _channels := _channels s;
              _limits := _limits s;
              _dkp := _dkp s |}.

Definition update_dkp (dkp : gmap string CharacterDKP) : Gen unit :=
  let* s := get_self in
  put_self {| _pending_items := _pending_items s;
              _channels := _channels s;
              _limits := _limits s;
              _dkp := dkp |}.

(** *** The two guards *)

Definition check_auction_channels (fn : string -> Gen unit) (channel : string)
    : Gen unit :=
  let* s := get_self in
  match dict_get (_channels s) channel with
  | None =>
      yield {| channel := channel;
               message := [Str "This isn't an auction channel. Try Again."];
               hidden := true |}
  | Some None =>
      yield {| channel := channel;
               message := [Str "There isn't an active auction in this channel."];
               hidden := true |}
  | Some (Some _) => fn channel
  end.

(** The loop over [statuses.items()]: the message of the first entry whose
    status is the auction's. *)
Fixpoint first_forbidden (statuses : list (Status * string)) (st : Status)
    : option string :=
  match statuses with
  | [] => None
  | (status, message) :: rest =>
      if decide (st = status) then Some message else first_forbidden rest st
  end.

Definition check_auction_status (statuses : list (Status * string))
    (fn : string -> Gen unit) (channel : string) : Gen unit :=
  let* auction := the_auction channel in
  match first_forbidden statuses (status auction) with
  | Some message =>
      yield {| channel := channel; message := [Str message]; hidden := true |}
  | None => fn channel
  end.

(** *** The tick *)

Definition msg_closed (r : AuctionResults) : Text :=
  [Str "Auction Closed. Results: "; Res r].

Definition msg_update (i : AuctionItem) (left : timedelta) (r : AuctionResults) : Text :=
  [Str "This is an update for "] ++ description i
    ++ [Str " ending in "; Delta left; Str "."; Str newline; Str "Results: "; Res r].

(** The body of the loop of [run] for one entry of [self._channels]; the
    value is the slot as the body leaves it (the auction object is changed
    in place). *)
Definition run_channel (channel : string) (slot : option RunningAuction)
    : Gen (option RunningAuction) :=
  match slot with
  | None => ret None
  | Some auction =>
      let* s := get_self in
      let* left := read_time_left auction in
      let* auction :=
        (if (left =? 0) && bool_decide (status auction = Running) then
           let closing :=
             {| auction_item := auction_item auction; status := Finished;
                started_at := started_at auction; last_bid := last_bid auction;
                last_updated := last_updated auction; bids := bids auction;
                results := results auction |} in
           let r := determine_results closing (_dkp s) (member (_limits s)) in
           let closed :=
             {| auction_item := auction_item closing; status := status closing;
                started_at := started_at closing; last_bid := last_bid closing;
                last_updated := last_updated closing; bids := bids closing;
                results := Some r |} in
           yield {| channel := channel; message := msg_closed r; hidden := false |};;
           ret closed
         else ret auction) in
      let* due := read_needs_update auction in
      if due then
        let* now := utcnow in
        let auction :=
          {| auction_item := auction_item auction; status := status auction;
             started_at := started_at auction; last_bid := last_bid auction;
             last_updated := Some now; bids := bids auction;
             results := results auction |} in
        let r := determine_results auction (_dkp s) (member (_limits s)) in
        let* left := read_time_left auction in
        yield {| channel := channel;
                 message := msg_update (auction_item auction) left r;
                 hidden := false |};;
        ret (Some auction)
      else ret (Some auction)
  end.

Fixpoint run_items (entries : list (string * option RunningAuction))
    : Gen (list (string * option RunningAuction)) :=
  match entries with
  | [] => ret []
  | (channel, slot) :: rest =>
      let* slot := run_channel channel slot in
      let* rest := run_items rest in
      ret ((channel, slot) :: rest)
  end.

Definition run : Gen unit :=
  let* s := get_self in
  let* channels := run_items (_channels s) in
  put_self {| _pending_items := _pending_items s;
              _channels := channels;
              _limits := _limits s;
              _dkp := _dkp s |}.

(** *** The channel operations *)

Definition stop_body (channel : string) : Gen unit :=
  let* auction := the_auction channel in
  let auction :=
    {| auction_item := auction_item auction; status := Stopped;
       started_at := started_at auction; last_bid := last_bid auction;
       last_updated := last_updated auction; bids := bids auction;
       results := results auction |} in
  set_channel channel (Some auction);;
  yield {| channel := channel; message := [Str "Auction has been stopped"];
           hidden := true |};;
  yield {| channel := channel;
           message := [Str "Auction for "] ++ description (auction_item auction)
                        ++ [Str " has been stopped."];
           hidden := false |}.

Definition stop : string -> Gen unit :=
  check_auction_channels
    (check_auction_status
       [(Finished, "This auction has finished already and cannot be stopped.");
        (Stopped, "This auction is already stopped.")]
       stop_body).

Definition accept_body (force : bool) (channel : string) : Gen unit :=
  let* s := get_self in
  let* auction := the_auction channel in
  let r := determine_results auction (_dkp s) (member (_limits s)) in
  if negb force && negb (bool_decide (results auction = Some r)) then
    yield {| channel := channel;
             message := [Str "This auction has not been accepted because the results have changed since it closed."];
             hidden := true |}
  else
    yield {| channel := channel; message := [Str "Auction Accepted"]; hidden := true |};;
    yield {| channel := channel; message := [Str "Auction Accepted: "; Res r];
             hidden := false |}.

Definition accept (channel : string) (force : bool) : Gen unit :=
  check_auction_channels
    (check_auction_status
       [(Running, "This auction has not finished and cannot be accepted yet.");
        (Stopped, "This auction has not finished and cannot be accepted yet.")]
       (accept_body force))
    channel.

Definition reopen_body (channel : string) : Gen unit :=
  let* auction := the_auction channel in
  let* now := utcnow in
  let auction :=
    {| auction_item := auction_item auction; status := Running;
       started_at := now; last_bid := None; last_updated := None;
       bids := bids auction; results := None |} in
  set_channel channel (Some auction);;
  yield {| channel := channel; message := [Str "Reopening Bidding"]; hidden := true |};;
  let* left := read_time_left auction in
  yield {| channel := channel;
           message := [Str "Reopening Bids for "] ++ description (auction_item auction)
                        ++ [Str ", ending in "; Delta left];
           hidden := false |}.

Definition reopen : string -> Gen unit :=
  check_auction_channels
    (check_auction_status
       [(Running, "This auction has not finished and cannot be reopened yet.")]
       reopen_body).

Definition restart_body (channel : string) : Gen unit :=
  let* auction := the_auction channel in
  let i := auction_item auction in
  let* auction := new_auction i in
  set_channel channel (Some auction);;
  yield {| channel := channel; message := [Str "Restarted Auction"]; hidden := true |};;
  let* left := read_time_left auction in
  yield {| channel := channel;
           message := [Str "Restarting Bids for "] ++ description i
                        ++ [Str ", ending in "; Delta left];
           hidden := false |}.

Definition restart : string -> Gen unit := check_auction_channels restart_body.

Definition delete_body (channel : string) : Gen unit :=
  let* auction := the_auction channel in
  set_channel channel None;;
  yield {| channel := channel; message := [Str "Auction Deleted"]; hidden := true |};;
  yield {| channel := channel;
           message := [Str "Auction for "] ++ description (auction_item auction)
                        ++ [Str " has been deleted."];
           hidden := false |}.

Definition delete : string -> Gen unit := check_auction_channels delete_body.

(** [set.add]: nothing changes when an equal element is present; a new
    element is put last in the iteration order. *)
Definition set_add (b : Bid) (s : list Bid) : list Bid :=
  if bool_decide (b ∈ s) then s else s ++ [b].

Definition bid_body (who : string) (bid_amount bid_id : Z) (rk : BidderRank)
    (channel : string) : Gen unit :=
  let* s := get_self in
  let* auction := the_auction channel in
  let '(valid, error) :=
    validate_bid who bid_amount (bids auction) (_dkp s)
      (valuable (_limits s)) (minimum (_limits s)) (maximum (_limits s)) in
  if negb valid then
    yield {| channel := channel; message := error; hidden := true |}
  else
    let b := mkBid who rk bid_amount bid_id in
    let* now := utcnow in
    let auction :=
      {| auction_item := auction_item auction; status := status auction;
         started_at := started_at auction; last_bid := Some now;
         last_updated := last_updated auction; bids := set_add b (bids auction);
         results := results auction |} in
    set_channel channel (Some auction);;
    yield {| channel := channel; message := [Str "Bid Accepted!"]; hidden := true |};;
    yield {| channel := channel;
             message := [Str who; Str " has bid "; Int bid_amount];
             hidden := false |}.

Definition bid (channel who : string) (bid_amount bid_id : Z) (rk : BidderRank)
    : Gen unit :=
  check_auction_channels
    (check_auction_status
       [(Finished, "This auction has already closed and is waiting on and officer to accept the results.");
        (Stopped, "This auction has been stopped and is not accepting bids at the moment.")]
       (bid_body who bid_amount bid_id rk))
    channel.

(** *** Starting pending auctions *)

(** The [while] loop of [next]; [pending] is [self._pending_items], which
    every round shortens by its head. *)
Fixpoint next_loop (pending : list AuctionItem) : Gen unit :=
  match pending with
  | [] => ret tt
  | i :: rest =>
      let* s := get_self in
      if forallb (fun kv => bool_decide (is_Some (snd kv))) (_channels s) then ret tt
      else
        put_self {| _pending_items := rest;
                    _channels := _channels s;
                    _limits := _limits s;
                    _dkp := _dkp s |};;
        let* channel :=
          choice (fst <$> filter (fun kv => snd kv = None) (_channels s)) in
        let* auction := new_auction i in
        set_channel channel (Some auction);;
        let* left := read_time_left auction in
        yield {| channel := channel;
                 message := [Str "Starting Bid for "] ++ description i
                              ++ [Str " by "; Str (added_by i); Str ", ending in ";
                                  Delta left];
                 hidden := false |};;
        next_loop rest
  end.

Definition next : Gen unit :=
  let* s := get_self in next_loop (_pending_items s).

(** *** Calls into the engine *)

Inductive Op :=
| OpAdd (i : AuctionItem)
| OpUpdateDkp (dkp : gmap string CharacterDKP)
| OpRun
| OpNext
| OpBid (channel who : string) (bid_amount bid_id : Z) (rk : BidderRank)
| OpStop (channel : string)
| OpAccept (channel : string) (force : bool)
| OpReopen (channel : string)
| OpRestart (channel : string)
| OpDelete (channel : string).

Definition call (op : Op) : Gen unit :=
  match op with
  | OpAdd i => add i
  | OpUpdateDkp dkp => update_dkp dkp
  | OpRun => run
  | OpNext => next
  | OpBid channel who bid_amount bid_id rk => bid channel who bid_amount bid_id rk
  | OpStop channel => stop channel
  | OpAccept channel force => accept channel force
  | OpReopen channel => reopen channel
  | OpRestart channel => restart channel
  | OpDelete channel => delete channel
  end.

End Auctioneer.

(** * Properties *)

(** ** Timing *)

Lemma later_ge candidate fin : fin <= later candidate fin /\ candidate <= later candidate fin.
Proof. unfold later. destruct (Z.gtb_spec candidate fin); lia. Qed.

(** The deadline that [time_left] computes before it looks at the clock. *)
Definition fixed_end (a : RunningAuction) : datetime :=
  let fin := started_at a + seconds 90 in
  let fin :=
    match last_bid a with
    | Some lb => later (lb + seconds 30) fin
    | None => fin
    end in
  match last_updated a with
  | Some lu =>
      if (match last_bid a with None => true | Some lb => lu >? lb end)
      then later (lu + seconds 15) fin
      else fin
  | None => fin
  end.

(** Whether the deadline still waits for an update, so that it moves with
    the clock. *)
Definition awaits_update (a : RunningAuction) : bool :=
  match last_updated a with
  | None => true
  | Some lu => match last_bid a with None => false | Some lb => lu <? lb end
  end.

Lemma time_left_eq a now :
  time_left a now =
    if awaits_update a
    then Z.max (fixed_end a - now) (seconds 15)
    else Z.max (fixed_end a - now) 0.
Proof.
  unfold time_left, awaits_update. fold (fixed_end a).
  generalize (fixed_end a) as fin. intros fin.
  destruct (match last_updated a with
            | None => true
            | Some lu => match last_bid a with None => false | Some lb => lu <? lb end
            end); unfold later, seconds.
  - destruct (Z.gtb_spec (now + 15 * 1000000) fin) as [H|H].
    + destruct (Z.gtb_spec (now + 15 * 1000000) now); lia.
    + destruct (Z.gtb_spec fin now); lia.
  - destruct (Z.gtb_spec fin now); lia.
Qed.

Lemma time_left_antitone a now1 now2 :
  now1 <= now2 -> time_left a now2 <= time_left a now1.
Proof.
  intros H. rewrite !time_left_eq. destruct (awaits_update a); lia.
Qed.

Lemma time_left_nonneg a now : 0 <= time_left a now.
Proof.
  rewrite time_left_eq. unfold seconds. destruct (awaits_update a); lia.
Qed.

(** C4. With the timestamps of the auction held fixed, [time_left] does not
    increase when the clock advances, and it is never negative. *)
Theorem time_left_monotone_nonneg (a : RunningAuction) (now1 now2 : datetime) :
  now1 <= now2 ->
  time_left a now2 <= time_left a now1 /\ 0 <= time_left a now1 /\ 0 <= time_left a now2.
Proof.
  intros H. split; [now apply time_left_antitone|].
  split; apply time_left_nonneg.
Qed.

Definition sample_item : AuctionItem :=
  {| item := "Sword of Omens"; quantity := 1; added_by := "officer" |}.

Definition updated_auction : RunningAuction :=
  {| auction_item := sample_item; status := Running; started_at := 0;
     last_bid := Some (seconds 40); last_updated := Some (seconds 80);
     bids := []; results := None |}.

Lemma time_left_monotone_nonneg_witness :
  seconds 85 <= seconds 100 /\
  time_left updated_auction (seconds 100) <= time_left updated_auction (seconds 85) /\
  0 <= time_left updated_auction (seconds 85) /\
  0 <= time_left updated_auction (seconds 100).
Proof.
  split; [vm_compute; discriminate|].
  apply (time_left_monotone_nonneg updated_auction (seconds 85) (seconds 100)).
  vm_compute; discriminate.
Defined.

(** ** Updates *)

Lemma gtb_true_iff (x y : Z) : (x >? y) = true <-> x > y.
Proof. destruct (Z.gtb_spec x y); split; try discriminate; lia. Qed.

Lemma needs_update_iff (a : RunningAuction) (now : datetime) :
  needs_update a now = true <->
  status a = Running
  /\ now - started_at a > seconds 30
  /\ (forall lb, last_bid a = Some lb -> now - lb > seconds 10)
  /\ (forall lu, last_updated a = Some lu -> now - lu > seconds 30).
Proof.
  unfold needs_update.
  destruct (decide (status a = Running)) as [Hs|Hs].
  2:{ rewrite (bool_decide_eq_false_2 _ Hs). cbn [negb].
      split; [discriminate|]. intros (H & _). contradiction. }
  rewrite (bool_decide_eq_true_2 _ Hs). cbn [negb].
  assert (Hb : (match last_bid a with
                | None => true
                | Some lb => now - lb >? seconds 10
                end) = true <->
               (forall lb, last_bid a = Some lb -> now - lb > seconds 10)).
  { destruct (last_bid a) as [lb|].
    - rewrite gtb_true_iff. split.
      + intros H ? [= <-]. exact H.
      + intros H. now apply H.
    - split; [discriminate|reflexivity]. }
  assert (Hu : (match last_updated a with
                | None => true
                | Some lu => now - lu >? seconds 30
                end) = true <->
               (forall lu, last_updated a = Some lu -> now - lu > seconds 30)).
  { destruct (last_updated a) as [lu|].
    - rewrite gtb_true_iff. split.
      + intros H ? [= <-]. exact H.
      + intros H. now apply H.
    - split; [discriminate|reflexivity]. }
  rewrite <- Hb, <- Hu, <- gtb_true_iff, <- !andb_true_iff.
  rewrite andb_assoc.
  destruct (_ && _ && _)%bool; intuition congruence.
Qed.

(** C9, as the code has it.  [needs_update] holds exactly when the auction is
    running, it started more than 30 seconds ago, its last bid (if any) is
    more than 10 seconds old and its last update (if any) is more than 30
    seconds old; the three comparisons are strict.  For a stopped or
    finished auction it is false whatever the timestamps. *)
Theorem needs_update_strict (a : RunningAuction) (now : datetime) :
  (needs_update a now = true <->
     status a = Running
     /\ now - started_at a > seconds 30
     /\ (forall lb, last_bid a = Some lb -> now - lb > seconds 10)
     /\ (forall lu, last_updated a = Some lu -> now - lu > seconds 30))
  /\ (status a <> Running -> needs_update a now = false).
Proof.
  split; [apply needs_update_iff|].
  intros Hs. destruct (needs_update a now) eqn:E; [|reflexivity].
  apply needs_update_iff in E. destruct E as [E _]. contradiction.
Qed.

Definition fresh_auction : RunningAuction :=
  {| auction_item := sample_item; status := Running; started_at := 0;
     last_bid := None; last_updated := None; bids := []; results := None |}.

Definition stopped_auction : RunningAuction :=
  {| auction_item := sample_item; status := Stopped; started_at := 0;
     last_bid := None; last_updated := None; bids := []; results := None |}.

Lemma needs_update_strict_witness :
  (needs_update fresh_auction (seconds 31) = true <->
     status fresh_auction = Running
     /\ seconds 31 - started_at fresh_auction > seconds 30
     /\ (forall lb, last_bid fresh_auction = Some lb -> seconds 31 - lb > seconds 10)
     /\ (forall lu, last_updated fresh_auction = Some lu -> seconds 31 - lu > seconds 30))
  /\ needs_update stopped_auction (seconds 31) = false.
Proof.
  split.
  - apply (needs_update_strict fresh_auction (seconds 31)).
  - apply (needs_update_strict stopped_auction (seconds 31)). discriminate.
Defined.

(** C9, as the specification words it (with "at least"), fails on the
    boundary: an auction started exactly 30 seconds ago, with no bid and no
    update, meets the three conditions and yet needs no update. *)
Lemma needs_update_boundary :
  status fresh_auction = Running
  /\ seconds 30 - started_at fresh_auction >= seconds 30
  /\ (forall lb, last_bid fresh_auction = Some lb -> seconds 30 - lb >= seconds 10)
  /\ (forall lu, last_updated fresh_auction = Some lu -> seconds 30 - lu >= seconds 30)
  /\ needs_update fresh_auction (seconds 30) = false.
Proof.
  repeat split; try discriminate. 
Qed.

(** ** Bid validation *)

(** The exemption from the increments-of-5 rule: an all-in bid, or a bid
    that matches the amount of a bid already made. *)
Definition waived (balance bid_amount : Z) (bids : list Bid) : bool :=
  (balance =? bid_amount) || bool_decide (bid_amount ∈ (bid <$> bids)).

(** The rules of the validator in the order the specification lists them. *)
Definition validate_rules (balance bid_amount : Z) (bids : list Bid)
    (valuable_threshold minimum maximum : Z) : bool * Text :=
  if bid_amount >? maximum then (false, msg_above_maximum maximum)
  else if bid_amount <? minimum then (false, msg_below_minimum minimum)
  else if negb (waived balance bid_amount bids)
          && (bid_amount >=? valuable_threshold)
          && negb (bid_amount mod 5 =? 0)
       then (false, msg_increments valuable_threshold)
  else if bid_amount >? balance then (false, msg_not_enough)
  else (true, []).

Lemma validate_bid_rules who bid_amount bids dkp valuable_threshold minimum maximum :
  validate_bid who bid_amount bids dkp valuable_threshold minimum maximum =
  validate_rules (current (dkp_get dkp who)) bid_amount bids
    valuable_threshold minimum maximum.
Proof.
  unfold validate_bid, validate_amount, validate_rules, waived.
  destruct (bid_amount >? maximum); [reflexivity|].
  destruct (bid_amount <? minimum); [reflexivity|].
  destruct (current (dkp_get dkp who) =? bid_amount); cbn [orb negb andb];
    [reflexivity|].
  destruct (bool_decide (bid_amount ∈ bid <$> bids)); cbn [negb andb];
    [reflexivity|].
  destruct ((bid_amount >=? valuable_threshold) && negb (bid_amount mod 5 =? 0));
    reflexivity.
Qed.

Ltac split_tests :=
  repeat match goal with
    | |- context [?x >? ?y] => destruct (Z.gtb_spec x y)
    | |- context [?x <? ?y] => destruct (Z.ltb_spec x y)
    | |- context [?x >=? ?y] => destruct (Z.geb_spec x y)
    | |- context [?x =? ?y] => destruct (Z.eqb_spec x y)
    | |- context [bool_decide ?P] => destruct (bool_decide_reflect P)
    end; cbn [negb andb orb].

(** C3. [validate_bid] applies its rules in order and stops at the first
    that fails: above the maximum, below the minimum, not a multiple of 5
    from the valuable threshold on unless the bid is all-in or echoes an
    existing bid, more than the balance; what passes them all is accepted.
    Within the bounds an all-in or echo bid is never rejected for its
    granularity, whatever its remainder modulo 5. *)
Theorem validate_bid_ordered_rules (who : string) (bid_amount : Z) (bids : list Bid)
    (dkp : gmap string CharacterDKP) (valuable_threshold minimum maximum : Z) :
  let balance := current (dkp_get dkp who) in
  let verdict :=
    validate_bid who bid_amount bids dkp valuable_threshold minimum maximum in
  let exempt := bid_amount = balance \/ bid_amount ∈ (bid <$> bids) in
  let enough := if bid_amount >? balance then (false, msg_not_enough) else (true, []) in
  (bid_amount > maximum -> verdict = (false, msg_above_maximum maximum))
  /\ (bid_amount <= maximum -> bid_amount < minimum ->
      verdict = (false, msg_below_minimum minimum))
  /\ (minimum <= bid_amount <= maximum -> exempt ->
      verdict <> (false, msg_increments valuable_threshold) /\ verdict = enough)
  /\ (minimum <= bid_amount <= maximum -> ~ exempt ->
      bid_amount >= valuable_threshold -> bid_amount mod 5 <> 0 ->
      verdict = (false, msg_increments valuable_threshold))
  /\ (minimum <= bid_amount <= maximum -> ~ exempt ->
      bid_amount < valuable_threshold \/ bid_amount mod 5 = 0 ->
      verdict = enough).
Proof.
  intros balance verdict exempt enough. subst verdict exempt enough.
  rewrite validate_bid_rules. fold balance.
  unfold validate_rules, waived.
  repeat split; intros; split_tests;
    try reflexivity; try discriminate; try lia; try tauto;
    exfalso; intuition (congruence || lia).
Qed.

Definition balances : gmap string CharacterDKP :=
  <["alice" := mkCharacterDKP "alice" 103]>
    (<["bob" := mkCharacterDKP "bob" 200]> ∅).

(** Alice goes all-in with 103 points where bids from 50 on go by fives. *)
Lemma validate_bid_ordered_rules_witness :
  validate_bid "alice" 103 [] balances 50 1 1000
    <> (false, msg_increments 50)
  /\ validate_bid "alice" 103 [] balances 50 1 1000 = (true, [])
  /\ validate_bid "bob" 103 [] balances 50 1 1000 = (false, msg_increments 50)
  /\ validate_bid "bob" 103 [mkBid "alice" Raider 103 0] balances 50 1 1000 = (true, []).
Proof.
  pose proof (validate_bid_ordered_rules "alice" 103 [] balances 50 1 1000) as Ha.
  pose proof (validate_bid_ordered_rules "bob" 103 [] balances 50 1 1000) as Hb.
  pose proof (validate_bid_ordered_rules "bob" 103 [mkBid "alice" Raider 103 0]
                balances 50 1 1000) as Hc.
  cbv zeta in Ha, Hb, Hc.
  destruct Ha as (_ & _ & Ha & _). destruct Hb as (_ & _ & _ & Hb & _).
  destruct Hc as (_ & _ & Hc & _).
  assert (Hbal : current (dkp_get balances "alice") = 103) by reflexivity.
  assert (Hbob : current (dkp_get balances "bob") = 200) by reflexivity.
  destruct Ha as [Ha1 Ha2]; [lia | left; rewrite Hbal; reflexivity |].
  destruct Hc as [_ Hc]; [lia | right; cbn; left |].
  split; [exact Ha1|]. split; [rewrite Ha2, Hbal; reflexivity|].
  split; [|rewrite Hc, Hbob; reflexivity].
  apply Hb; [lia | | lia | discriminate].
  rewrite Hbob. intros [H|H]; [discriminate | cbn in H; inversion H].
Defined.

(** ** Result resolution *)

Lemma key_ltb_true (k1 k2 : bid_key_t) :
  key_ltb k1 k2 = true <->
  k1.1.1 < k2.1.1
  \/ (k1.1.1 = k2.1.1 /\ (k1.1.2 < k2.1.2 \/ (k1.1.2 = k2.1.2 /\ k1.2 < k2.2))).
Proof.
  destruct k1 as [[a1 b1] c1], k2 as [[a2 b2] c2]. cbn.
  destruct (Z.eqb_spec a1 a2), (Z.eqb_spec b1 b2);
    rewrite Z.ltb_lt; lia.
Qed.

Lemma key_ltb_false (k1 k2 : bid_key_t) :
  key_ltb k1 k2 = false <->
  k2.1.1 < k1.1.1
  \/ (k1.1.1 = k2.1.1 /\ (k2.1.2 < k1.1.2 \/ (k1.1.2 = k2.1.2 /\ k2.2 <= k1.2))).
Proof.
  rewrite <- not_true_iff_false, key_ltb_true. lia.
Qed.

Lemma key_eqb_true (k1 k2 : bid_key_t) : key_eqb k1 k2 = true <-> k1 = k2.
Proof.
  destruct k1 as [[a1 b1] c1], k2 as [[a2 b2] c2]. cbn.
  rewrite !andb_true_iff, !Z.eqb_eq. split.
  - intros [[-> ->] ->]. reflexivity.
  - intros [= -> -> ->]. auto.
Qed.

(** [k1] does not come after [k2] in the descending order. *)
Definition key_ge (k1 k2 : bid_key_t) : Prop := key_ltb k1 k2 = false.

Lemma key_ge_refl k : key_ge k k.
Proof. apply key_ltb_false. lia. Qed.

Lemma key_ge_trans k1 k2 k3 : key_ge k1 k2 -> key_ge k2 k3 -> key_ge k1 k3.
Proof. unfold key_ge. rewrite !key_ltb_false. lia. Qed.

Lemma key_ge_total k1 k2 : key_ltb k1 k2 = true -> key_ge k2 k1.
Proof. unfold key_ge. rewrite key_ltb_true, key_ltb_false. lia. Qed.

Section SortingFacts.
Context {A : Type} (key : A -> bid_key_t).

Definition before (x y : A) : Prop := key_ge (key x) (key y).

Lemma insert_desc_perm x l : insert_desc key x l ≡ₚ x :: l.
Proof.
  induction l as [|y l IH]; cbn; [reflexivity|].
  destruct (key_ltb (key x) (key y)); [|reflexivity].
  rewrite IH. apply Permutation_swap.
Qed.

Lemma sorted_desc_perm l : sorted_desc key l ≡ₚ l.
Proof.
  induction l as [|x l IH]; cbn; [reflexivity|].
  rewrite insert_desc_perm. now rewrite IH.
Qed.

Lemma insert_desc_sorted x l :
  StronglySorted before l -> StronglySorted before (insert_desc key x l).
Proof.
  induction 1 as [|y l Hs IH Hy]; cbn.
  - repeat constructor.
  - destruct (key_ltb (key x) (key y)) eqn:E.
    + constructor; [exact IH|].
      rewrite Forall_forall. intros z Hz.
      apply elem_of_Permutation_proper with (y := x :: l) in Hz;
        [|apply insert_desc_perm].
      apply elem_of_cons in Hz as [->|Hz].
      * now apply key_ge_total.
      * rewrite Forall_forall in Hy. now apply Hy.
    + constructor; [now constructor|].
      constructor; [exact E|].
      rewrite Forall_forall in Hy |- *. intros z Hz.
      eapply key_ge_trans; [exact E|]. now apply Hy.
Qed.

Lemma sorted_desc_sorted l : StronglySorted before (sorted_desc key l).
Proof.
  induction l as [|x l IH]; cbn; [constructor|].
  now apply insert_desc_sorted.
Qed.

Lemma sorted_split l1 x l2 y :
  StronglySorted before (l1 ++ x :: l2) -> y ∈ l2 -> before x y.
Proof.
  induction l1 as [|z l1 IH]; cbn; intros Hs Hy.
  - apply StronglySorted_inv in Hs as [_ Hall].
    rewrite Forall_forall in Hall. now apply Hall.
  - apply StronglySorted_inv in Hs as [Hs _]. now apply IH.
Qed.

Lemma groupby_concat l : concat (groupby key l) = l.
Proof.
  induction l as [|x l IH]; cbn; [reflexivity|].
  destruct (groupby key l) as [|[|y g] gs]; cbn in *.
  - congruence.
  - congruence.
  - destruct (key_eqb (key x) (key y)); cbn; congruence.
Qed.

Lemma groupby_nonempty l : Forall (fun g => g <> []) (groupby key l).
Proof.
  induction l as [|x l IH]; cbn; [constructor|].
  destruct (groupby key l) as [|[|y g] gs].
  - repeat constructor. discriminate.
  - constructor; [discriminate|exact IH].
  - destruct (key_eqb (key x) (key y)).
    + apply Forall_cons in IH as [_ IH]. constructor; [discriminate|exact IH].
    + constructor; [discriminate|exact IH].
Qed.
End SortingFacts.

(** The identity under which [_filter_bids] counts a bid once. *)
Definition bid_pair (b : Bid) : string * Z := (bidder b, id b).

Lemma filter_seen_elem l : forall seen b,
  b ∈ filter_seen seen l ->
  (bid_pair b ∉ seen)
  /\ exists l1 l2, l = l1 ++ b :: l2 /\ forall x, x ∈ l1 -> bid_pair x <> bid_pair b.
Proof.
  induction l as [|b0 l IH]; cbn; intros seen b Hb.
  - now apply elem_of_nil in Hb.
  - fold (bid_pair b0) in Hb. destruct (decide (bid_pair b0 ∈ seen)) as [Hin|Hout].
    + destruct (IH _ _ Hb) as (Hs & l1 & l2 & -> & Hl1).
      split; [exact Hs|]. exists (b0 :: l1), l2. split; [reflexivity|].
      intros x Hx. apply elem_of_cons in Hx as [->|Hx]; [|now apply Hl1].
      intros E. rewrite E in Hin. contradiction.
    + apply elem_of_cons in Hb as [->|Hb].
      * split; [exact Hout|]. exists [], l. split; [reflexivity|].
        intros x Hx. now apply elem_of_nil in Hx.
      * destruct (IH _ _ Hb) as (Hs & l1 & l2 & -> & Hl1).
        split; [intros Hin; apply Hs, elem_of_union; now right|].
        exists (b0 :: l1), l2. split; [reflexivity|].
        intros x Hx. apply elem_of_cons in Hx as [->|Hx]; [|now apply Hl1].
        intros E. apply Hs, elem_of_union. left. now apply elem_of_singleton.
Qed.

Lemma filter_seen_nodup l : forall seen, NoDup (bid_pair <$> filter_seen seen l).
Proof.
  induction l as [|b0 l IH]; cbn; intros seen; [constructor|].
  fold (bid_pair b0). destruct (decide (bid_pair b0 ∈ seen)); [apply IH|].
  cbn. constructor; [|apply IH].
  intros Hin. apply list_elem_of_fmap in Hin as (b & E & Hb).
  apply filter_seen_elem in Hb as [Hb _].
  apply Hb, elem_of_union. left. now apply elem_of_singleton.
Qed.

Lemma award_prefix groups : forall need won,
  exists pre suf,
    concat groups = pre ++ suf
    /\ (award groups need won []).1.2 ++ (award groups need won []).2 = won ++ pre.
Proof.
  induction groups as [|g rest IH]; cbn; intros need won.
  - exists [], []. split; [reflexivity|]. cbn. reflexivity.
  - destruct (Z.of_nat (length g) <=? need).
    + destruct (need - Z.of_nat (length g) =? 0).
      * exists g, (concat rest). split; [reflexivity|]. cbn. now rewrite app_nil_r.
      * destruct (IH (need - Z.of_nat (length g)) (won ++ g)) as (pre & suf & E & H).
        exists (g ++ pre), suf. split; [now rewrite E, app_assoc|].
        now rewrite H, app_assoc.
    + exists g, (concat rest). split; [reflexivity|]. cbn. reflexivity.
Qed.

Lemma determine_results_fields a dkp member_treshold :
  let run :=
    award (groupby (_bid_key dkp member_treshold) (all_bids a dkp member_treshold))
      (quantity (auction_item a)) [] [] in
  winners (determine_results a dkp member_treshold) = run.1.2
  /\ tied (determine_results a dkp member_treshold) = run.2
  /\ rolled (determine_results a dkp member_treshold) = run.1.1.
Proof.
  unfold determine_results. cbv zeta.
  destruct (award _ _ _ _) as [[need won] tie]. cbn.
  repeat split. destruct (Z.eqb_spec need 0); congruence.
Qed.

(** The bids that count are a leading part of the sorted, filtered bids. *)
Lemma counted_prefix a dkp member_treshold :
  exists suf,
    all_bids a dkp member_treshold =
      (winners (determine_results a dkp member_treshold)
         ++ tied (determine_results a dkp member_treshold)) ++ suf.
Proof.
  destruct (determine_results_fields a dkp member_treshold) as (-> & -> & _).
  destruct (award_prefix
              (groupby (_bid_key dkp member_treshold) (all_bids a dkp member_treshold))
              (quantity (auction_item a)) []) as (pre & suf & E & H).
  rewrite groupby_concat in E. exists suf. now rewrite H.
Qed.

(** Among the winners and the tied no two bids have the same (bidder, id)
    pair, and none is outranked by a live bid of its pair. *)
Lemma counted_bids_are_highest (a : RunningAuction)
    (dkp : gmap string CharacterDKP) (member_treshold : Z) :
  let r := determine_results a dkp member_treshold in
  NoDup (bid_pair <$> (winners r ++ tied r))
  /\ forall b, b ∈ winners r ++ tied r ->
       b ∈ bids a
       /\ forall b', b' ∈ bids a -> bid_pair b' = bid_pair b ->
            key_ltb (_bid_key dkp member_treshold b) (_bid_key dkp member_treshold b') = false
            /\ (rank b' = rank b -> bid b' <= bid b).
Proof.
  intros r. subst r.
  destruct (counted_prefix a dkp member_treshold) as [suf E].
  set (r := determine_results a dkp member_treshold) in *.
  split.
  - pose proof (filter_seen_nodup
                  (sorted_desc (_bid_key dkp member_treshold) (bids a)) ∅) as Hnd.
    fold (_filter_bids (sorted_desc (_bid_key dkp member_treshold) (bids a))) in Hnd.
    fold (all_bids a dkp member_treshold) in Hnd.
    rewrite E, fmap_app in Hnd. now apply NoDup_app in Hnd as [Hnd _].
  - intros b Hb.
    assert (Hall : b ∈ all_bids a dkp member_treshold).
    { rewrite E. apply elem_of_app. now left. }
    unfold all_bids, _filter_bids in Hall.
    apply filter_seen_elem in Hall as (_ & l1 & l2 & Hsplit & Hl1).
    pose proof (sorted_desc_perm (_bid_key dkp member_treshold) (bids a)) as Hperm.
    pose proof (sorted_desc_sorted (_bid_key dkp member_treshold) (bids a)) as Hsorted.
    rewrite Hsplit in Hperm, Hsorted.
    split.
    { rewrite <- Hperm. apply elem_of_app. right. now left. }
    intros b' Hb' Hpair.
    assert (Hge : key_ltb (_bid_key dkp member_treshold b)
                    (_bid_key dkp member_treshold b') = false).
    { rewrite <- Hperm in Hb'.
      apply elem_of_app in Hb' as [Hb'|Hb']; [now apply Hl1 in Hb'|].
      apply elem_of_cons in Hb' as [->|Hb']; [apply key_ge_refl|].
      exact (sorted_split _ _ _ _ _ Hsorted Hb'). }
    split; [exact Hge|].
    intros Hrank. apply key_ltb_false in Hge. unfold _bid_key in Hge. cbn in Hge.
    injection Hpair as Hwho _. rewrite Hwho, Hrank in Hge.
    destruct (Z.geb_spec (bid b) member_treshold), (Z.geb_spec (bid b') member_treshold),
      (bool_decide (rank b = Raider)); cbn in Hge; lia.
Qed.

(** *** Worked auctions *)

Definition limits : AuctionLimits :=
  {| valuable := 50; member := 20; minimum := 1; maximum := 1000 |}.

Definition env : Auctioneer.Env :=
  {| Auctioneer.utcnow_at := fun n => seconds (Z.of_nat n);
     Auctioneer.draw_at := fun n => n |}.

Definition auction_with (q : Z) (bs : list Bid) : RunningAuction :=
  {| auction_item := {| item := "Sword of Omens"; quantity := q; added_by := "officer" |};
     status := Running; started_at := 0;
     last_bid := None; last_updated := None; bids := bs; results := None |}.

Definition raid_world (a : RunningAuction) : Auctioneer.World :=
  {| Auctioneer.self :=
       {| Auctioneer._pending_items := [];
          Auctioneer._channels := [("raid", Some a); ("spare", None)];
          Auctioneer._limits := limits;
          Auctioneer._dkp := balances |};
     Auctioneer.clock_reads := 0;
     Auctioneer.random_draws := 0 |}.

(** C2, as the specification words it, fails: Alice bids 50 and then 30
    under the same id, both bids are accepted, and the resolver counts the
    earlier 50, not the latest 30 (in either iteration order of the set). *)
Lemma earlier_higher_bid_is_counted :
  exists w1 w2 a,
    Auctioneer.bid "raid" "alice" 50 0 Raider env (raid_world (auction_with 1 []))
      = Some (tt,
              [mkAuctionMessage "raid" [Str "Bid Accepted!"] true;
               mkAuctionMessage "raid" [Str "alice"; Str " has bid "; Int 50] false],
              w1)
    /\ Auctioneer.bid "raid" "alice" 30 0 Raider env w1
      = Some (tt,
              [mkAuctionMessage "raid" [Str "Bid Accepted!"] true;
               mkAuctionMessage "raid" [Str "alice"; Str " has bid "; Int 30] false],
              w2)
    /\ dict_get (Auctioneer._channels (Auctioneer.self w2)) "raid" = Some (Some a)
    /\ bids a = [mkBid "alice" Raider 50 0; mkBid "alice" Raider 30 0]
    /\ determine_results a balances 20
       = {| winners := [mkBid "alice" Raider 50 0]; tied := []; rolled := 0 |}
    /\ determine_results
         (auction_with 1 [mkBid "alice" Raider 30 0; mkBid "alice" Raider 50 0])
         balances 20
       = {| winners := [mkBid "alice" Raider 50 0]; tied := []; rolled := 0 |}.
Proof.
  eexists _, _, _.
  split; [vm_compute; reflexivity|].
  split; [vm_compute; reflexivity|].
  split; [vm_compute; reflexivity|].
  repeat split.
Qed.

(** Whenever a positive quantity ends in a tie, the code reports the
    remaining need as [rolled] as well. *)
Lemma award_tie_keeps_need groups : forall need won,
  0 < need ->
  Forall (fun g => g <> []) groups ->
  (award groups need won []).2 <> [] ->
  0 < (award groups need won []).1.1.
Proof.
  induction groups as [|g rest IH]; cbn; intros need won Hneed Hne Htie.
  - exact Hneed.
  - apply Forall_cons in Hne as [Hg Hne].
    destruct (Z.leb_spec (Z.of_nat (length g)) need).
    + destruct (Z.eqb_spec (need - Z.of_nat (length g)) 0); cbn in *.
      * contradiction.
      * apply IH; [lia | exact Hne | exact Htie].
    + cbn. exact Hneed.
Qed.

Lemma tie_rolls (a : RunningAuction) (dkp : gmap string CharacterDKP) (member_treshold : Z) :
  0 < quantity (auction_item a) ->
  tied (determine_results a dkp member_treshold) <> [] ->
  0 < rolled (determine_results a dkp member_treshold).
Proof.
  destruct (determine_results_fields a dkp member_treshold) as (_ & -> & ->).
  intros Hq Ht. apply award_tie_keeps_need; [exact Hq | apply groupby_nonempty | exact Ht].
Qed.

(** C1, on the code.  Quantity 1 and two raiders who bid the same amount
    with the same balance: both are tied and nobody wins, and the code
    reports [rolled = 1].  Quantity 3 and bids of 100, 90, 80 and 80 by
    raiders of equal balance: 100 and 90 win, the two 80s are tied, and the
    code reports [rolled = 1].  In both the specification expects 0. *)
Theorem tie_reports_rolled :
  let dkp : gmap string CharacterDKP :=
    list_to_map ((fun n => (n, mkCharacterDKP n 200)) <$> ["ann"; "ben"; "cat"; "dan"]) in
  determine_results
    (auction_with 1 [mkBid "ann" Raider 60 0; mkBid "ben" Raider 60 0]) dkp 20
  = {| winners := [];
       tied := [mkBid "ann" Raider 60 0; mkBid "ben" Raider 60 0];
       rolled := 1 |}
  /\ determine_results
       (auction_with 3 [mkBid "ann" Raider 100 0; mkBid "ben" Raider 90 0;
                        mkBid "cat" Raider 80 0; mkBid "dan" Raider 80 0]) dkp 0
     = {| winners := [mkBid "ann" Raider 100 0; mkBid "ben" Raider 90 0];
          tied := [mkBid "cat" Raider 80 0; mkBid "dan" Raider 80 0];
          rolled := 1 |}.
Proof.
  split; vm_compute; reflexivity.
Qed.

(** ** The guards *)

Lemma dict_get_set {V} (d : list (string * V)) (k k' : string) (v : V) :
  dict_get (dict_set d k v) k' = if decide (k' = k) then Some v else dict_get d k'.
Proof.
  induction d as [|[k0 v0] d IH]; cbn.
  - destruct (decide (k' = k)); reflexivity.
  - destruct (decide (k = k0)) as [->|Hk]; cbn.
    + destruct (decide (k' = k0)); reflexivity.
    + destruct (decide (k' = k0)) as [->|Hk'].
      * destruct (decide (k0 = k)); [congruence|reflexivity].
      * exact IH.
Qed.

Lemma dict_set_keys {V} (d : list (string * V)) (k : string) (v : V) :
  is_Some (dict_get d k) -> (dict_set d k v).*1 = d.*1.
Proof.
  induction d as [|[k0 v0] d IH]; cbn; intros [x Hx]; [discriminate|].
  destruct (decide (k = k0)); cbn; [reflexivity|].
  f_equal. apply IH. eauto.
Qed.

Lemma dict_get_elem {V} (d : list (string * V)) (k : string) (v : V) :
  dict_get d k = Some v -> (k, v) ∈ d.
Proof.
  induction d as [|[k0 v0] d IH]; cbn; [discriminate|].
  destruct (decide (k = k0)) as [->|Hk].
  - intros [= ->]. left.
  - intros H. right. now apply IH.
Qed.

Lemma dict_get_nodup {V} (d : list (string * V)) (k : string) (v : V) :
  NoDup d.*1 -> (k, v) ∈ d -> dict_get d k = Some v.
Proof.
  induction d as [|[k0 v0] d IH]; cbn; intros Hnd Hin.
  - now apply elem_of_nil in Hin.
  - apply NoDup_cons in Hnd as [Hk0 Hnd].
    apply elem_of_cons in Hin as [[= -> ->]|Hin].
    + destruct (decide (k0 = k0)); [reflexivity|contradiction].
    + destruct (decide (k = k0)) as [->|Hk]; [|now apply IH].
      exfalso. apply Hk0. apply list_elem_of_fmap. exists (k0, v). split; [reflexivity|exact Hin].
Qed.

Definition hidden_note (c : string) (text : string) : AuctionMessage :=
  {| channel := c; message := [Str text]; hidden := true |}.

Section Guards.
Variables (e : Auctioneer.Env) (w : Auctioneer.World).
Variables (fn : string -> Auctioneer.Gen unit) (c : string).

Let channels := Auctioneer._channels (Auctioneer.self w).

Lemma gen_eta (r : option (unit * list AuctionMessage * Auctioneer.World)) :
  match r with
  | Some (y, out, w') => Some (y, out, w')
  | None => None
  end = r.
Proof. destruct r as [[[y out] w']|]; reflexivity. Qed.

Lemma check_auction_channels_unknown :
  dict_get channels c = None ->
  Auctioneer.check_auction_channels fn c e w
  = Some (tt, [hidden_note c "This isn't an auction channel. Try Again."], w).
Proof.
  subst channels. intros H.
  unfold Auctioneer.check_auction_channels, Auctioneer.bind, Auctioneer.get_self.
  rewrite H. reflexivity.
Qed.

Lemma check_auction_channels_empty :
  dict_get channels c = Some None ->
  Auctioneer.check_auction_channels fn c e w
  = Some (tt, [hidden_note c "There isn't an active auction in this channel."], w).
Proof.
  subst channels. intros H.
  unfold Auctioneer.check_auction_channels, Auctioneer.bind, Auctioneer.get_self.
  rewrite H. reflexivity.
Qed.

Lemma check_auction_channels_pass a :
  dict_get channels c = Some (Some a) ->
  Auctioneer.check_auction_channels fn c e w = fn c e w.
Proof.
  subst channels. intros H.
  unfold Auctioneer.check_auction_channels, Auctioneer.bind, Auctioneer.get_self.
  rewrite H. cbn. apply gen_eta.
Qed.

Lemma the_auction_eq a :
  dict_get channels c = Some (Some a) ->
  Auctioneer.the_auction c e w = Some (a, [], w).
Proof.
  subst channels. intros H.
  unfold Auctioneer.the_auction, Auctioneer.bind, Auctioneer.get_self.
  rewrite H. reflexivity.
Qed.

Lemma check_auction_status_forbidden statuses a text :
  dict_get channels c = Some (Some a) ->
  Auctioneer.first_forbidden statuses (status a) = Some text ->
  Auctioneer.check_auction_status statuses fn c e w
  = Some (tt, [hidden_note c text], w).
Proof.
  intros H Hf. unfold Auctioneer.check_auction_status, Auctioneer.bind.
  rewrite (the_auction_eq a H), Hf. reflexivity.
Qed.

Lemma check_auction_status_pass statuses a :
  dict_get channels c = Some (Some a) ->
  Auctioneer.first_forbidden statuses (status a) = None ->
  Auctioneer.check_auction_status statuses fn c e w = fn c e w.
Proof.
  intros H Hf. unfold Auctioneer.check_auction_status, Auctioneer.bind.
  rewrite (the_auction_eq a H), Hf. cbn. apply gen_eta.
Qed.
End Guards.

(** The channel an operation is called on, for the guarded ones. *)
Definition op_channel (op : Auctioneer.Op) : option string :=
  match op with
  | Auctioneer.OpBid c _ _ _ _ | Auctioneer.OpStop c | Auctioneer.OpAccept c _
  | Auctioneer.OpReopen c | Auctioneer.OpRestart c | Auctioneer.OpDelete c => Some c
  | _ => None
  end.

(** The statuses in which an operation is refused. *)
Definition op_forbidden (op : Auctioneer.Op) : list Status :=
  match op with
  | Auctioneer.OpBid _ _ _ _ _ | Auctioneer.OpStop _ => [Finished; Stopped]
  | Auctioneer.OpAccept _ _ => [Running; Stopped]
  | Auctioneer.OpReopen _ => [Running]
  | _ => []
  end.

Lemma call_rejected (e : Auctioneer.Env)
    (w : Auctioneer.World) (op : Auctioneer.Op) (c : string) :
  op_channel op = Some c ->
  (dict_get (Auctioneer._channels (Auctioneer.self w)) c = None
   \/ dict_get (Auctioneer._channels (Auctioneer.self w)) c = Some None
   \/ exists a, dict_get (Auctioneer._channels (Auctioneer.self w)) c = Some (Some a)
                /\ status a ∈ op_forbidden op) ->
  exists m, Auctioneer.call op e w = Some (tt, [m], w)
            /\ hidden m = true /\ channel m = c.
Proof.
  intros Hc Hrej.
  destruct op; try discriminate; injection Hc as ->; cbn [Auctioneer.call];
    unfold Auctioneer.bid, Auctioneer.stop, Auctioneer.accept, Auctioneer.reopen,
      Auctioneer.restart, Auctioneer.delete;
    (destruct Hrej as [H|[H|(a & H & Hst)]];
     [ rewrite (check_auction_channels_unknown _ _ _ _ H); eexists; repeat split
     | rewrite (check_auction_channels_empty _ _ _ _ H); eexists; repeat split
     | rewrite (check_auction_channels_pass _ _ _ _ a H) ]).
  all: cbn in Hst; repeat (apply elem_of_cons in Hst as [Hst|Hst]);
    try (now apply elem_of_nil in Hst).
  all: erewrite check_auction_status_forbidden by (try exact H; rewrite Hst; reflexivity).
  all: eexists; repeat split.
Qed.

(** C10. A guarded operation called on an unknown channel, on a channel
    without an auction, or on an auction whose status the operation forbids,
    yields exactly one message, which is hidden, and leaves the whole state
    as it was: channel dict, bids, timestamps, statuses, cached results,
    pending items, and the counts of clock readings and random draws.  In
    particular [bid] on a stopped auction yields its one hidden notice and
    the auction keeps its bids. *)
Theorem rejection_is_hidden_and_changes_nothing (e : Auctioneer.Env)
    (w : Auctioneer.World) (op : Auctioneer.Op) (c : string) :
  op_channel op = Some c ->
  (dict_get (Auctioneer._channels (Auctioneer.self w)) c = None
   \/ dict_get (Auctioneer._channels (Auctioneer.self w)) c = Some None
   \/ exists a, dict_get (Auctioneer._channels (Auctioneer.self w)) c = Some (Some a)
                /\ status a ∈ op_forbidden op) ->
  (exists m, Auctioneer.call op e w = Some (tt, [m], w)
             /\ hidden m = true /\ channel m = c)
  /\ (forall a who bid_amount bid_id rk,
        op = Auctioneer.OpBid c who bid_amount bid_id rk ->
        dict_get (Auctioneer._channels (Auctioneer.self w)) c = Some (Some a) ->
        status a = Stopped ->
        Auctioneer.bid c who bid_amount bid_id rk e w
        = Some (tt,
                [hidden_note c "This auction has been stopped and is not accepting bids at the moment."],
                w)).
Proof.
  intros Hop Hrej. split; [exact (call_rejected e w op c Hop Hrej)|].
  intros a who bid_amount bid_id rk _ Hslot Hst.
  unfold Auctioneer.bid.
  rewrite (check_auction_channels_pass _ _ _ _ a Hslot).
  apply (check_auction_status_forbidden _ _ _ _ _ a _ Hslot).
  rewrite Hst. reflexivity.
Qed.


Lemma rejection_is_hidden_and_changes_nothing_witness :
  (exists m,
     Auctioneer.call (Auctioneer.OpBid "raid" "alice" 50 0 Raider) env
       (raid_world stopped_auction)
     = Some (tt, [m], raid_world stopped_auction)
     /\ hidden m = true /\ channel m = "raid")
  /\ Auctioneer.bid "raid" "alice" 50 0 Raider env (raid_world stopped_auction)
     = Some (tt,
             [hidden_note "raid" "This auction has been stopped and is not accepting bids at the moment."],
             raid_world stopped_auction).
Proof.
  destruct (rejection_is_hidden_and_changes_nothing env (raid_world stopped_auction)
              (Auctioneer.OpBid "raid" "alice" 50 0 Raider) "raid") as [H1 H2].
  - reflexivity.
  - right. right. exists stopped_auction. split; [reflexivity|].
    cbn. right. left.
  - split; [exact H1|]. apply (H2 stopped_auction); reflexivity.
Defined.

(** ** What the operations do to a channel *)

(** The world after the slot of channel [c] has been assigned and the clock
    has been read [reads] times in all. *)
Definition with_slot (w : Auctioneer.World) (c : string)
    (slot : option RunningAuction) (reads : nat) : Auctioneer.World :=
  {| Auctioneer.self :=
       {| Auctioneer._pending_items := Auctioneer._pending_items (Auctioneer.self w);
          Auctioneer._channels :=
            dict_set (Auctioneer._channels (Auctioneer.self w)) c slot;
          Auctioneer._limits := Auctioneer._limits (Auctioneer.self w);
          Auctioneer._dkp := Auctioneer._dkp (Auctioneer.self w) |};
     Auctioneer.clock_reads := reads;
     Auctioneer.random_draws := Auctioneer.random_draws w |}.

Definition stopped (a : RunningAuction) : RunningAuction :=
  {| auction_item := auction_item a; status := Stopped;
     started_at := started_at a; last_bid := last_bid a;
     last_updated := last_updated a; bids := bids a; results := results a |}.

Definition reopened (a : RunningAuction) (now : datetime) : RunningAuction :=
  {| auction_item := auction_item a; status := Running;
     started_at := now; last_bid := None; last_updated := None;
     bids := bids a; results := None |}.

Definition started (i : AuctionItem) (now : datetime) : RunningAuction :=
  {| auction_item := i; status := Running; started_at := now;
     last_bid := None; last_updated := None; bids := []; results := None |}.

Definition with_bid (a : RunningAuction) (b : Bid) (now : datetime) : RunningAuction :=
  {| auction_item := auction_item a; status := status a;
     started_at := started_at a; last_bid := Some now;
     last_updated := last_updated a; bids := Auctioneer.set_add b (bids a);
     results := results a |}.

Definition closed (a : RunningAuction) (r : AuctionResults) : RunningAuction :=
  {| auction_item := auction_item a; status := Finished;
     started_at := started_at a; last_bid := last_bid a;
     last_updated := last_updated a; bids := bids a; results := Some r |}.

Definition updated (a : RunningAuction) (now : datetime) : RunningAuction :=
  {| auction_item := auction_item a; status := status a;
     started_at := started_at a; last_bid := last_bid a;
     last_updated := Some now; bids := bids a; results := results a |}.

Section ChannelOperations.
Variables (e : Auctioneer.Env) (w : Auctioneer.World) (c : string).
Variable a : RunningAuction.
Hypothesis Hslot :
  dict_get (Auctioneer._channels (Auctioneer.self w)) c = Some (Some a).

Let now := Auctioneer.utcnow_at e (Auctioneer.clock_reads w).
Let soon := Auctioneer.utcnow_at e (S (Auctioneer.clock_reads w)).
Let dkp := Auctioneer._dkp (Auctioneer.self w).
Let lim := Auctioneer._limits (Auctioneer.self w).

Lemma stop_running :
  status a = Running ->
  Auctioneer.stop c e w
  = Some (tt,
          [hidden_note c "Auction has been stopped";
           {| channel := c;
              message := [Str "Auction for "] ++ description (auction_item a)
                           ++ [Str " has been stopped."];
              hidden := false |}],
          with_slot w c (Some (stopped a)) (Auctioneer.clock_reads w)).
Proof.
  intros Hst. unfold Auctioneer.stop.
  rewrite (check_auction_channels_pass _ _ _ _ a Hslot).
  rewrite (check_auction_status_pass _ _ _ _ _ a Hslot) by (rewrite Hst; reflexivity).
  unfold Auctioneer.stop_body, Auctioneer.bind.
  rewrite (the_auction_eq _ _ _ a Hslot). reflexivity.
Qed.

Lemma accept_finished force :
  status a = Finished ->
  Auctioneer.accept c force e w
  = Some (tt,
          (if negb force
              && negb (bool_decide
                         (results a = Some (determine_results a dkp (member lim))))
           then [hidden_note c "This auction has not been accepted because the results have changed since it closed."]
           else [hidden_note c "Auction Accepted";
                 {| channel := c;
                    message := [Str "Auction Accepted: ";
                                Res (determine_results a dkp (member lim))];
                    hidden := false |}]),
          w).
Proof.
  intros Hst. unfold Auctioneer.accept.
  rewrite (check_auction_channels_pass _ _ _ _ a Hslot).
  rewrite (check_auction_status_pass _ _ _ _ _ a Hslot) by (rewrite Hst; reflexivity).
  unfold Auctioneer.accept_body, Auctioneer.bind, Auctioneer.get_self.
  rewrite (the_auction_eq _ _ _ a Hslot). cbn. subst dkp lim.
  destruct (negb force && _); reflexivity.
Qed.

Lemma reopen_not_running :
  status a <> Running ->
  Auctioneer.reopen c e w
  = Some (tt,
          [hidden_note c "Reopening Bidding";
           {| channel := c;
              message := [Str "Reopening Bids for "] ++ description (auction_item a)
                           ++ [Str ", ending in "; Delta (time_left (reopened a now) soon)];
              hidden := false |}],
          with_slot w c (Some (reopened a now)) (S (S (Auctioneer.clock_reads w)))).
Proof.
  intros Hst. unfold Auctioneer.reopen.
  rewrite (check_auction_channels_pass _ _ _ _ a Hslot).
  rewrite (check_auction_status_pass _ _ _ _ _ a Hslot)
    by (destruct (status a); [contradiction|reflexivity|reflexivity]).
  unfold Auctioneer.reopen_body, Auctioneer.bind.
  rewrite (the_auction_eq _ _ _ a Hslot). reflexivity.
Qed.

Lemma restart_any :
  Auctioneer.restart c e w
  = Some (tt,
          [hidden_note c "Restarted Auction";
           {| channel := c;
              message := [Str "Restarting Bids for "] ++ description (auction_item a)
                           ++ [Str ", ending in ";
                               Delta (time_left (started (auction_item a) now) soon)];
              hidden := false |}],
          with_slot w c (Some (started (auction_item a) now))
            (S (S (Auctioneer.clock_reads w)))).
Proof.
  unfold Auctioneer.restart.
  rewrite (check_auction_channels_pass _ _ _ _ a Hslot).
  unfold Auctioneer.restart_body, Auctioneer.bind.
  rewrite (the_auction_eq _ _ _ a Hslot). reflexivity.
Qed.

Lemma delete_any :
  Auctioneer.delete c e w
  = Some (tt,
          [hidden_note c "Auction Deleted";
           {| channel := c;
              message := [Str "Auction for "] ++ description (auction_item a)
                           ++ [Str " has been deleted."];
              hidden := false |}],
          with_slot w c None (Auctioneer.clock_reads w)).
Proof.
  unfold Auctioneer.delete.
  rewrite (check_auction_channels_pass _ _ _ _ a Hslot).
  unfold Auctioneer.delete_body, Auctioneer.bind.
  rewrite (the_auction_eq _ _ _ a Hslot). reflexivity.
Qed.

Lemma bid_running who bid_amount bid_id rk :
  status a = Running ->
  Auctioneer.bid c who bid_amount bid_id rk e w
  = match validate_bid who bid_amount (bids a) dkp
            (valuable lim) (minimum lim) (maximum lim) with
    | (true, _) =>
        Some (tt,
              [hidden_note c "Bid Accepted!";
               {| channel := c; message := [Str who; Str " has bid "; Int bid_amount];
                  hidden := false |}],
              with_slot w c (Some (with_bid a (mkBid who rk bid_amount bid_id) now))
                (S (Auctioneer.clock_reads w)))
    | (false, error) =>
        Some (tt, [{| channel := c; message := error; hidden := true |}], w)
    end.
Proof.
  intros Hst. unfold Auctioneer.bid.
  rewrite (check_auction_channels_pass _ _ _ _ a Hslot).
  rewrite (check_auction_status_pass _ _ _ _ _ a Hslot) by (rewrite Hst; reflexivity).
  unfold Auctioneer.bid_body, Auctioneer.bind, Auctioneer.get_self.
  rewrite (the_auction_eq _ _ _ a Hslot). cbn. subst dkp lim.
  destruct (validate_bid _ _ _ _ _ _ _) as [[|] error]; reflexivity.
Qed.
End ChannelOperations.

(** ** Accepting *)

Definition refusal (c : string) : AuctionMessage :=
  hidden_note c "This auction has not been accepted because the results have changed since it closed.".

Definition acceptance (c : string) (r : AuctionResults) : list AuctionMessage :=
  [hidden_note c "Auction Accepted";
   {| channel := c; message := [Str "Auction Accepted: "; Res r]; hidden := false |}].

(** C6. On a finished auction [accept] refuses, with one hidden notice,
    exactly when it is not forced and the results computed afresh differ
    from the cached ones; otherwise it emits the acceptance messages.  In
    both cases the world it leaves is the world it found, so it can be
    called again and again. *)
Theorem accept_refuses_only_changed_results (e : Auctioneer.Env)
    (w : Auctioneer.World) (c : string) (a : RunningAuction) (force : bool) :
  dict_get (Auctioneer._channels (Auctioneer.self w)) c = Some (Some a) ->
  status a = Finished ->
  let r := determine_results a (Auctioneer._dkp (Auctioneer.self w))
             (member (Auctioneer._limits (Auctioneer.self w))) in
  (force = false /\ results a <> Some r ->
   Auctioneer.accept c force e w = Some (tt, [refusal c], w))
  /\ (force = true \/ results a = Some r ->
      Auctioneer.accept c force e w = Some (tt, acceptance c r, w))
  /\ (exists out, Auctioneer.accept c force e w = Some (tt, out, w)
                  /\ (out = [refusal c] <-> force = false /\ results a <> Some r)).
Proof.
  intros Hslot Hst r. subst r.
  rewrite (accept_finished e w c a Hslot force Hst).
  destruct force; cbn [negb andb].
  - split; [intros [? _]; discriminate|]. split; [reflexivity|].
    eexists. split; [reflexivity|].
    split; [discriminate|intros [? _]; discriminate].
  - destruct (bool_decide_reflect
                (results a = Some (determine_results a (Auctioneer._dkp (Auctioneer.self w))
                                     (member (Auctioneer._limits (Auctioneer.self w))))))
      as [Heq|Hne]; cbn [negb].
    + split; [intros [_ ?]; contradiction|]. split; [reflexivity|].
      eexists. split; [reflexivity|].
      split; [discriminate|intros [_ ?]; contradiction].
    + split; [reflexivity|]. split; [intros [?|?]; [discriminate|contradiction]|].
      eexists. split; [reflexivity|].
      split; [intros _; split; [reflexivity|exact Hne]|reflexivity].
Qed.

(** ** The tick *)

Definition after_reads (w : Auctioneer.World) (n : nat) : Auctioneer.World :=
  {| Auctioneer.self := Auctioneer.self w;
     Auctioneer.clock_reads := n + Auctioneer.clock_reads w;
     Auctioneer.random_draws := Auctioneer.random_draws w |}.

Definition closing_note (c : string) (r : AuctionResults) : AuctionMessage :=
  {| channel := c; message := Auctioneer.msg_closed r; hidden := false |}.

Definition update_note (c : string) (a : RunningAuction) (left : timedelta)
    (r : AuctionResults) : AuctionMessage :=
  {| channel := c; message := Auctioneer.msg_update (auction_item a) left r;
     hidden := false |}.

Lemma determine_results_bids a a' dkp member_treshold :
  auction_item a = auction_item a' -> bids a = bids a' ->
  determine_results a dkp member_treshold = determine_results a' dkp member_treshold.
Proof.
  intros Hi Hb. unfold determine_results, all_bids. now rewrite Hi, Hb.
Qed.

(** What the loop body of [run] does to one slot when the clock has been
    read [k] times: the slot it leaves, the messages, the readings made. *)
Inductive run_outcome (e : Auctioneer.Env) (s : Auctioneer.t) (k : nat) (c : string)
  : option RunningAuction -> option RunningAuction -> list AuctionMessage -> nat -> Prop :=
| ro_none : run_outcome e s k c None None [] 0
| ro_close a :
    status a = Running ->
    time_left a (Auctioneer.utcnow_at e k) = 0 ->
    let r := determine_results a (Auctioneer._dkp s) (member (Auctioneer._limits s)) in
    run_outcome e s k c (Some a) (Some (closed a r)) [closing_note c r] 1
| ro_idle a :
    status a <> Running ->
    run_outcome e s k c (Some a) (Some a) [] 1
| ro_update a :
    status a = Running ->
    time_left a (Auctioneer.utcnow_at e k) <> 0 ->
    needs_update a (Auctioneer.utcnow_at e (S k)) = true ->
    let a' := updated a (Auctioneer.utcnow_at e (S (S k))) in
    let r := determine_results a' (Auctioneer._dkp s) (member (Auctioneer._limits s)) in
    run_outcome e s k c (Some a) (Some a')
      [update_note c a' (time_left a' (Auctioneer.utcnow_at e (S (S (S k))))) r] 4
| ro_wait a :
    status a = Running ->
    time_left a (Auctioneer.utcnow_at e k) <> 0 ->
    needs_update a (Auctioneer.utcnow_at e (S k)) = false ->
    run_outcome e s k c (Some a) (Some a) [] 2.

Lemma run_channel_eq e w c a :
  let k := Auctioneer.clock_reads w in
  let dkp := Auctioneer._dkp (Auctioneer.self w) in
  let threshold := member (Auctioneer._limits (Auctioneer.self w)) in
  Auctioneer.run_channel c (Some a) e w =
    if (time_left a (Auctioneer.utcnow_at e k) =? 0) && bool_decide (status a = Running)
    then
      let r := determine_results a dkp threshold in
      Some (Some (closed a r), [closing_note c r], after_reads w 1)
    else if negb (bool_decide (status a = Running))
    then Some (Some a, [], after_reads w 1)
    else if needs_update a (Auctioneer.utcnow_at e (S k))
    then
      let a' := updated a (Auctioneer.utcnow_at e (S (S k))) in
      let r := determine_results a' dkp threshold in
      Some (Some a',
            [update_note c a' (time_left a' (Auctioneer.utcnow_at e (S (S (S k))))) r],
            after_reads w 4)
    else Some (Some a, [], after_reads w 2).
Proof.
  cbv zeta.
  unfold Auctioneer.run_channel, Auctioneer.bind, Auctioneer.get_self,
    Auctioneer.read_time_left, Auctioneer.utcnow, Auctioneer.ret,
    Auctioneer.read_needs_update, Auctioneer.yield.
  cbn.
  destruct (time_left a (Auctioneer.utcnow_at e (Auctioneer.clock_reads w)) =? 0);
    destruct (decide (status a = Running)) as [Hs|Hs];
    repeat first [ rewrite (bool_decide_eq_true_2 _ Hs)
                 | rewrite (bool_decide_eq_false_2 _ Hs)
                 | progress cbn ];
    try reflexivity.
  all: unfold Auctioneer.bind, Auctioneer.utcnow, Auctioneer.ret; cbn.
  all: destruct (needs_update a _); reflexivity.
Qed.

Lemma after_reads_0 w : after_reads w 0 = w.
Proof. destruct w; reflexivity. Qed.

Lemma after_reads_add w n m : after_reads (after_reads w n) m = after_reads w (m + n).
Proof. unfold after_reads; cbn. f_equal. lia. Qed.

Lemma run_channel_outcome e w c slot :
  exists slot' out n,
    Auctioneer.run_channel c slot e w = Some (slot', out, after_reads w n)
    /\ run_outcome e (Auctioneer.self w) (Auctioneer.clock_reads w) c slot slot' out n.
Proof.
  destruct slot as [a|].
  2:{ exists None, [], 0%nat. rewrite after_reads_0. split; [reflexivity|constructor]. }
  rewrite run_channel_eq. cbv zeta.
  destruct (Z.eqb_spec (time_left a (Auctioneer.utcnow_at e (Auctioneer.clock_reads w))) 0)
    as [Hz|Hz];
    destruct (decide (status a = Running)) as [Hs|Hs];
    repeat first [ rewrite (bool_decide_eq_true_2 _ Hs)
                 | rewrite (bool_decide_eq_false_2 _ Hs) ];
    cbn [andb negb].
  - eexists _, _, _. split; [reflexivity|]. now apply ro_close.
  - eexists _, _, _. split; [reflexivity|]. now apply ro_idle.
  - destruct (needs_update a _) eqn:Hn; eexists _, _, _; (split; [reflexivity|]).
    + now apply ro_update.
    + now apply ro_wait.
  - eexists _, _, _. split; [reflexivity|]. now apply ro_idle.
Qed.

Lemma run_outcome_channel e s k c slot slot' out n :
  run_outcome e s k c slot slot' out n -> Forall (fun m => channel m = c) out.
Proof. destruct 1; repeat constructor. Qed.

(** What the loop of [run] does to the entries of the channel dict. *)
Inductive items_outcome (e : Auctioneer.Env) (s : Auctioneer.t)
  : nat -> list (string * option RunningAuction) ->
    list (string * option RunningAuction) -> list AuctionMessage -> nat -> Prop :=
| io_nil k : items_outcome e s k [] [] [] 0
| io_cons k c slot slot' out1 n1 rest rest' out2 n2 :
    run_outcome e s k c slot slot' out1 n1 ->
    items_outcome e s (n1 + k) rest rest' out2 n2 ->
    items_outcome e s k ((c, slot) :: rest) ((c, slot') :: rest') (out1 ++ out2) (n2 + n1).

Lemma run_items_outcome e entries : forall w,
  exists entries' out n,
    Auctioneer.run_items entries e w = Some (entries', out, after_reads w n)
    /\ items_outcome e (Auctioneer.self w) (Auctioneer.clock_reads w)
         entries entries' out n.
Proof.
  induction entries as [|[c slot] rest IH]; intros w; cbn.
  - exists [], [], 0%nat. rewrite after_reads_0. split; [reflexivity|constructor].
  - destruct (run_channel_outcome e w c slot) as (slot' & out1 & n1 & E1 & H1).
    destruct (IH (after_reads w n1)) as (rest' & out2 & n2 & E2 & H2).
    exists ((c, slot') :: rest'), (out1 ++ out2), (n2 + n1)%nat.
    unfold Auctioneer.bind. rewrite E1, E2. cbn.
    rewrite after_reads_add, app_nil_r. split; [reflexivity|].
    econstructor; [exact H1|exact H2].
Qed.

Definition with_channels (w : Auctioneer.World)
    (channels : list (string * option RunningAuction)) (n : nat) : Auctioneer.World :=
  {| Auctioneer.self :=
       {| Auctioneer._pending_items := Auctioneer._pending_items (Auctioneer.self w);
          Auctioneer._channels := channels;
          Auctioneer._limits := Auctioneer._limits (Auctioneer.self w);
          Auctioneer._dkp := Auctioneer._dkp (Auctioneer.self w) |};
     Auctioneer.clock_reads := n + Auctioneer.clock_reads w;
     Auctioneer.random_draws := Auctioneer.random_draws w |}.

(** [run] never raises, and what it does is what its loop does. *)
Lemma run_outcome_all e w :
  exists entries' out n,
    Auctioneer.run e w = Some (tt, out, with_channels w entries' n)
    /\ items_outcome e (Auctioneer.self w) (Auctioneer.clock_reads w)
         (Auctioneer._channels (Auctioneer.self w)) entries' out n.
Proof.
  destruct (run_items_outcome e (Auctioneer._channels (Auctioneer.self w)) w)
    as (entries' & out & n & E & H).
  exists entries', out, n. split; [|exact H].
  unfold Auctioneer.run, Auctioneer.bind, Auctioneer.get_self. rewrite E. cbn.
  now rewrite app_nil_r.
Qed.

Lemma filter_all {A} (P : A -> Prop) `{forall x, Decision (P x)} (l : list A) :
  Forall P l -> filter P l = l.
Proof.
  induction 1 as [|x l Hx _ IH]; [reflexivity|].
  rewrite filter_cons_True by exact Hx. now rewrite IH.
Qed.

Lemma filter_none {A} (P : A -> Prop) `{forall x, Decision (P x)} (l : list A) :
  Forall (fun x => ~ P x) l -> filter P l = [].
Proof.
  induction 1 as [|x l Hx _ IH]; [reflexivity|].
  rewrite filter_cons_False by exact Hx. exact IH.
Qed.

Lemma items_outcome_keys e s k entries entries' out n :
  items_outcome e s k entries entries' out n -> entries'.*1 = entries.*1.
Proof. induction 1; cbn; congruence. Qed.

Lemma items_outcome_channels e s k entries entries' out n :
  items_outcome e s k entries entries' out n ->
  Forall (fun m => channel m ∈ entries.*1) out.
Proof.
  induction 1 as [|k c slot slot' out1 n1 rest rest' out2 n2 H1 _ IH]; [constructor|].
  apply Forall_app. split.
  - apply run_outcome_channel in H1. eapply Forall_impl; [exact H1|].
    cbn. intros m ->. left.
  - eapply Forall_impl; [exact IH|]. cbn. intros m Hm. now right.
Qed.

(** The slot of channel [c] after the loop is what the loop body made of
    its slot before, at some later reading of the clock; as the keys of a
    dict are distinct, the messages for [c] are those of that body. *)
Lemma items_outcome_lookup e s k entries entries' out n c :
  items_outcome e s k entries entries' out n ->
  match dict_get entries c with
  | None => dict_get entries' c = None
  | Some slot =>
      exists k' slot' out1 n1,
        (k <= k')%nat
        /\ run_outcome e s k' c slot slot' out1 n1
        /\ dict_get entries' c = Some slot'
        /\ (NoDup entries.*1 -> filter (fun m => channel m = c) out = out1)
  end.
Proof.
  induction 1 as [|k c0 slot slot' out1 n1 rest rest' out2 n2 H1 H2 IH]; cbn;
    [reflexivity|].
  destruct (decide (c = c0)) as [->|Hc].
  - exists k, slot', out1, n1. split; [lia|]. split; [exact H1|]. split; [reflexivity|].
    intros Hnd. apply NoDup_cons in Hnd as [Hc0 _].
    rewrite filter_app, (filter_all _ out1) by exact (run_outcome_channel _ _ _ _ _ _ _ _ H1).
    rewrite filter_none; [apply app_nil_r|].
    eapply Forall_impl; [exact (items_outcome_channels _ _ _ _ _ _ _ H2)|].
    cbn. intros m Hm E. rewrite E in Hm. contradiction.
  - destruct (dict_get rest c) as [slot0|]; [|exact IH].
    destruct IH as (k' & slot0' & out0 & n0 & Hk & Hr & Hg & Hf).
    exists k', slot0', out0, n0. split; [lia|]. split; [exact Hr|]. split; [exact Hg|].
    intros Hnd. apply NoDup_cons in Hnd as [_ Hnd].
    rewrite filter_app, filter_none; [now apply Hf|].
    eapply Forall_impl; [exact (run_outcome_channel _ _ _ _ _ _ _ _ H1)|].
    cbn. intros m -> E. congruence.
Qed.

(** C5. A running auction whose time left is 0 when the tick begins is
    closed by that tick: its status becomes [Finished], its cached results
    are the resolver's output, and the tick emits for its channel exactly
    one message, the public closing message, hence no update.  The next
    tick emits nothing for that channel.  (The clock does not run backwards;
    the channel dict has distinct keys.) *)
Theorem tick_closes_expired_auction_once (e : Auctioneer.Env) (w : Auctioneer.World)
    (c : string) (a : RunningAuction) :
  (forall i j, (i <= j)%nat -> Auctioneer.utcnow_at e i <= Auctioneer.utcnow_at e j) ->
  NoDup (Auctioneer._channels (Auctioneer.self w)).*1 ->
  dict_get (Auctioneer._channels (Auctioneer.self w)) c = Some (Some a) ->
  status a = Running ->
  time_left a (Auctioneer.utcnow_at e (Auctioneer.clock_reads w)) = 0 ->
  let r := determine_results a (Auctioneer._dkp (Auctioneer.self w))
             (member (Auctioneer._limits (Auctioneer.self w))) in
  exists out1 w1 out2 w2 a1,
    Auctioneer.run e w = Some (tt, out1, w1)
    /\ dict_get (Auctioneer._channels (Auctioneer.self w1)) c = Some (Some a1)
    /\ status a1 = Finished
    /\ results a1 = Some r
    /\ filter (fun m => channel m = c) out1 = [closing_note c r]
    /\ Auctioneer.run e w1 = Some (tt, out2, w2)
    /\ filter (fun m => channel m = c) out2 = []
    /\ dict_get (Auctioneer._channels (Auctioneer.self w2)) c = Some (Some a1).
Proof.
  intros Hclock Hnd Hslot Hst Hleft r.
  destruct (run_outcome_all e w) as (entries1 & out1 & n1 & E1 & H1).
  pose proof (items_outcome_keys _ _ _ _ _ _ _ H1) as Hkeys1.
  pose proof (items_outcome_lookup _ _ _ _ _ _ _ c H1) as L1.
  rewrite Hslot in L1. destruct L1 as (k' & slot' & o1 & m1 & Hk & Hr & Hget1 & Hf1).
  assert (Hzero : time_left a (Auctioneer.utcnow_at e k') = 0).
  { pose proof (time_left_antitone a _ _ (Hclock _ _ Hk)) as Hle.
    pose proof (time_left_nonneg a (Auctioneer.utcnow_at e k')). lia. }
  assert (Hclosed : slot' = Some (closed a r) /\ o1 = [closing_note c r]).
  { inversion Hr; subst; try contradiction; try congruence. split; reflexivity. }
  destruct Hclosed as [-> ->].
  set (w1 := with_channels w entries1 n1) in *.
  destruct (run_outcome_all e w1) as (entries2 & out2 & n2 & E2 & H2).
  pose proof (items_outcome_lookup _ _ _ _ _ _ _ c H2) as L2.
  cbn in L2. rewrite Hget1 in L2.
  destruct L2 as (k2 & slot2 & o2 & m2 & _ & Hr2 & Hget2 & Hf2).
  assert (Hidle : slot2 = Some (closed a r) /\ o2 = []).
  { inversion Hr2; subst; cbn in *; try discriminate. split; reflexivity. }
  destruct Hidle as [-> ->].
  exists out1, w1, out2, (with_channels w1 entries2 n2), (closed a r).
  split; [exact E1|]. split; [exact Hget1|]. split; [reflexivity|].
  split; [reflexivity|]. split; [now apply Hf1|]. split; [exact E2|].
  split; [|exact Hget2].
  apply Hf2. cbn. now rewrite Hkeys1.
Qed.

Definition expired_auction : RunningAuction :=
  {| auction_item := sample_item; status := Running; started_at := 0;
     last_bid := Some (seconds 40); last_updated := Some (seconds 80);
     bids := [mkBid "alice" Raider 50 0]; results := None |}.

Definition expired_world : Auctioneer.World :=
  {| Auctioneer.self :=
       {| Auctioneer._pending_items := [];
          Auctioneer._channels := [("spare", None); ("raid", Some expired_auction)];
          Auctioneer._limits := limits;
          Auctioneer._dkp := balances |};
     Auctioneer.clock_reads := 100;
     Auctioneer.random_draws := 0 |}.

Lemma env_clock_monotone i j :
  (i <= j)%nat -> Auctioneer.utcnow_at env i <= Auctioneer.utcnow_at env j.
Proof. intros H. cbn. unfold seconds. lia. Qed.

Lemma tick_closes_expired_auction_once_witness :
  let r := determine_results expired_auction balances 20 in
  exists out1 w1 out2 w2 a1,
    Auctioneer.run env expired_world = Some (tt, out1, w1)
    /\ dict_get (Auctioneer._channels (Auctioneer.self w1)) "raid" = Some (Some a1)
    /\ status a1 = Finished
    /\ results a1 = Some r
    /\ filter (fun m => channel m = "raid") out1 = [closing_note "raid" r]
    /\ Auctioneer.run env w1 = Some (tt, out2, w2)
    /\ filter (fun m => channel m = "raid") out2 = []
    /\ dict_get (Auctioneer._channels (Auctioneer.self w2)) "raid" = Some (Some a1).
Proof.
  apply (tick_closes_expired_auction_once env expired_world "raid" expired_auction).
  - exact env_clock_monotone.
  - apply (bool_decide_unpack (NoDup ["spare"; "raid"])). vm_compute. exact I.
  - reflexivity.
  - reflexivity.
  - vm_compute. reflexivity.
Defined.

(** ** Starting pending auctions *)

Definition empty_channels (s : Auctioneer.t) : list string :=
  fst <$> filter (fun kv => snd kv = None) (Auctioneer._channels s).

Definition start_note (c : string) (i : AuctionItem) (left : timedelta) : AuctionMessage :=
  {| channel := c;
     message := [Str "Starting Bid for "] ++ description i
                  ++ [Str " by "; Str (added_by i); Str ", ending in "; Delta left];
     hidden := false |}.

(** The world after one round of the loop of [next] has started [i] in [c]. *)
Definition after_start (e : Auctioneer.Env) (w : Auctioneer.World) (c : string)
    (i : AuctionItem) (rest : list AuctionItem) : Auctioneer.World :=
  {| Auctioneer.self :=
       {| Auctioneer._pending_items := rest;
          Auctioneer._channels :=
            dict_set (Auctioneer._channels (Auctioneer.self w)) c
              (Some (started i (Auctioneer.utcnow_at e (Auctioneer.clock_reads w))));
          Auctioneer._limits := Auctioneer._limits (Auctioneer.self w);
          Auctioneer._dkp := Auctioneer._dkp (Auctioneer.self w) |};
     Auctioneer.clock_reads := S (S (Auctioneer.clock_reads w));
     Auctioneer.random_draws := S (Auctioneer.random_draws w) |}.

Lemma next_loop_cons e w i rest :
  Auctioneer.next_loop (i :: rest) e w =
    if forallb (fun kv => bool_decide (is_Some (snd kv)))
         (Auctioneer._channels (Auctioneer.self w))
    then Some (tt, [], w)
    else
      match empty_channels (Auctioneer.self w)
              !! (Auctioneer.draw_at e (Auctioneer.random_draws w)
                    `mod` length (empty_channels (Auctioneer.self w)))%nat with
      | None => None
      | Some c =>
          let now := Auctioneer.utcnow_at e (Auctioneer.clock_reads w) in
          let soon := Auctioneer.utcnow_at e (S (Auctioneer.clock_reads w)) in
          match Auctioneer.next_loop rest e (after_start e w c i rest) with
          | None => None
          | Some (y, out, w') =>
              Some (y, start_note c i (time_left (started i now) soon) :: out, w')
          end
      end.
Proof.
  cbn [Auctioneer.next_loop].
  unfold Auctioneer.bind at 1. unfold Auctioneer.get_self at 1.
  destruct (forallb _ _); [reflexivity|].
  unfold Auctioneer.bind at 1. unfold Auctioneer.put_self at 1.
  unfold Auctioneer.bind at 1. unfold Auctioneer.choice at 1. cbn.
  fold (empty_channels (Auctioneer.self w)).
  destruct (empty_channels (Auctioneer.self w) !! _) as [c|]; [|reflexivity].
  cbn. unfold after_start, start_note.
  destruct (Auctioneer.next_loop rest e _) as [[[[] out] w']|]; reflexivity.
Qed.

(** ** One call, one channel *)

(** What a call [op], made when the clock has been read [k] times, can do to
    the slot of channel [c]. *)
Inductive slot_step (e : Auctioneer.Env) (k : nat) (op : Auctioneer.Op) (c : string)
  : option RunningAuction -> option RunningAuction -> Prop :=
| step_keep slot : slot_step e k op c slot slot
| step_bid a who bid_amount bid_id rk now :
    op = Auctioneer.OpBid c who bid_amount bid_id rk ->
    status a = Running ->
    slot_step e k op c (Some a) (Some (with_bid a (mkBid who rk bid_amount bid_id) now))
| step_stop a :
    op = Auctioneer.OpStop c ->
    status a = Running ->
    slot_step e k op c (Some a) (Some (stopped a))
| step_reopen a now :
    op = Auctioneer.OpReopen c ->
    status a <> Running ->
    slot_step e k op c (Some a) (Some (reopened a now))
| step_restart a now :
    op = Auctioneer.OpRestart c ->
    slot_step e k op c (Some a) (Some (started (auction_item a) now))
| step_delete a :
    op = Auctioneer.OpDelete c ->
    slot_step e k op c (Some a) None
| step_close a n r :
    op = Auctioneer.OpRun ->
    status a = Running ->
    (k <= n)%nat ->
    time_left a (Auctioneer.utcnow_at e n) = 0 ->
    slot_step e k op c (Some a) (Some (closed a r))
| step_update a now :
    op = Auctioneer.OpRun ->
    status a = Running ->
    slot_step e k op c (Some a) (Some (updated a now))
| step_start i now :
    op = Auctioneer.OpNext ->
    slot_step e k op c None (Some (started i now)).

Definition channels_step (e : Auctioneer.Env) (k : nat) (op : Auctioneer.Op)
    (before after : list (string * option RunningAuction)) : Prop :=
  after.*1 = before.*1
  /\ forall c,
       match dict_get before c with
       | None => dict_get after c = None
       | Some slot =>
           exists slot', dict_get after c = Some slot' /\ slot_step e k op c slot slot'
       end.

Lemma channels_step_refl e k op d : channels_step e k op d d.
Proof.
  split; [reflexivity|]. intros c. destruct (dict_get d c) as [slot|]; [|reflexivity].
  exists slot. split; [reflexivity|constructor].
Qed.

Lemma channels_step_assign e k op d c slot slot' :
  dict_get d c = Some slot ->
  slot_step e k op c slot slot' ->
  channels_step e k op d (dict_set d c slot').
Proof.
  intros Hget Hstep. split; [apply dict_set_keys; eauto|].
  intros c'. rewrite dict_get_set. destruct (decide (c' = c)) as [->|Hc].
  - rewrite Hget. eauto.
  - destruct (dict_get d c') as [s|]; [|reflexivity].
    exists s. split; [reflexivity|constructor].
Qed.

Lemma run_outcome_step e s k k' c slot slot' out n :
  (k <= k')%nat ->
  run_outcome e s k' c slot slot' out n ->
  slot_step e k Auctioneer.OpRun c slot slot'.
Proof.
  intros Hk H. destruct H.
  - constructor.
  - now apply (step_close e k _ c a k').
  - constructor.
  - now apply step_update.
  - constructor.
Qed.

Lemma run_channels_step e s k entries entries' out n :
  items_outcome e s k entries entries' out n ->
  channels_step e k Auctioneer.OpRun entries entries'.
Proof.
  intros H. split; [exact (items_outcome_keys _ _ _ _ _ _ _ H)|].
  intros c. pose proof (items_outcome_lookup _ _ _ _ _ _ _ c H) as L.
  destruct (dict_get entries c) as [slot|]; [|exact L].
  destruct L as (k' & slot' & out1 & n1 & Hk & Hr & Hget & _).
  exists slot'. split; [exact Hget|]. exact (run_outcome_step _ _ _ _ _ _ _ _ _ Hk Hr).
Qed.

Lemma slot_step_clock e k k' op c slot slot' :
  (k <= k')%nat -> slot_step e k' op c slot slot' -> slot_step e k op c slot slot'.
Proof.
  intros Hk H.
  destruct H as [ | | | | | | a n r Hop Hst Hn Hz | | ];
    [ constructor | now apply step_bid | now apply step_stop | now apply step_reopen
    | now apply step_restart | now apply step_delete | | now apply step_update
    | now apply step_start ].
  apply (step_close e k op c a n r Hop Hst); [lia|exact Hz].
Qed.

Lemma empty_channel_slot (s : Auctioneer.t) (c : string) :
  NoDup (Auctioneer._channels s).*1 ->
  c ∈ empty_channels s ->
  dict_get (Auctioneer._channels s) c = Some None.
Proof.
  intros Hnd Hc. unfold empty_channels in Hc.
  apply list_elem_of_fmap in Hc as ([c' slot] & -> & Hin).
  apply list_elem_of_filter in Hin as [Hnone Hin]. cbn in *. subst slot.
  now apply dict_get_nodup.
Qed.

Lemma next_loop_channels_step e pending : forall w out w',
  NoDup (Auctioneer._channels (Auctioneer.self w)).*1 ->
  Auctioneer.next_loop pending e w = Some (tt, out, w') ->
  channels_step e (Auctioneer.clock_reads w) Auctioneer.OpNext
    (Auctioneer._channels (Auctioneer.self w))
    (Auctioneer._channels (Auctioneer.self w')).
Proof.
  induction pending as [|i rest IH]; intros w out w' Hnd H.
  - cbn in H. injection H as <- <-. apply channels_step_refl.
  - rewrite next_loop_cons in H.
    destruct (forallb _ _); [injection H as <- <-; apply channels_step_refl|].
    destruct (empty_channels (Auctioneer.self w) !! _) as [c|] eqn:Hc; [|discriminate].
    cbv zeta in H.
    destruct (Auctioneer.next_loop rest e _) as [[[[] out0] w0]|] eqn:Hrest;
      [|discriminate].
    injection H as _ <-.
    assert (Hslot : dict_get (Auctioneer._channels (Auctioneer.self w)) c = Some None).
    { apply empty_channel_slot; [exact Hnd|]. eapply list_elem_of_lookup_2. exact Hc. }
    apply IH in Hrest.
    2:{ cbn. rewrite dict_set_keys; [exact Hnd|]. rewrite Hslot. eauto. }
    destruct Hrest as [Hkeys Hrest]. cbn in Hkeys, Hrest.
    split.
    { rewrite Hkeys. apply dict_set_keys. rewrite Hslot. eauto. }
    intros c'. specialize (Hrest c'). rewrite dict_get_set in Hrest.
    destruct (decide (c' = c)) as [->|Hne].
    + rewrite Hslot. destruct Hrest as (slot' & Hget & Hstep).
      exists slot'. split; [exact Hget|].
      inversion Hstep; subst; try discriminate. now apply step_start.
    + destruct (dict_get (Auctioneer._channels (Auctioneer.self w)) c') as [slot|];
        [|exact Hrest].
      destruct Hrest as (slot' & Hget & Hstep). exists slot'. split; [exact Hget|].
      eapply slot_step_clock; [|exact Hstep]. lia.
Qed.

Ltac unchanged H E :=
  rewrite E in H; injection H as <- <-; apply channels_step_refl.

(** Every call changes the channel dict slot by slot, as [slot_step] says. *)
Lemma call_channels_step e w op out w' :
  NoDup (Auctioneer._channels (Auctioneer.self w)).*1 ->
  Auctioneer.call op e w = Some (tt, out, w') ->
  channels_step e (Auctioneer.clock_reads w) op
    (Auctioneer._channels (Auctioneer.self w))
    (Auctioneer._channels (Auctioneer.self w')).
Proof.
  intros Hnd H.
  destruct (op_channel op) as [c|] eqn:Hop.
  - (* the guarded operations *)
    destruct (dict_get (Auctioneer._channels (Auctioneer.self w)) c) as [[a|]|] eqn:Hslot.
    2:{ destruct (call_rejected e w op c Hop) as (m & E & _); [tauto|]. unchanged H E. }
    2:{ destruct (call_rejected e w op c Hop) as (m & E & _); [tauto|]. unchanged H E. }
    destruct (decide (status a ∈ op_forbidden op)) as [Hf|Hf].
    { destruct (call_rejected e w op c Hop) as (m & E & _); [eauto|]. unchanged H E. }
    destruct op; try discriminate; injection Hop as ->; cbn [Auctioneer.call] in H;
      cbn [op_forbidden] in Hf.
    + (* bid *)
      assert (Hst : status a = Running).
      { destruct (status a); [reflexivity|exfalso; apply Hf..].
        - right; left.
        - left. }
      rewrite (bid_running e w c a Hslot _ _ _ _ Hst) in H.
      destruct (validate_bid _ _ _ _ _ _ _) as [[|] err].
      * injection H as _ <-. cbn.
        apply (channels_step_assign _ _ _ _ _ _ _ Hslot). now eapply step_bid.
      * injection H as _ <-. apply channels_step_refl.
    + (* stop *)
      assert (Hst : status a = Running).
      { destruct (status a); [reflexivity|exfalso; apply Hf..].
        - right; left.
        - left. }
      rewrite (stop_running e w c a Hslot Hst) in H. injection H as _ <-. cbn.
      apply (channels_step_assign _ _ _ _ _ _ _ Hslot). now apply step_stop.
    + (* accept *)
      assert (Hst : status a = Finished).
      { destruct (status a); [exfalso; apply Hf; left|exfalso; apply Hf; right; left|reflexivity]. }
      rewrite (accept_finished e w c a Hslot _ Hst) in H. injection H as _ <-.
      apply channels_step_refl.
    + (* reopen *)
      assert (Hst : status a <> Running).
      { intros E. apply Hf. rewrite E. left. }
      rewrite (reopen_not_running e w c a Hslot Hst) in H. injection H as _ <-. cbn.
      apply (channels_step_assign _ _ _ _ _ _ _ Hslot). now apply step_reopen.
    + (* restart *)
      rewrite (restart_any e w c a Hslot) in H. injection H as _ <-. cbn.
      apply (channels_step_assign _ _ _ _ _ _ _ Hslot). now apply step_restart.
    + (* delete *)
      rewrite (delete_any e w c a Hslot) in H. injection H as _ <-. cbn.
      apply (channels_step_assign _ _ _ _ _ _ _ Hslot). now apply step_delete.
  - destruct op; try discriminate; cbn [Auctioneer.call] in H.
    + (* add *)
      injection H as _ <-. apply channels_step_refl.
    + (* update_dkp *)
      injection H as _ <-. apply channels_step_refl.
    + (* run *)
      destruct (run_outcome_all e w) as (entries' & out' & n & E & Hitems).
      rewrite E in H. injection H as _ <-. cbn.
      exact (run_channels_step _ _ _ _ _ _ _ Hitems).
    + (* next *)
      unfold Auctioneer.next, Auctioneer.bind, Auctioneer.get_self in H.
      destruct (Auctioneer.next_loop _ e w) as [[[[] out0] w0]|] eqn:Hloop; [|discriminate].
      injection H as _ <-.
      exact (next_loop_channels_step _ _ _ _ _ Hnd Hloop).
Qed.

Lemma call_keeps_keys e w op out w' :
  NoDup (Auctioneer._channels (Auctioneer.self w)).*1 ->
  Auctioneer.call op e w = Some (tt, out, w') ->
  NoDup (Auctioneer._channels (Auctioneer.self w')).*1.
Proof.
  intros Hnd H. destruct (call_channels_step _ _ _ _ _ Hnd H) as [-> _]. exact Hnd.
Qed.

(** ** Status transitions *)

(** C8. In one call the status of the auction of a channel changes only as
    follows: it becomes [Finished] only from [Running], in [run], at a
    reading of the clock at which no time is left; it becomes [Stopped] only
    from [Running], by [stop]; from [Stopped] or [Finished] the channel is
    back to [Running] only by [reopen], or by [restart], which puts a fresh
    auction in its place; a stopped auction does not become finished; an
    auction that appears in an empty slot was started by [next], running. *)
Theorem status_changes_only_by_design (e : Auctioneer.Env) (w w' : Auctioneer.World)
    (op : Auctioneer.Op) (out : list AuctionMessage) (c : string) (a' : RunningAuction) :
  NoDup (Auctioneer._channels (Auctioneer.self w)).*1 ->
  Auctioneer.call op e w = Some (tt, out, w') ->
  dict_get (Auctioneer._channels (Auctioneer.self w')) c = Some (Some a') ->
  exists prior,
    dict_get (Auctioneer._channels (Auctioneer.self w)) c = Some prior
    /\ match prior with
       | None => op = Auctioneer.OpNext /\ status a' = Running
       | Some a =>
           (status a' = Finished ->
            status a = Finished
            \/ (status a = Running /\ op = Auctioneer.OpRun
                /\ exists n, (Auctioneer.clock_reads w <= n)%nat
                             /\ time_left a (Auctioneer.utcnow_at e n) = 0))
           /\ (status a' = Stopped ->
               status a = Stopped \/ (status a = Running /\ op = Auctioneer.OpStop c))
           /\ (status a' = Running ->
               status a = Running
               \/ op = Auctioneer.OpReopen c
               \/ (op = Auctioneer.OpRestart c
                   /\ exists now, a' = started (auction_item a) now))
           /\ (status a = Stopped -> status a' <> Finished)
       end.
Proof.
  intros Hnd Hcall Hafter.
  destruct (call_channels_step _ _ _ _ _ Hnd Hcall) as [_ Hstep].
  specialize (Hstep c).
  destruct (dict_get (Auctioneer._channels (Auctioneer.self w)) c) as [prior|];
    [|congruence].
  destruct Hstep as (slot' & Hget & Hstep).
  rewrite Hafter in Hget. injection Hget as <-.
  exists prior. split; [reflexivity|].
  inversion Hstep; subst; cbn.
  - repeat split; intros; try congruence; auto.
  - repeat split; intros; try congruence; auto.
  - repeat split; intros; try congruence; auto.
  - repeat split; intros; try congruence; auto.
  - repeat split; intros; try congruence. right. right. split; [reflexivity|]. eauto.
  - repeat split; intros; try congruence. right. split; [assumption|].
    split; [reflexivity|]. eauto.
  - repeat split; intros; try congruence; auto.
  - split; reflexivity.
Qed.

Lemma status_changes_only_by_design_witness :
  exists a,
    dict_get (Auctioneer._channels (Auctioneer.self (raid_world fresh_auction))) "raid"
    = Some (Some a)
    /\ (status (stopped fresh_auction) = Stopped ->
        status a = Stopped \/ (status a = Running /\ Auctioneer.OpStop "raid" = Auctioneer.OpStop "raid")).
Proof.
  destruct (status_changes_only_by_design env (raid_world fresh_auction)
              (with_slot (raid_world fresh_auction) "raid" (Some (stopped fresh_auction)) 0)
              (Auctioneer.OpStop "raid")
              [hidden_note "raid" "Auction has been stopped";
               {| channel := "raid";
                  message := [Str "Auction for "; Str "Sword of Omens";
                              Str " has been stopped."];
                  hidden := false |}]
              "raid" (stopped fresh_auction))
    as (prior & Hget & H).
  - apply (bool_decide_unpack (NoDup ["raid"; "spare"])). vm_compute. exact I.
  - vm_compute. reflexivity.
  - vm_compute. reflexivity.
  - destruct prior as [a|].
    + exists a. split; [exact Hget|]. destruct H as (_ & H & _). exact H.
    + exfalso. vm_compute in Hget. discriminate Hget.
Defined.

(** ** Cached results *)

Definition consistent (a : RunningAuction) : Prop :=
  results a <> None <-> status a = Finished.

Lemma slot_step_consistent e k op c slot slot' :
  slot_step e k op c slot slot' ->
  (forall a, slot = Some a -> consistent a) ->
  forall a', slot' = Some a' -> consistent a'.
Proof.
  unfold consistent.
  intros Hstep Hinv a' Ha'. destruct Hstep; try (specialize (Hinv _ eq_refl));
    try injection Ha' as <-; try discriminate; cbn.
  - now apply Hinv.
  - exact Hinv.
  - split; [|discriminate]. intros Hr. apply Hinv in Hr. congruence.
  - split; [intros Hx; now contradiction Hx|discriminate].
  - split; [intros Hx; now contradiction Hx|discriminate].
  - split; [reflexivity|discriminate].
  - exact Hinv.
  - split; [intros Hx; now contradiction Hx|discriminate].
Qed.

Lemma dict_get_None_keys {V} (d : list (string * V)) (k : string) :
  dict_get d k = None <-> k ∉ d.*1.
Proof.
  induction d as [|[k0 v0] d IH]; cbn.
  - split; [intros _ H; now apply elem_of_nil in H|reflexivity].
  - rewrite not_elem_of_cons. destruct (decide (k = k0)) as [->|Hk].
    + split; [discriminate|]. intros [H _]. contradiction.
    + rewrite IH. tauto.
Qed.

Lemma dict_set_keys_new {V} (d : list (string * V)) (k : string) (v : V) :
  dict_get d k = None -> (dict_set d k v).*1 = d.*1 ++ [k].
Proof.
  induction d as [|[k0 v0] d IH]; cbn; [reflexivity|].
  destruct (decide (k = k0)); [discriminate|]. intros H. cbn. f_equal. now apply IH.
Qed.

Lemma dict_set_nodup {V} (d : list (string * V)) (k : string) (v : V) :
  NoDup d.*1 -> NoDup (dict_set d k v).*1.
Proof.
  intros Hnd. destruct (dict_get d k) as [x|] eqn:E.
  - rewrite dict_set_keys; eauto.
  - rewrite dict_set_keys_new by exact E.
    apply NoDup_app. split; [exact Hnd|]. split; [|apply NoDup_singleton].
    intros x Hx Hk. apply list_elem_of_singleton in Hk as ->.
    now apply dict_get_None_keys in E.
Qed.

Lemma dict_set_none_slots (d : list (string * option RunningAuction)) (k : string) :
  Forall (fun kv => kv.2 = None) d -> Forall (fun kv => kv.2 = None) (dict_set d k None).
Proof.
  induction 1 as [|[k0 v0] d Hv Hd IH]; cbn; [repeat constructor|].
  destruct (decide (k = k0)); constructor; auto.
Qed.

Lemma init_channels channels : forall d,
  NoDup d.*1 -> Forall (fun kv => kv.2 = None) d ->
  NoDup (fold_left (fun d c => dict_set d c None) channels d).*1
  /\ Forall (fun kv : string * option RunningAuction => kv.2 = None)
       (fold_left (fun d c => dict_set d c None) channels d).
Proof.
  induction channels as [|c rest IH]; cbn; intros d Hnd Hnone; [split; assumption|].
  apply IH; [now apply dict_set_nodup | now apply dict_set_none_slots].
Qed.

(** The worlds an [Auctioneer] built for [channels] and [limits] can be in
    after any sequence of calls. *)
Inductive reachable (e : Auctioneer.Env) (channels : list string) (lim : AuctionLimits)
  : Auctioneer.World -> Prop :=
| reach_init reads draws :
    reachable e channels lim
      {| Auctioneer.self := Auctioneer.__init__ channels lim;
         Auctioneer.clock_reads := reads;
         Auctioneer.random_draws := draws |}
| reach_call w op out w' :
    reachable e channels lim w ->
    Auctioneer.call op e w = Some (tt, out, w') ->
    reachable e channels lim w'.

Lemma reachable_invariant e channels lim w :
  reachable e channels lim w ->
  NoDup (Auctioneer._channels (Auctioneer.self w)).*1
  /\ forall c a,
       dict_get (Auctioneer._channels (Auctioneer.self w)) c = Some (Some a) ->
       consistent a.
Proof.
  induction 1 as [reads draws|w op out w' _ [Hnd Hinv] Hcall].
  - cbn. destruct (init_channels channels []) as [Hnd Hnone];
      [constructor|constructor|].
    split; [exact Hnd|]. intros c a Hget. apply dict_get_elem in Hget.
    rewrite Forall_forall in Hnone. apply Hnone in Hget. discriminate.
  - split; [exact (call_keeps_keys _ _ _ _ _ Hnd Hcall)|].
    intros c a' Hafter.
    destruct (call_channels_step _ _ _ _ _ Hnd Hcall) as [_ Hstep].
    specialize (Hstep c).
    destruct (dict_get (Auctioneer._channels (Auctioneer.self w)) c) as [prior|] eqn:Hget;
      [|congruence].
    destruct Hstep as (slot' & Hget' & Hstep). rewrite Hafter in Hget'.
    injection Hget' as <-.
    apply (slot_step_consistent _ _ _ _ _ _ Hstep); [|reflexivity].
    intros a ->. exact (Hinv _ _ Hget).
Qed.

(** C7. In every world reachable from a new [Auctioneer] by calls of [add],
    [update_dkp], [run], [next], [bid], [stop], [accept], [reopen],
    [restart] and [delete], an auction has cached results if and only if its
    status is [Finished].  [run] changes the cached results of an auction
    exactly when it takes it from [Running] to [Finished], and [reopen], when
    it takes effect, clears them and returns the auction to [Running]. *)
Theorem results_cached_iff_finished (e : Auctioneer.Env) (channels : list string)
    (lim : AuctionLimits) (w : Auctioneer.World) :
  reachable e channels lim w ->
  (forall c a,
     dict_get (Auctioneer._channels (Auctioneer.self w)) c = Some (Some a) ->
     (results a <> None <-> status a = Finished))
  /\ (forall out w' c a a',
        Auctioneer.run e w = Some (tt, out, w') ->
        dict_get (Auctioneer._channels (Auctioneer.self w)) c = Some (Some a) ->
        dict_get (Auctioneer._channels (Auctioneer.self w')) c = Some (Some a') ->
        (results a' <> results a <-> status a = Running /\ status a' = Finished))
  /\ (forall out w' c a a',
        Auctioneer.reopen c e w = Some (tt, out, w') ->
        dict_get (Auctioneer._channels (Auctioneer.self w)) c = Some (Some a) ->
        status a <> Running ->
        dict_get (Auctioneer._channels (Auctioneer.self w')) c = Some (Some a') ->
        results a' = None /\ status a' = Running).
Proof.
  intros Hreach. destruct (reachable_invariant _ _ _ _ Hreach) as [Hnd Hinv].
  split; [exact Hinv|]. split.
  - intros out w' c a a' Hrun Hget Hget'.
    destruct (call_channels_step e w Auctioneer.OpRun out w' Hnd Hrun) as [_ Hstep].
    specialize (Hstep c). rewrite Hget in Hstep.
    destruct Hstep as (slot' & Hafter & Hstep). rewrite Hget' in Hafter.
    injection Hafter as <-. specialize (Hinv _ _ Hget). unfold consistent in Hinv.
    inversion Hstep; subst; try discriminate; cbn.
    + split; [intros Hx; now contradiction Hx|]. intros [Hx Hy]. congruence.
    + split; [intros _; split; [assumption|reflexivity]|].
      intros _ Hr. symmetry in Hr.
      assert (Hn : results a <> None) by congruence.
      apply Hinv in Hn. congruence.
    + split; [intros Hx; now contradiction Hx|]. intros [Hx Hy]. congruence.
  - intros out w' c a a' Hre Hget Hst Hget'.
    rewrite (reopen_not_running e w c a Hget Hst) in Hre. injection Hre as _ <-.
    cbn in Hget'. rewrite dict_get_set in Hget'.
    destruct (decide (c = c)); [|contradiction].
    injection Hget' as <-. split; reflexivity.
Qed.

Definition two_channels : list string := ["raid"; "spare"].

Lemma results_cached_iff_finished_witness :
  exists w a,
    reachable env two_channels limits w
    /\ dict_get (Auctioneer._channels (Auctioneer.self w)) "raid" = Some (Some a)
    /\ (results a <> None <-> status a = Finished).
Proof.
  assert (Hreach : reachable env two_channels limits
            {| Auctioneer.self :=
                 {| Auctioneer._pending_items := [];
                    Auctioneer._channels :=
                      [("raid", Some (started sample_item (seconds 0))); ("spare", None)];
                    Auctioneer._limits := limits;
                    Auctioneer._dkp := ∅ |};
               Auctioneer.clock_reads := 2;
               Auctioneer.random_draws := 1 |}).
  { eapply (reach_call _ _ _ _ Auctioneer.OpNext).
    - eapply (reach_call _ _ _ _ (Auctioneer.OpAdd sample_item)).
      + apply (reach_init env two_channels limits 0 0).
      + vm_compute. reflexivity.
    - vm_compute. reflexivity. }
  eexists _, (started sample_item (seconds 0)).
  split; [exact Hreach|]. split; [reflexivity|].
  destruct (results_cached_iff_finished _ _ _ _ Hreach) as [H _].
  apply (H "raid"). reflexivity.
Defined.

Lemma accept_refuses_only_changed_results_witness :
  let a := closed expired_auction
             {| winners := []; tied := []; rolled := 1 |} in
  let r := determine_results a balances 20 in
  (false = false /\ results a <> Some r ->
   Auctioneer.accept "raid" false env (raid_world a)
   = Some (tt, [refusal "raid"], raid_world a))
  /\ (true = true \/ results a = Some r ->
      Auctioneer.accept "raid" true env (raid_world a)
      = Some (tt, acceptance "raid" r, raid_world a)).
Proof.
  intros a r.
  destruct (accept_refuses_only_changed_results env (raid_world a) "raid" a false
              eq_refl eq_refl) as (Hrefuse & _ & _).
  destruct (accept_refuses_only_changed_results env (raid_world a) "raid" a true
              eq_refl eq_refl) as (_ & Haccept & _).
  split; [exact Hrefuse|exact Haccept].
Defined.

(** ** The engine does not raise *)

Lemma some_channel_empty (d : list (string * option RunningAuction)) :
  forallb (fun kv => bool_decide (is_Some (snd kv))) d = false ->
  fst <$> filter (fun kv => snd kv = None) d <> [].
Proof.
  induction d as [|[k [a|]] d IH]; cbn [forallb snd]; [discriminate| |].
  - rewrite (bool_decide_eq_true_2 (is_Some (Some a))) by eauto. cbn [andb]. intros H.
    rewrite filter_cons_False by (cbn; discriminate). now apply IH.
  - intros _. rewrite filter_cons_True by reflexivity. discriminate.
Qed.

Lemma next_loop_total e pending : forall w,
  exists out w', Auctioneer.next_loop pending e w = Some (tt, out, w').
Proof.
  induction pending as [|i rest IH]; intros w.
  - exists [], w. reflexivity.
  - rewrite next_loop_cons.
    destruct (forallb _ _) eqn:Hfull; [eauto|].
    apply some_channel_empty in Hfull. fold (empty_channels (Auctioneer.self w)) in Hfull.
    destruct (lookup_lt_is_Some_2 (empty_channels (Auctioneer.self w))
                (Auctioneer.draw_at e (Auctioneer.random_draws w)
                   `mod` length (empty_channels (Auctioneer.self w)))%nat) as [c Hc].
    { apply Nat.mod_upper_bound. destruct (empty_channels (Auctioneer.self w));
        [contradiction|discriminate]. }
    rewrite Hc. cbv zeta.
    destruct (IH (after_start e w c i rest)) as (out & w' & E). rewrite E. eauto.
Qed.

(** No call raises, whatever the state: every operation returns. *)
Lemma call_total e w op :
  exists out w', Auctioneer.call op e w = Some (tt, out, w').
Proof.
  destruct (op_channel op) as [c|] eqn:Hop.
  - destruct (dict_get (Auctioneer._channels (Auctioneer.self w)) c) as [[a|]|] eqn:Hslot.
    2:{ destruct (call_rejected e w op c Hop) as (m & E & _); [tauto|]. eauto. }
    2:{ destruct (call_rejected e w op c Hop) as (m & E & _); [tauto|]. eauto. }
    destruct (decide (status a ∈ op_forbidden op)) as [Hf|Hf].
    { destruct (call_rejected e w op c Hop) as (m & E & _); [eauto|]. eauto. }
    destruct op; try discriminate; injection Hop as ->; cbn [Auctioneer.call];
      cbn [op_forbidden] in Hf.
    + assert (Hst : status a = Running).
      { destruct (status a); [reflexivity|exfalso; apply Hf..].
        - right; left.
        - left. }
      rewrite (bid_running e w c a Hslot _ _ _ _ Hst).
      destruct (validate_bid _ _ _ _ _ _ _) as [[|] err]; eauto.
    + assert (Hst : status a = Running).
      { destruct (status a); [reflexivity|exfalso; apply Hf..].
        - right; left.
        - left. }
      rewrite (stop_running e w c a Hslot Hst). eauto.
    + assert (Hst : status a = Finished).
      { destruct (status a); [exfalso; apply Hf; left|exfalso; apply Hf; right; left|reflexivity]. }
      rewrite (accept_finished e w c a Hslot _ Hst). eauto.
    + assert (Hst : status a <> Running).
      { intros E. apply Hf. rewrite E. left. }
      rewrite (reopen_not_running e w c a Hslot Hst). eauto.
    + rewrite (restart_any e w c a Hslot). eauto.
    + rewrite (delete_any e w c a Hslot). eauto.
  - destruct op; try discriminate; cbn [Auctioneer.call].
    + eexists _, _. reflexivity.
    + eexists _, _. reflexivity.
    + destruct (run_outcome_all e w) as (entries' & out' & n & E & _). eauto.
    + unfold Auctioneer.next, Auctioneer.bind, Auctioneer.get_self.
      destruct (next_loop_total e (Auctioneer._pending_items (Auctioneer.self w)) w)
        as (out & w' & E).
      rewrite E. eauto.
Qed.


(** * Further properties of the engine *)

(** ** The resolver: accounting *)

Lemma award_accounts groups : forall need won,
  (award groups need won []).1.1 + Z.of_nat (length (award groups need won []).1.2)
  = need + Z.of_nat (length won).
Proof.
  induction groups as [|g rest IH]; cbn; intros need won; [reflexivity|].
  destruct (Z.leb_spec (Z.of_nat (length g)) need).
  - destruct (Z.eqb_spec (need - Z.of_nat (length g)) 0); cbn.
    + rewrite length_app. lia.
    + rewrite IH, length_app. lia.
  - cbn. reflexivity.
Qed.

Lemma award_need_nonneg groups : forall need won,
  0 <= need -> 0 <= (award groups need won []).1.1.
Proof.
  induction groups as [|g rest IH]; cbn; intros need won Hneed; [exact Hneed|].
  destruct (Z.leb_spec (Z.of_nat (length g)) need).
  - destruct (Z.eqb_spec (need - Z.of_nat (length g)) 0); cbn; [lia|].
    apply IH. lia.
  - cbn. exact Hneed.
Qed.

Lemma award_tie_outnumbers groups : forall need won,
  (award groups need won []).2 <> [] ->
  (award groups need won []).1.1 < Z.of_nat (length (award groups need won []).2).
Proof.
  induction groups as [|g rest IH]; cbn; intros need won Htie; [contradiction|].
  destruct (Z.leb_spec (Z.of_nat (length g)) need).
  - destruct (Z.eqb_spec (need - Z.of_nat (length g)) 0); cbn in *; [contradiction|].
    now apply IH.
  - cbn. exact H.
Qed.

(** X1. The resolver accounts for every item: the number of winners plus
    [rolled] is the quantity of the item, ties included.  For a quantity
    that is not negative, [rolled] is not negative and there are at most
    [quantity] winners; and when bids are tied, they are more than the
    items still to be given. *)
Theorem winners_and_rolled_make_quantity (a : RunningAuction)
    (dkp : gmap string CharacterDKP) (member_treshold : Z) :
  let r := determine_results a dkp member_treshold in
  Z.of_nat (length (winners r)) + rolled r = quantity (auction_item a)
  /\ (0 <= quantity (auction_item a) ->
      0 <= rolled r /\ Z.of_nat (length (winners r)) <= quantity (auction_item a))
  /\ (tied r <> [] -> rolled r < Z.of_nat (length (tied r))).
Proof.
  cbv zeta.
  destruct (determine_results_fields a dkp member_treshold) as (-> & -> & ->).
  pose proof (award_accounts
                (groupby (_bid_key dkp member_treshold) (all_bids a dkp member_treshold))
                (quantity (auction_item a)) []) as Hacc.
  cbn [length] in Hacc.
  split; [lia|]. split.
  - intros Hq.
    pose proof (award_need_nonneg
                  (groupby (_bid_key dkp member_treshold) (all_bids a dkp member_treshold))
                  (quantity (auction_item a)) [] Hq).
    lia.
  - apply award_tie_outnumbers.
Qed.

Lemma winners_and_rolled_make_quantity_witness :
  let a := auction_with 3 [mkBid "alice" Raider 100 0; mkBid "bob" Raider 90 0;
                           mkBid "carol" Member 80 0; mkBid "dave" Member 80 0] in
  let r := determine_results a ∅ 20 in
  Z.of_nat (length (winners r)) + rolled r = 3
  /\ (0 <= rolled r /\ Z.of_nat (length (winners r)) <= 3)
  /\ rolled r < Z.of_nat (length (tied r)).
Proof.
  intros a r.
  destruct (winners_and_rolled_make_quantity a ∅ 20) as (H1 & H2 & H3).
  split; [exact H1|]. split.
  - apply H2. vm_compute. discriminate.
  - apply H3. vm_compute. discriminate.
Defined.

(** ** The resolver: ranking *)

Lemma filter_seen_subset l seen b : b ∈ filter_seen seen l -> b ∈ l.
Proof.
  intros H. apply filter_seen_elem in H as (_ & l1 & l2 & -> & _).
  apply elem_of_app. right. left.
Qed.

Lemma filter_seen_sorted (R : Bid -> Bid -> Prop) l : forall seen,
  StronglySorted R l -> StronglySorted R (filter_seen seen l).
Proof.
  induction l as [|x l IH]; cbn; intros seen Hs; [constructor|].
  apply StronglySorted_inv in Hs as [Hs Hx].
  destruct (decide ((bidder x, id x) ∈ seen)); [now apply IH|].
  constructor; [now apply IH|].
  rewrite Forall_forall in Hx |- *. intros y Hy. apply Hx.
  eapply filter_seen_subset. exact Hy.
Qed.

(** Every pair that is not yet seen keeps a representative. *)
Lemma filter_seen_covers l : forall seen x,
  x ∈ l -> bid_pair x ∉ seen ->
  exists y, y ∈ filter_seen seen l /\ bid_pair y = bid_pair x.
Proof.
  induction l as [|b0 l IH]; cbn; intros seen x Hx Hseen.
  - now apply elem_of_nil in Hx.
  - fold (bid_pair b0). apply elem_of_cons in Hx as [->|Hx].
    + destruct (decide (bid_pair b0 ∈ seen)); [contradiction|].
      exists b0. split; [left|reflexivity].
    + destruct (decide (bid_pair b0 ∈ seen)) as [Hin|Hout].
      * now apply IH.
      * destruct (decide (bid_pair x = bid_pair b0)) as [E|E].
        { exists b0. split; [left|now symmetry]. }
        destruct (IH ({[bid_pair b0]} ∪ seen) x Hx) as (y & Hy & Hp).
        { intros Hin. apply elem_of_union in Hin as [Hin|Hin]; [|contradiction].
          apply elem_of_singleton in Hin. contradiction. }
        exists y. split; [now right|exact Hp].
Qed.

Lemma all_bids_sorted a dkp member_treshold :
  StronglySorted (before (_bid_key dkp member_treshold)) (all_bids a dkp member_treshold).
Proof. apply filter_seen_sorted, sorted_desc_sorted. Qed.

(** The bid kept for a pair has the highest key of the pair. *)
Lemma kept_is_highest a dkp member_treshold b b' :
  b ∈ all_bids a dkp member_treshold ->
  b' ∈ bids a ->
  bid_pair b' = bid_pair b ->
  key_ge (_bid_key dkp member_treshold b) (_bid_key dkp member_treshold b').
Proof.
  intros Hb Hb' Hpair. unfold all_bids, _filter_bids in Hb.
  apply filter_seen_elem in Hb as (_ & l1 & l2 & Hsplit & Hl1).
  pose proof (sorted_desc_perm (_bid_key dkp member_treshold) (bids a)) as Hperm.
  pose proof (sorted_desc_sorted (_bid_key dkp member_treshold) (bids a)) as Hsorted.
  rewrite Hsplit in Hperm, Hsorted. rewrite <- Hperm in Hb'.
  apply elem_of_app in Hb' as [Hb'|Hb']; [now apply Hl1 in Hb'|].
  apply elem_of_cons in Hb' as [->|Hb']; [apply key_ge_refl|].
  exact (sorted_split _ _ _ _ _ Hsorted Hb').
Qed.

(** C2, as the code has it.  Of the live bids of one (bidder, id) pair
    the de-duplication keeps exactly one in [all_bids], the sorted and
    de-duplicated bids that the resolver walks, and it is one whose sort key
    (priority, amount, balance) is the highest of the pair, whenever it was
    submitted; with the rank unchanged it has the highest amount.  Winners
    and tied are a leading part of these kept bids: so at most one bid of a
    pair is among them, and never one that a live bid of its pair outranks. *)
Theorem counted_bid_is_highest_of_pair (a : RunningAuction)
    (dkp : gmap string CharacterDKP) (member_treshold : Z) :
  let r := determine_results a dkp member_treshold in
  let kept := all_bids a dkp member_treshold in
  let key := _bid_key dkp member_treshold in
  NoDup (bid_pair <$> kept)
  /\ (forall b', b' ∈ bids a -> exists b, b ∈ kept /\ bid_pair b = bid_pair b')
  /\ (forall b, b ∈ kept ->
        b ∈ bids a
        /\ forall b', b' ∈ bids a -> bid_pair b' = bid_pair b ->
             key_ltb (key b) (key b') = false
             /\ (rank b' = rank b -> bid b' <= bid b))
  /\ (exists rest, kept = (winners r ++ tied r) ++ rest)
  /\ NoDup (bid_pair <$> (winners r ++ tied r))
  /\ (forall b, b ∈ winners r ++ tied r ->
        b ∈ bids a
        /\ forall b', b' ∈ bids a -> bid_pair b' = bid_pair b ->
             key_ltb (key b) (key b') = false
             /\ (rank b' = rank b -> bid b' <= bid b)).
Proof.
  cbv zeta.
  destruct (counted_prefix a dkp member_treshold) as [suf E].
  pose proof (filter_seen_nodup
                (sorted_desc (_bid_key dkp member_treshold) (bids a)) ∅) as Hnd.
  fold (_filter_bids (sorted_desc (_bid_key dkp member_treshold) (bids a))) in Hnd.
  fold (all_bids a dkp member_treshold) in Hnd.
  assert (Hkept : forall b, b ∈ all_bids a dkp member_treshold ->
            b ∈ bids a
            /\ forall b', b' ∈ bids a -> bid_pair b' = bid_pair b ->
                 key_ltb (_bid_key dkp member_treshold b)
                   (_bid_key dkp member_treshold b') = false
                 /\ (rank b' = rank b -> bid b' <= bid b)).
  { intros b Hb. split.
    - unfold all_bids, _filter_bids in Hb. apply filter_seen_subset in Hb.
      now rewrite sorted_desc_perm in Hb.
    - intros b' Hb' Hpair.
      pose proof (kept_is_highest a dkp member_treshold b b' Hb Hb' Hpair) as Hge.
      split; [exact Hge|].
      intros Hrank. apply key_ltb_false in Hge. unfold _bid_key in Hge. cbn in Hge.
      injection Hpair as Hwho _. rewrite Hwho, Hrank in Hge.
      destruct (Z.geb_spec (bid b) member_treshold),
        (Z.geb_spec (bid b') member_treshold),
        (bool_decide (rank b = Raider)); cbn in Hge; lia. }
  split; [exact Hnd|]. split.
  { intros b' Hb'. unfold all_bids, _filter_bids.
    apply filter_seen_covers; [|apply not_elem_of_empty].
    now rewrite sorted_desc_perm. }
  split; [exact Hkept|]. split; [exists suf; exact E|]. split.
  - rewrite E, fmap_app in Hnd. now apply NoDup_app in Hnd as [Hnd' _].
  - intros b Hb. apply Hkept. rewrite E. apply elem_of_app. now left.
Qed.

(** Alice bids 30 and 50 under one id, Bob bids 100, one item: the 50 is the
    bid kept for Alice, though Bob wins. *)
Lemma counted_bid_is_highest_of_pair_witness :
  let a := auction_with 1 [mkBid "alice" Raider 30 0; mkBid "alice" Raider 50 0;
                           mkBid "bob" Raider 100 0] in
  let b := mkBid "alice" Raider 50 0 in
  let b' := mkBid "alice" Raider 30 0 in
  b ∈ all_bids a balances 20
  /\ b' ∈ bids a
  /\ key_ltb (_bid_key balances 20 b) (_bid_key balances 20 b') = false
  /\ bid b' <= bid b
  /\ winners (determine_results a balances 20) = [mkBid "bob" Raider 100 0].
Proof.
  intros a b b'.
  assert (Hb : b ∈ all_bids a balances 20).
  { assert (E : all_bids a balances 20 = [mkBid "bob" Raider 100 0; b])
      by (vm_compute; reflexivity).
    rewrite E. right. left. }
  assert (Hb' : b' ∈ bids a) by (cbn; left).
  destruct (counted_bid_is_highest_of_pair a balances 20) as (_ & _ & H & _).
  destruct (H b Hb) as [_ H'].
  destruct (H' b' Hb' eq_refl) as [Hk Ha].
  split; [exact Hb|]. split; [exact Hb'|]. split; [exact Hk|].
  split; [exact (Ha eq_refl)|]. vm_compute. reflexivity.
Defined.

Lemma elem_of_concat {A} (x : A) (ls : list (list A)) :
  x ∈ concat ls <-> exists l, l ∈ ls /\ x ∈ l.
Proof.
  induction ls as [|l ls IH]; cbn.
  - split; [intros H; now apply elem_of_nil in H|].
    intros (l & H & _). now apply elem_of_nil in H.
  - rewrite elem_of_app, IH. split.
    + intros [H|(l' & H1 & H2)].
      * exists l. split; [left|exact H].
      * exists l'. split; [now right|exact H2].
    + intros (l' & H1 & H2). apply elem_of_cons in H1 as [->|H1]; eauto.
Qed.

Lemma key_ge_neq_lt k1 k2 : key_ge k1 k2 -> key_eqb k1 k2 = false -> key_ltb k2 k1 = true.
Proof.
  unfold key_ge. rewrite key_ltb_false, key_ltb_true.
  intros Hge Hne. destruct k1 as [[a1 b1] c1], k2 as [[a2 b2] c2]. cbn in *.
  destruct (Z.eqb_spec a1 a2), (Z.eqb_spec b1 b2), (Z.eqb_spec c1 c2);
    cbn in Hne; try discriminate; lia.
Qed.

Lemma key_ltb_trans k1 k2 k3 :
  key_ltb k1 k2 = true -> key_ltb k2 k3 = true -> key_ltb k1 k3 = true.
Proof. rewrite !key_ltb_true. lia. Qed.

Section Ranking.
Context (key : Bid -> bid_key_t).

(** Groups in strictly descending order of key, each of one key. *)
Fixpoint ranked (groups : list (list Bid)) : Prop :=
  match groups with
  | [] => True
  | g :: rest =>
      (forall x y, x ∈ g -> y ∈ g -> key x = key y)
      /\ (forall x h y, x ∈ g -> h ∈ rest -> y ∈ h -> key_ltb (key y) (key x) = true)
      /\ ranked rest
  end.

Lemma groupby_ranked l : StronglySorted (before key) l -> ranked (groupby key l).
Proof.
  induction 1 as [|x l Hs IH Hx]; cbn; [exact I|].
  pose proof (groupby_nonempty key l) as Hne.
  destruct (groupby key l) as [|[|y g] gs] eqn:E.
  - cbn. split; [|split; [|exact I]].
    + intros a b Ha Hb. apply list_elem_of_singleton in Ha, Hb. congruence.
    + intros a h b _ Hh. now apply elem_of_nil in Hh.
  - apply Forall_cons in Hne as [Hne _]. contradiction.
  - assert (Hy : before key x y).
    { rewrite Forall_forall in Hx. apply Hx.
      rewrite <- (groupby_concat key l), E. cbn. left. }
    cbn in IH. destruct IH as (Hsame & Hlower & Hrest).
    destruct (key_eqb (key x) (key y)) eqn:Hk.
    + apply key_eqb_true in Hk. cbn. split; [|split; [|exact Hrest]].
      * assert (Hall : forall z, z ∈ x :: y :: g -> key z = key y).
        { intros z Hz. apply elem_of_cons in Hz as [->|Hz]; [exact Hk|].
          apply Hsame; [exact Hz|left]. }
        intros a b Ha Hb. rewrite (Hall a Ha), (Hall b Hb). reflexivity.
      * intros a h b Ha Hh Hb. apply elem_of_cons in Ha as [->|Ha].
        -- rewrite Hk. apply (Hlower y h b); [left|exact Hh|exact Hb].
        -- now apply (Hlower a h b).
    + cbn. split; [|split; [|split; [exact Hsame|split; [exact Hlower|exact Hrest]]]].
      * intros a b Ha Hb. apply list_elem_of_singleton in Ha, Hb. congruence.
      * intros a h b Ha Hh Hb. apply list_elem_of_singleton in Ha as ->.
        assert (Hxy : key_ltb (key y) (key x) = true) by now apply key_ge_neq_lt.
        apply elem_of_cons in Hh as [->|Hh].
        -- rewrite (Hsame b y Hb); [exact Hxy|left].
        -- eapply key_ltb_trans; [|exact Hxy].
           apply (Hlower y h b); [left|exact Hh|exact Hb].
Qed.

(** The winners that [award] adds come from groups ranked above the group
    it declares tied. *)
Lemma award_ranked groups : forall need won,
  ranked groups ->
  exists added,
    (award groups need won []).1.2 = won ++ added
    /\ (forall x y, x ∈ (award groups need won []).2 ->
                    y ∈ (award groups need won []).2 -> key x = key y)
    /\ (forall x y, x ∈ added -> y ∈ (award groups need won []).2 ->
                    key_ltb (key y) (key x) = true)
    /\ ((award groups need won []).2 = [] \/ (award groups need won []).2 ∈ groups).
Proof.
  induction groups as [|g rest IH]; cbn [award]; intros need won Hr.
  - exists []. cbn. rewrite app_nil_r. split; [reflexivity|].
    split; [intros x y Hx; now apply elem_of_nil in Hx|].
    split; [intros x y Hx; now apply elem_of_nil in Hx|now left].
  - cbn in Hr. destruct Hr as (Hsame & Hlower & Hrest).
    destruct (Z.of_nat (length g) <=? need).
    + destruct (need - Z.of_nat (length g) =? 0).
      * exists g. cbn. split; [reflexivity|].
        split; [intros x y Hx; now apply elem_of_nil in Hx|].
        split; [intros x y _ Hy; now apply elem_of_nil in Hy|now left].
      * destruct (IH (need - Z.of_nat (length g)) (won ++ g) Hrest)
          as (added & Hw & Heq & Hlt & Htie).
        exists (g ++ added). split; [now rewrite Hw, app_assoc|].
        split; [exact Heq|]. split.
        -- intros x y Hx Hy. apply elem_of_app in Hx as [Hx|Hx]; [|now apply Hlt].
           destruct Htie as [Htie|Htie]; [rewrite Htie in Hy; now apply elem_of_nil in Hy|].
           exact (Hlower x _ y Hx Htie Hy).
        -- destruct Htie as [Htie|Htie]; [now left|right; now right].
    + exists []. cbn. rewrite app_nil_r. split; [reflexivity|].
      split; [exact Hsame|].
      split; [intros x y Hx; now apply elem_of_nil in Hx|right; left].
Qed.
End Ranking.

(** X2. The resolver awards by rank: every winner has a strictly higher sort
    key (priority, amount, balance) than every tied bid, the tied bids all
    have one key, and no live bid whose (bidder, id) pair is left out has a
    higher key than a bid that is counted. *)
Theorem awards_follow_rank (a : RunningAuction) (dkp : gmap string CharacterDKP)
    (member_treshold : Z) :
  let r := determine_results a dkp member_treshold in
  let key := _bid_key dkp member_treshold in
  (forall x y, x ∈ winners r -> y ∈ tied r -> key_ltb (key y) (key x) = true)
  /\ (forall x y, x ∈ tied r -> y ∈ tied r -> key x = key y)
  /\ (forall x y,
        x ∈ winners r ++ tied r ->
        y ∈ bids a ->
        (forall z, z ∈ winners r ++ tied r -> bid_pair z <> bid_pair y) ->
        key_ltb (key x) (key y) = false).
Proof.
  cbv zeta.
  destruct (counted_prefix a dkp member_treshold) as [suf Hpre].
  pose proof (all_bids_sorted a dkp member_treshold) as Hsorted.
  destruct (award_ranked (_bid_key dkp member_treshold)
              (groupby (_bid_key dkp member_treshold) (all_bids a dkp member_treshold))
              (quantity (auction_item a)) []
              (groupby_ranked _ _ Hsorted)) as (added & Hw & Heq & Hlt & _).
  destruct (determine_results_fields a dkp member_treshold) as (Ew & Et & _).
  cbv zeta in Ew, Et. rewrite <- Ew, <- Et in *. clear Ew Et.
  cbn in Hw. split; [|split].
  - intros x y Hx Hy. rewrite Hw in Hx. now apply Hlt.
  - exact Heq.
  - intros x y Hx Hy Hout.
    destruct (filter_seen_covers
                (sorted_desc (_bid_key dkp member_treshold) (bids a)) ∅ y)
      as (y' & Hy' & Hp).
    { rewrite sorted_desc_perm. exact Hy. }
    { apply not_elem_of_empty. }
    fold (_filter_bids (sorted_desc (_bid_key dkp member_treshold) (bids a))) in Hy'.
    fold (all_bids a dkp member_treshold) in Hy'.
    assert (Hge : key_ge (_bid_key dkp member_treshold y')
                    (_bid_key dkp member_treshold y)).
    { apply (kept_is_highest a); [exact Hy'|exact Hy|now symmetry]. }
    assert (Hsuf : y' ∈ suf).
    { rewrite Hpre in Hy'. apply elem_of_app in Hy' as [Hy'|Hy']; [|exact Hy'].
      exfalso. apply (Hout y' Hy'). exact Hp. }
    apply list_elem_of_split in Hx as (l1 & l2 & Hx).
    rewrite Hpre, Hx, <- app_assoc in Hsorted. cbn in Hsorted.
    eapply key_ge_trans; [|exact Hge].
    apply (sorted_split _ _ _ _ _ Hsorted). apply elem_of_app. now right.
Qed.

Lemma awards_follow_rank_witness :
  let a := auction_with 2 [mkBid "alice" Raider 100 0; mkBid "bob" Member 80 0;
                           mkBid "carol" Member 80 0; mkBid "dave" Alt 10 0] in
  let r := determine_results a ∅ 20 in
  let key := _bid_key ∅ 20 in
  key_ltb (key (mkBid "bob" Member 80 0)) (key (mkBid "alice" Raider 100 0)) = true
  /\ key (mkBid "bob" Member 80 0) = key (mkBid "carol" Member 80 0)
  /\ key_ltb (key (mkBid "carol" Member 80 0)) (key (mkBid "dave" Alt 10 0)) = false.
Proof.
  intros a r key.
  destruct (awards_follow_rank a ∅ 20) as (H1 & H2 & H3).
  assert (Hw : winners r = [mkBid "alice" Raider 100 0]) by (vm_compute; reflexivity).
  assert (Ht : tied r = [mkBid "bob" Member 80 0; mkBid "carol" Member 80 0])
    by (vm_compute; reflexivity).
  fold r in H1, H2, H3. rewrite Hw, Ht in *.
  split; [|split].
  - apply H1; [left|left].
  - apply H2; [left|right; left].
  - apply H3.
    + cbn. right. right. left.
    + cbn. right. right. right. left.
    + intros z Hz. cbn in Hz.
      repeat (apply elem_of_cons in Hz as [->|Hz]); try discriminate.
      now apply elem_of_nil in Hz.
Defined.

(** ** De-duplication of bids *)

Lemma filter_seen_idem l : forall seen,
  filter_seen seen (filter_seen seen l) = filter_seen seen l.
Proof.
  induction l as [|b0 l IH]; cbn; intros seen; [reflexivity|].
  destruct (decide ((bidder b0, id b0) ∈ seen)) as [Hin|Hout]; [apply IH|].
  cbn. destruct (decide ((bidder b0, id b0) ∈ seen)); [contradiction|].
  now rewrite IH.
Qed.

Lemma filter_seen_distinct l : forall seen,
  NoDup (bid_pair <$> l) ->
  (forall b, b ∈ l -> bid_pair b ∉ seen) ->
  filter_seen seen l = l.
Proof.
  induction l as [|b0 l IH]; cbn; intros seen Hnd Hseen; [reflexivity|].
  apply NoDup_cons in Hnd as [Hb0 Hnd]. fold (bid_pair b0).
  destruct (decide (bid_pair b0 ∈ seen)) as [Hin|Hout].
  - exfalso. apply (Hseen b0); [left|exact Hin].
  - f_equal. apply IH; [exact Hnd|].
    intros b Hb Hin. apply elem_of_union in Hin as [Hin|Hin].
    + apply elem_of_singleton in Hin. apply Hb0. rewrite <- Hin.
      apply list_elem_of_fmap. eauto.
    + apply (Hseen b); [now right|exact Hin].
Qed.

Lemma filter_seen_sublist l : forall seen, filter_seen seen l `sublist_of` l.
Proof.
  induction l as [|b0 l IH]; cbn; intros seen; [constructor|].
  destruct (decide ((bidder b0, id b0) ∈ seen)).
  - apply sublist_cons. apply IH.
  - apply sublist_skip. apply IH.
Qed.

(** X3. [_filter_bids] keeps the bids in their order and drops only
    duplicates of a (bidder, id) pair: its result is a sub-list of its
    input in which every pair of the input occurs exactly once, filtering
    again changes nothing, and a list without two bids of one pair is
    returned as it is. *)
Theorem filter_bids_keeps_one_bid_per_pair (l : list Bid) :
  _filter_bids l `sublist_of` l
  /\ NoDup (bid_pair <$> _filter_bids l)
  /\ (forall x, x ∈ l -> exists y, y ∈ _filter_bids l /\ bid_pair y = bid_pair x)
  /\ _filter_bids (_filter_bids l) = _filter_bids l
  /\ (NoDup (bid_pair <$> l) -> _filter_bids l = l).
Proof.
  unfold _filter_bids. split; [apply filter_seen_sublist|].
  split; [apply filter_seen_nodup|]. split.
  - intros x Hx. apply filter_seen_covers; [exact Hx|apply not_elem_of_empty].
  - split; [apply filter_seen_idem|].
    intros Hnd. apply filter_seen_distinct; [exact Hnd|].
    intros b _. apply not_elem_of_empty.
Qed.

Lemma filter_bids_keeps_one_bid_per_pair_witness :
  _filter_bids [mkBid "alice" Raider 50 0; mkBid "alice" Alt 30 1]
  = [mkBid "alice" Raider 50 0; mkBid "alice" Alt 30 1].
Proof.
  destruct (filter_bids_keeps_one_bid_per_pair
              [mkBid "alice" Raider 50 0; mkBid "alice" Alt 30 1]) as (_ & _ & _ & _ & H).
  apply H.
  apply (bool_decide_unpack (NoDup [("alice", 0); ("alice", 1)])). vm_compute. exact I.
Defined.

(** ** Accepted bids *)

(** X4. [validate_bid] accepts a bid exactly when the amount lies between
    the minimum and the maximum, does not exceed the bidder's balance, and is
    all-in, or echoes a live bid, or is below the valuable threshold, or is
    a multiple of 5.  An accepted bid has an empty reason and a rejected one
    a non-empty reason; a bidder absent from the balance snapshot can have
    no positive bid accepted. *)
Theorem validate_bid_accepts_iff (who : string) (bid_amount : Z) (bids : list Bid)
    (dkp : gmap string CharacterDKP) (valuable_threshold minimum maximum : Z) :
  let balance := current (dkp_get dkp who) in
  let verdict :=
    validate_bid who bid_amount bids dkp valuable_threshold minimum maximum in
  (verdict.1 = true <->
     minimum <= bid_amount <= maximum
     /\ bid_amount <= balance
     /\ (bid_amount = balance \/ bid_amount ∈ (bid <$> bids)
         \/ bid_amount < valuable_threshold \/ bid_amount mod 5 = 0))
  /\ (verdict.1 = true <-> verdict.2 = [])
  /\ (dkp !! who = None -> verdict.1 = true -> bid_amount <= 0).
Proof.
  intros balance verdict. subst verdict.
  rewrite validate_bid_rules. fold balance.
  assert (Habsent : dkp !! who = None -> balance = 0).
  { intros H. subst balance. unfold dkp_get. rewrite H. reflexivity. }
  unfold validate_rules, waived.
  split; [|split].
  - split_tests; cbn; (split; [try discriminate; intros _|intros (Hx & Hy & Hz)]);
      try reflexivity; try (repeat split; try lia; tauto);
      exfalso; intuition (congruence || lia).
  - split_tests; cbn; split; try discriminate; reflexivity.
  - intros Hnone. specialize (Habsent Hnone). 
    split_tests; cbn; try discriminate; intros _; lia.
Qed.

Lemma validate_bid_accepts_iff_witness :
  (validate_bid "zed" 0 [] balances 50 0 1000).1 = true
  /\ ((validate_bid "zed" 5 [] balances 50 0 1000).1 = true -> 5 <= 0).
Proof.
  destruct (validate_bid_accepts_iff "zed" 0 [] balances 50 0 1000) as (H0 & _ & _).
  destruct (validate_bid_accepts_iff "zed" 5 [] balances 50 0 1000) as (_ & _ & H5).
  split.
  - apply H0. split; [split; lia|]. split; [vm_compute; discriminate|].
    left. reflexivity.
  - apply H5. reflexivity.
Defined.

(** ** When an auction may close *)

Lemma fixed_end_bounds a :
  started_at a + seconds 90 <= fixed_end a
  /\ (forall lb, last_bid a = Some lb -> lb + seconds 30 <= fixed_end a)
  /\ (forall lu, last_updated a = Some lu -> awaits_update a = false ->
                 lu + seconds 15 <= fixed_end a).
Proof.
  unfold fixed_end, awaits_update, later, seconds.
  destruct (last_bid a) as [lb|], (last_updated a) as [lu|]; cbn.
  - destruct (Z.gtb_spec (lb + 30 * 1000000) (started_at a + 90 * 1000000)),
      (Z.gtb_spec lu lb), (Z.ltb_spec lu lb); cbn;
      repeat match goal with
        | |- context [?x >? ?y] => destruct (Z.gtb_spec x y)
        end;
      repeat split; try lia; intros ? [= <-]; try lia; intros; try discriminate; lia.
  - destruct (Z.gtb_spec (lb + 30 * 1000000) (started_at a + 90 * 1000000));
      repeat split; try lia; intros ? [= <-]; try lia; discriminate.
  - destruct (Z.gtb_spec (lu + 15 * 1000000) (started_at a + 90 * 1000000));
      repeat split; try lia; try discriminate; intros ? [= <-]; lia.
  - repeat split; try lia; discriminate.
Qed.

Lemma fixed_end_is_a_bound a :
  fixed_end a = started_at a + seconds 90
  \/ (exists lb, last_bid a = Some lb /\ fixed_end a = lb + seconds 30)
  \/ (exists lu, last_updated a = Some lu /\ fixed_end a = lu + seconds 15).
Proof.
  unfold fixed_end, later.
  destruct (last_bid a) as [lb|], (last_updated a) as [lu|]; cbn;
    repeat match goal with
      | |- context [?x >? ?y] => destruct (Z.gtb_spec x y)
      end; eauto.
Qed.

Lemma awaits_update_false_iff a :
  awaits_update a = false <->
  exists lu, last_updated a = Some lu /\ forall lb, last_bid a = Some lb -> lb <= lu.
Proof.
  unfold awaits_update.
  destruct (last_updated a) as [lu|]; [|split; [discriminate|intros (? & [=] & _)]].
  destruct (last_bid a) as [lb|].
  - destruct (Z.ltb_spec lu lb) as [Hlt|Hge]; split; try discriminate.
    + intros (lu' & [= <-] & Hb). specialize (Hb _ eq_refl). lia.
    + intros _. exists lu. split; [reflexivity|]. intros ? [= <-]. exact Hge.
    + reflexivity.
  - split; [|reflexivity]. intros _. exists lu. split; [reflexivity|]. discriminate.
Qed.

(** X5. The time left is 0 exactly when the four rules of the closing time
    are met: an update has been posted and no bid came after it, 90 seconds
    have passed since the start, 30 seconds since the last bid, if any, and
    15 seconds since the last update.  So an auction that was never updated,
    or that received a bid after its last update, always has time left. *)
Theorem time_left_zero_iff (a : RunningAuction) (now : datetime) :
  time_left a now = 0 <->
  exists lu,
    last_updated a = Some lu
    /\ (forall lb, last_bid a = Some lb -> lb <= lu /\ lb + seconds 30 <= now)
    /\ started_at a + seconds 90 <= now
    /\ lu + seconds 15 <= now.
Proof.
  rewrite time_left_eq.
  destruct (fixed_end_bounds a) as (Hstart & Hbid & Hupd).
  destruct (awaits_update a) eqn:Haw.
  - split; [unfold seconds; lia|].
    intros (lu & Hlu & Hb & _).
    assert (Hfalse : awaits_update a = false).
    { apply awaits_update_false_iff. exists lu. split; [exact Hlu|].
      intros lb Hlb. now apply Hb. }
    congruence.
  - pose proof (proj1 (awaits_update_false_iff a) Haw) as (lu & Hlu & Hle).
    specialize (Hupd lu Hlu eq_refl).
    split.
    + intros Hz. exists lu. split; [exact Hlu|].
      split; [|lia]. intros lb Hlb. specialize (Hbid lb Hlb).
      split; [now apply Hle|lia].
    + intros (lu' & Hlu' & Hb & Hs & Hu).
      rewrite Hlu in Hlu'. injection Hlu' as <-.
      destruct (fixed_end_is_a_bound a) as [E|[(lb & Hlb & E)|(lu' & Hlu' & E)]].
      * lia.
      * destruct (Hb lb Hlb). lia.
      * rewrite Hlu in Hlu'. injection Hlu' as <-. lia.
Qed.

(** ** What a call can touch *)

(** A guarded operation called on [c] either leaves the world as it is or
    assigns the slot of [c], which held an auction; its messages are all for
    [c]. *)
Lemma channel_call_shape e w op c out w' :
  op_channel op = Some c ->
  Auctioneer.call op e w = Some (tt, out, w') ->
  Forall (fun m => channel m = c) out
  /\ (w' = w
      \/ exists a slot k,
           dict_get (Auctioneer._channels (Auctioneer.self w)) c = Some (Some a)
           /\ w' = with_slot w c slot k
           /\ (Auctioneer.clock_reads w <= k)%nat).
Proof.
  intros Hop H.
  assert (Hrej : forall m, Auctioneer.call op e w = Some (tt, [m], w) -> channel m = c ->
                 Forall (fun m => channel m = c) out /\ w' = w).
  { intros m E Hm. rewrite E in H. injection H as <- <-. split; [|reflexivity].
    repeat constructor. exact Hm. }
  destruct (dict_get (Auctioneer._channels (Auctioneer.self w)) c) as [[a|]|] eqn:Hslot.
  2:{ destruct (call_rejected e w op c Hop) as (m & E & _ & Hm); [tauto|].
      destruct (Hrej m E Hm). auto. }
  2:{ destruct (call_rejected e w op c Hop) as (m & E & _ & Hm); [tauto|].
      destruct (Hrej m E Hm). auto. }
  destruct (decide (status a ∈ op_forbidden op)) as [Hf|Hf].
  { destruct (call_rejected e w op c Hop) as (m & E & _ & Hm); [eauto|].
    destruct (Hrej m E Hm). auto. }
  clear Hrej.
  destruct op; try discriminate; injection Hop as ->; cbn [Auctioneer.call] in H;
    cbn [op_forbidden] in Hf.
  - assert (Hst : status a = Running).
    { destruct (status a); [reflexivity|exfalso; apply Hf..].
      - right; left.
      - left. }
    rewrite (bid_running e w c a Hslot _ _ _ _ Hst) in H.
    destruct (validate_bid _ _ _ _ _ _ _) as [[|] err]; injection H as <- <-.
    + split; [repeat constructor|]. right. eexists a, _, _.
      split; [reflexivity|]. split; [reflexivity|]. lia.
    + split; [repeat constructor|]. now left.
  - assert (Hst : status a = Running).
    { destruct (status a); [reflexivity|exfalso; apply Hf..].
      - right; left.
      - left. }
    rewrite (stop_running e w c a Hslot Hst) in H. injection H as <- <-.
    split; [repeat constructor|]. right. eexists a, _, _.
    split; [reflexivity|]. split; [reflexivity|]. lia.
  - assert (Hst : status a = Finished).
    { destruct (status a); [exfalso; apply Hf; left|exfalso; apply Hf; right; left|reflexivity]. }
    rewrite (accept_finished e w c a Hslot _ Hst) in H. injection H as <- <-.
    split; [|now left]. destruct (negb force && _); repeat constructor.
  - assert (Hst : status a <> Running).
    { intros E. apply Hf. rewrite E. left. }
    rewrite (reopen_not_running e w c a Hslot Hst) in H. injection H as <- <-.
    split; [repeat constructor|]. right. eexists a, _, _.
    split; [reflexivity|]. split; [reflexivity|]. lia.
  - rewrite (restart_any e w c a Hslot) in H. injection H as <- <-.
    split; [repeat constructor|]. right. eexists a, _, _.
    split; [reflexivity|]. split; [reflexivity|]. lia.
  - rewrite (delete_any e w c a Hslot) in H. injection H as <- <-.
    split; [repeat constructor|]. right. eexists a, _, _.
    split; [reflexivity|]. split; [reflexivity|]. lia.
Qed.

(** X6. A guarded operation touches its own channel only: every other
    channel keeps its slot, the pending items, the limits, the balance
    snapshot and the count of random draws stay as they were, and every
    message is addressed to the channel of the call. *)
Theorem channel_operations_are_isolated (e : Auctioneer.Env) (w w' : Auctioneer.World)
    (op : Auctioneer.Op) (c : string) (out : list AuctionMessage) :
  op_channel op = Some c ->
  Auctioneer.call op e w = Some (tt, out, w') ->
  (forall c', c' <> c ->
     dict_get (Auctioneer._channels (Auctioneer.self w')) c'
     = dict_get (Auctioneer._channels (Auctioneer.self w)) c')
  /\ Auctioneer._pending_items (Auctioneer.self w')
     = Auctioneer._pending_items (Auctioneer.self w)
  /\ Auctioneer._limits (Auctioneer.self w') = Auctioneer._limits (Auctioneer.self w)
  /\ Auctioneer._dkp (Auctioneer.self w') = Auctioneer._dkp (Auctioneer.self w)
  /\ Auctioneer.random_draws w' = Auctioneer.random_draws w
  /\ Forall (fun m => channel m = c) out.
Proof.
  intros Hop H.
  destruct (channel_call_shape _ _ _ _ _ _ Hop H) as [Hout [->|(a & slot & k & _ & -> & _)]].
  - repeat split; auto.
  - cbn. repeat split; auto.
    intros c' Hc'. rewrite dict_get_set. destruct (decide (c' = c)); [contradiction|reflexivity].
Qed.

Definition busy_world : Auctioneer.World :=
  {| Auctioneer.self :=
       {| Auctioneer._pending_items := [sample_item];
          Auctioneer._channels :=
            [("raid", Some fresh_auction); ("spare", Some expired_auction)];
          Auctioneer._limits := limits;
          Auctioneer._dkp := balances |};
     Auctioneer.clock_reads := 7;
     Auctioneer.random_draws := 3 |}.

Lemma channel_operations_are_isolated_witness :
  exists out w',
    Auctioneer.call (Auctioneer.OpBid "raid" "alice" 50 0 Raider) env busy_world
    = Some (tt, out, w')
    /\ dict_get (Auctioneer._channels (Auctioneer.self w')) "spare"
       = Some (Some expired_auction)
    /\ Auctioneer._pending_items (Auctioneer.self w') = [sample_item]
    /\ Forall (fun m => channel m = "raid") out.
Proof.
  eexists _, _. 
  assert (Hcall : Auctioneer.call (Auctioneer.OpBid "raid" "alice" 50 0 Raider) env busy_world
                  = Some (tt,
                          [hidden_note "raid" "Bid Accepted!";
                           {| channel := "raid";
                              message := [Str "alice"; Str " has bid "; Int 50];
                              hidden := false |}],
                          with_slot busy_world "raid"
                            (Some (with_bid fresh_auction (mkBid "alice" Raider 50 0)
                                     (seconds 7))) 8))
    by (vm_compute; reflexivity).
  split; [exact Hcall|].
  destruct (channel_operations_are_isolated env busy_world _
              (Auctioneer.OpBid "raid" "alice" 50 0 Raider) "raid" _ eq_refl Hcall)
    as (Hother & Hpend & _ & _ & _ & Hout).
  split; [|split; [exact Hpend|exact Hout]].
  rewrite (Hother "spare"); [reflexivity|discriminate].
Defined.

(** ** More on the tick *)

Lemma run_outcome_public e s k c slot slot' out n :
  run_outcome e s k c slot slot' out n -> Forall (fun m => hidden m = false) out.
Proof. destruct 1; repeat constructor. Qed.

Lemma items_outcome_public e s k entries entries' out n :
  items_outcome e s k entries entries' out n ->
  Forall (fun m => hidden m = false) out.
Proof.
  induction 1 as [|k c slot slot' out1 n1 rest rest' out2 n2 H1 _ IH]; [constructor|].
  apply Forall_app. split; [exact (run_outcome_public _ _ _ _ _ _ _ _ H1)|exact IH].
Qed.

(** The loop body of [run] leaves an empty slot empty and keeps the
    auction of a slot, changing at most its status, cached results and
    update time. *)
Lemma run_outcome_keeps e s k c slot slot' out n :
  run_outcome e s k c slot slot' out n ->
  match slot with
  | None => slot' = None
  | Some a =>
      exists a',
        slot' = Some a'
        /\ auction_item a' = auction_item a /\ bids a' = bids a
        /\ started_at a' = started_at a /\ last_bid a' = last_bid a
        /\ (status a <> Running -> a' = a /\ out = [])
  end.
Proof.
  destruct 1; [reflexivity|..]; eexists; (split; [reflexivity|]);
    cbn; repeat split; try reflexivity; intros; try contradiction; reflexivity.
Qed.

(** X7. A tick ([run]) neither fills nor empties a slot and keeps the item,
    the bids, the start time and the time of the last bid of every auction;
    an auction that is not running is left exactly as it is.  The pending
    items, the limits, the balance snapshot and the random draws are not
    touched, and the clock is only read. *)
Theorem tick_keeps_auctions (e : Auctioneer.Env) (w w' : Auctioneer.World)
    (out : list AuctionMessage) :
  Auctioneer.run e w = Some (tt, out, w') ->
  (forall c,
     match dict_get (Auctioneer._channels (Auctioneer.self w)) c with
     | None => dict_get (Auctioneer._channels (Auctioneer.self w')) c = None
     | Some None => dict_get (Auctioneer._channels (Auctioneer.self w')) c = Some None
     | Some (Some a) =>
         exists a',
           dict_get (Auctioneer._channels (Auctioneer.self w')) c = Some (Some a')
           /\ auction_item a' = auction_item a /\ bids a' = bids a
           /\ started_at a' = started_at a /\ last_bid a' = last_bid a
           /\ (status a <> Running -> a' = a)
     end)
  /\ Auctioneer._pending_items (Auctioneer.self w')
     = Auctioneer._pending_items (Auctioneer.self w)
  /\ Auctioneer._limits (Auctioneer.self w') = Auctioneer._limits (Auctioneer.self w)
  /\ Auctioneer._dkp (Auctioneer.self w') = Auctioneer._dkp (Auctioneer.self w)
  /\ Auctioneer.random_draws w' = Auctioneer.random_draws w
  /\ (Auctioneer.clock_reads w <= Auctioneer.clock_reads w')%nat.
Proof.
  intros Hrun.
  destruct (run_outcome_all e w) as (entries' & out' & n & E & Hitems).
  rewrite E in Hrun. injection Hrun as <- <-. cbn.
  split; [|repeat split; lia].
  intros c. pose proof (items_outcome_lookup _ _ _ _ _ _ _ c Hitems) as L.
  destruct (dict_get (Auctioneer._channels (Auctioneer.self w)) c) as [slot|]; [|exact L].
  destruct L as (k' & slot' & out1 & n1 & _ & Hr & Hget & _).
  apply run_outcome_keeps in Hr. destruct slot as [a|].
  - destruct Hr as (a' & -> & Hi & Hb & Hs & Hl & Hsame).
    exists a'. split; [exact Hget|]. repeat split; try assumption.
    intros Hst. now apply Hsame.
  - now subst slot'.
Qed.

Lemma tick_keeps_auctions_witness :
  exists out w' a',
    Auctioneer.run env expired_world = Some (tt, out, w')
    /\ dict_get (Auctioneer._channels (Auctioneer.self w')) "raid" = Some (Some a')
    /\ bids a' = bids expired_auction
    /\ dict_get (Auctioneer._channels (Auctioneer.self w')) "spare" = Some None.
Proof.
  destruct (call_total env expired_world Auctioneer.OpRun) as (out & w' & Hrun).
  cbn [Auctioneer.call] in Hrun.
  destruct (tick_keeps_auctions env expired_world w' out Hrun) as (Hslots & _).
  pose proof (Hslots "raid") as Hraid. pose proof (Hslots "spare") as Hspare.
  cbn in Hraid, Hspare.
  destruct Hraid as (a' & Hget & _ & Hb & _).
  exists out, w', a'. repeat split; assumption.
Defined.

Lemma time_left_zero_updated a now :
  time_left a now = 0 ->
  exists lu, last_updated a = Some lu /\ forall lb, last_bid a = Some lb -> lb <= lu.
Proof.
  intros Hz. apply awaits_update_false_iff.
  rewrite time_left_eq in Hz. destruct (awaits_update a); [|reflexivity].
  unfold seconds in Hz. lia.
Qed.

(** X8. A tick changes the status of an auction only by closing it, and it
    closes only an auction that has had its final update: the auction was
    running, an update had been posted and no bid had come after it.  The
    closed auction is the same auction with status [Finished] and, as cached
    results, what [determine_results] gives for it with the current balances
    and member threshold. *)
Theorem tick_closes_only_after_final_update (e : Auctioneer.Env)
    (w w' : Auctioneer.World) (out : list AuctionMessage) (c : string)
    (a a' : RunningAuction) :
  Auctioneer.run e w = Some (tt, out, w') ->
  dict_get (Auctioneer._channels (Auctioneer.self w)) c = Some (Some a) ->
  dict_get (Auctioneer._channels (Auctioneer.self w')) c = Some (Some a') ->
  status a' <> status a ->
  status a = Running
  /\ a' = closed a (determine_results a (Auctioneer._dkp (Auctioneer.self w))
                      (member (Auctioneer._limits (Auctioneer.self w))))
  /\ exists lu, last_updated a = Some lu
                /\ forall lb, last_bid a = Some lb -> lb <= lu.
Proof.
  intros Hrun Hget Hget' Hst.
  destruct (run_outcome_all e w) as (entries' & out' & n & E & Hitems).
  rewrite E in Hrun. injection Hrun as <- <-. cbn in Hget'.
  pose proof (items_outcome_lookup _ _ _ _ _ _ _ c Hitems) as L.
  rewrite Hget in L. destruct L as (k' & slot' & out1 & n1 & _ & Hr & Hafter & _).
  rewrite Hget' in Hafter. injection Hafter as <-.
  inversion Hr; subst; try (now contradiction Hst).
  split; [assumption|]. split; [reflexivity|].
  eapply time_left_zero_updated. eassumption.
Qed.

Lemma tick_closes_only_after_final_update_witness :
  exists out w' a',
    Auctioneer.run env expired_world = Some (tt, out, w')
    /\ dict_get (Auctioneer._channels (Auctioneer.self w')) "raid" = Some (Some a')
    /\ a' = closed expired_auction (determine_results expired_auction balances 20)
    /\ exists lu, last_updated expired_auction = Some lu
                  /\ forall lb, last_bid expired_auction = Some lb -> lb <= lu.
Proof.
  assert (Hrun : Auctioneer.run env expired_world
                 = Some (tt,
                         [closing_note "raid" (determine_results expired_auction balances 20)],
                         with_channels expired_world
                           [("spare", None);
                            ("raid", Some (closed expired_auction
                                             (determine_results expired_auction balances 20)))]
                           1))
    by (vm_compute; reflexivity).
  eexists _, _, _. split; [exact Hrun|]. split; [reflexivity|].
  destruct (tick_closes_only_after_final_update env expired_world _ _ "raid"
              expired_auction _ Hrun eq_refl eq_refl) as (_ & H1 & H2).
  - discriminate.
  - split; [exact H1|exact H2].
Defined.

(** X9. The messages of a tick are all public, and for each channel there
    is at most one; a channel that is empty, or whose auction is stopped or
    finished, gets none. *)
Theorem tick_posts_at_most_one_public_message (e : Auctioneer.Env)
    (w w' : Auctioneer.World) (out : list AuctionMessage) :
  NoDup (Auctioneer._channels (Auctioneer.self w)).*1 ->
  Auctioneer.run e w = Some (tt, out, w') ->
  Forall (fun m => hidden m = false) out
  /\ forall c,
       (length (filter (fun m => channel m = c) out) <= 1)%nat
       /\ ((forall a, dict_get (Auctioneer._channels (Auctioneer.self w)) c = Some (Some a) ->
                      status a <> Running) ->
           filter (fun m => channel m = c) out = []).
Proof.
  intros Hnd Hrun.
  destruct (run_outcome_all e w) as (entries' & out' & n & E & Hitems).
  rewrite E in Hrun. injection Hrun as <- <-.
  split; [exact (items_outcome_public _ _ _ _ _ _ _ Hitems)|].
  intros c. pose proof (items_outcome_lookup _ _ _ _ _ _ _ c Hitems) as L.
  destruct (dict_get (Auctioneer._channels (Auctioneer.self w)) c) as [slot|] eqn:Hget.
  - destruct L as (k' & slot' & out1 & n1 & _ & Hr & _ & Hf).
    rewrite (Hf Hnd). split.
    + destruct Hr; cbn; lia.
    + intros Hidle. destruct Hr; try reflexivity;
        exfalso; eapply Hidle; try reflexivity; assumption.
  - assert (Hnone : filter (fun m => channel m = c) out' = []).
    { apply filter_none.
      eapply Forall_impl; [exact (items_outcome_channels _ _ _ _ _ _ _ Hitems)|].
      cbn. intros m Hm Hc. subst c.
      apply dict_get_None_keys in Hget. contradiction. }
    rewrite Hnone. split; [cbn; lia|reflexivity].
Qed.

Lemma tick_posts_at_most_one_public_message_witness :
  exists out w',
    Auctioneer.run env expired_world = Some (tt, out, w')
    /\ Forall (fun m => hidden m = false) out
    /\ (length (filter (fun m => channel m = "raid") out) <= 1)%nat
    /\ filter (fun m => channel m = "spare") out = [].
Proof.
  destruct (call_total env expired_world Auctioneer.OpRun) as (out & w' & Hrun).
  cbn [Auctioneer.call] in Hrun.
  destruct (tick_posts_at_most_one_public_message env expired_world w' out) as (Hpub & Hc).
  - apply (bool_decide_unpack (NoDup ["spare"; "raid"])). vm_compute. exact I.
  - exact Hrun.
  - exists out, w'. split; [exact Hrun|]. split; [exact Hpub|].
    split; [apply (Hc "raid")|].
    apply (Hc "spare"). intros a Ha. vm_compute in Ha. discriminate Ha.
Defined.

(** ** Items and bids across calls *)

Lemma set_add_elem (b x : Bid) (s : list Bid) :
  x ∈ Auctioneer.set_add b s <-> x = b \/ x ∈ s.
Proof.
  unfold Auctioneer.set_add. destruct (bool_decide_reflect (b ∈ s)) as [Hin|Hout].
  - split; [now right|]. intros [->|H]; assumption.
  - rewrite elem_of_app, list_elem_of_singleton. tauto.
Qed.

(** X10. Whatever the call, a channel that holds an auction before and
    after it holds one for the same item, and bids are never dropped except
    by [restart] (and [delete], which frees the slot): the live bids are
    unchanged, or the call is a [bid] and they are the old ones with the new
    bid added, or the call is a [restart] and there are none. *)
Theorem calls_keep_item_and_bids (e : Auctioneer.Env) (w w' : Auctioneer.World)
    (op : Auctioneer.Op) (out : list AuctionMessage) (c : string)
    (a a' : RunningAuction) :
  NoDup (Auctioneer._channels (Auctioneer.self w)).*1 ->
  Auctioneer.call op e w = Some (tt, out, w') ->
  dict_get (Auctioneer._channels (Auctioneer.self w)) c = Some (Some a) ->
  dict_get (Auctioneer._channels (Auctioneer.self w')) c = Some (Some a') ->
  auction_item a' = auction_item a
  /\ (bids a' = bids a
      \/ (exists who bid_amount bid_id rk,
            op = Auctioneer.OpBid c who bid_amount bid_id rk
            /\ bids a' = Auctioneer.set_add (mkBid who rk bid_amount bid_id) (bids a))
      \/ (op = Auctioneer.OpRestart c /\ bids a' = []))
  /\ (op <> Auctioneer.OpRestart c -> forall b, b ∈ bids a -> b ∈ bids a').
Proof.
  intros Hnd Hcall Hget Hget'.
  destruct (call_channels_step _ _ _ _ _ Hnd Hcall) as [_ Hstep].
  specialize (Hstep c). rewrite Hget in Hstep.
  destruct Hstep as (slot' & Hafter & Hstep). rewrite Hget' in Hafter.
  injection Hafter as <-.
  inversion Hstep; subst; cbn.
  - split; [reflexivity|]. split; [now left|auto].
  - split; [reflexivity|].
    split; [right; left; do 4 eexists; split; reflexivity|].
    intros _ b Hb. apply set_add_elem. now right.
  - split; [reflexivity|]. split; [now left|auto].
  - split; [reflexivity|]. split; [now left|auto].
  - split; [reflexivity|]. split; [right; right; auto|].
    intros Hne. now contradiction Hne.
  - split; [reflexivity|]. split; [now left|auto].
  - split; [reflexivity|]. split; [now left|auto].
Qed.

Lemma calls_keep_item_and_bids_witness :
  exists out w' a',
    Auctioneer.call (Auctioneer.OpStop "spare") env busy_world = Some (tt, out, w')
    /\ dict_get (Auctioneer._channels (Auctioneer.self w')) "spare" = Some (Some a')
    /\ auction_item a' = sample_item
    /\ mkBid "alice" Raider 50 0 ∈ bids a'.
Proof.
  destruct (call_total env busy_world (Auctioneer.OpStop "spare")) as (out & w' & Hcall).
  assert (Hnd : NoDup (Auctioneer._channels (Auctioneer.self busy_world)).*1).
  { apply (bool_decide_unpack (NoDup ["raid"; "spare"])). vm_compute. exact I. }
  destruct (call_channels_step _ _ _ _ _ Hnd Hcall) as [_ Hstep].
  specialize (Hstep "spare"). cbn in Hstep.
  destruct Hstep as (slot' & Hafter & Hstep).
  assert (Hsome : exists a', slot' = Some a').
  { inversion Hstep; subst; try discriminate; eauto. }
  destruct Hsome as [a' ->].
  destruct (calls_keep_item_and_bids env busy_world w' (Auctioneer.OpStop "spare") out
              "spare" expired_auction a' Hnd Hcall eq_refl Hafter) as (Hi & _ & Hb).
  exists out, w', a'. split; [exact Hcall|]. split; [exact Hafter|].
  split; [exact Hi|]. apply Hb; [discriminate|]. cbn. left.
Defined.

(** ** Limits *)

Lemma next_loop_keeps_config e pending : forall w out w',
  Auctioneer.next_loop pending e w = Some (tt, out, w') ->
  Auctioneer._limits (Auctioneer.self w') = Auctioneer._limits (Auctioneer.self w)
  /\ Auctioneer._dkp (Auctioneer.self w') = Auctioneer._dkp (Auctioneer.self w).
Proof.
  induction pending as [|i rest IH]; intros w out w' H.
  - cbn in H. injection H as <- <-. split; reflexivity.
  - rewrite next_loop_cons in H.
    destruct (forallb _ _); [injection H as <- <-; split; reflexivity|].
    destruct (empty_channels (Auctioneer.self w) !! _) as [c|]; [|discriminate].
    cbv zeta in H.
    destruct (Auctioneer.next_loop rest e _) as [[[[] out0] w0]|] eqn:Hrest;
      [|discriminate].
    injection H as _ <-. apply IH in Hrest. exact Hrest.
Qed.

(** No call changes the limits, and only [update_dkp] changes the balances. *)
Lemma call_keeps_config e w op out w' :
  Auctioneer.call op e w = Some (tt, out, w') ->
  Auctioneer._limits (Auctioneer.self w') = Auctioneer._limits (Auctioneer.self w)
  /\ ((forall dkp, op <> Auctioneer.OpUpdateDkp dkp) ->
      Auctioneer._dkp (Auctioneer.self w') = Auctioneer._dkp (Auctioneer.self w)).
Proof.
  intros H. destruct (op_channel op) as [c|] eqn:Hop.
  - destruct (channel_call_shape _ _ _ _ _ _ Hop H) as [_ [->|(a & slot & k & _ & -> & _)]];
      split; reflexivity.
  - destruct op; try discriminate; cbn [Auctioneer.call] in H.
    + injection H as _ <-. split; reflexivity.
    + injection H as _ <-. split; [reflexivity|]. intros Hne. now contradiction (Hne dkp).
    + destruct (run_outcome_all e w) as (entries' & out' & n & E & _).
      rewrite E in H. injection H as _ <-. split; reflexivity.
    + unfold Auctioneer.next, Auctioneer.bind, Auctioneer.get_self in H.
      destruct (Auctioneer.next_loop _ e w) as [[[[] out0] w0]|] eqn:Hloop; [|discriminate].
      injection H as _ <-. apply next_loop_keeps_config in Hloop.
      destruct Hloop. split; auto.
Qed.

Lemma validate_bid_accept_bounds who bid_amount bids dkp valuable_threshold minimum maximum :
  (validate_bid who bid_amount bids dkp valuable_threshold minimum maximum).1 = true ->
  minimum <= bid_amount <= maximum /\ bid_amount <= current (dkp_get dkp who).
Proof.
  rewrite validate_bid_rules. unfold validate_rules.
  destruct (Z.gtb_spec bid_amount maximum); [discriminate|].
  destruct (Z.ltb_spec bid_amount minimum); [discriminate|].
  destruct (negb _ && _ && _); [discriminate|].
  destruct (Z.gtb_spec bid_amount (current (dkp_get dkp who))); [discriminate|].
  intros _. lia.
Qed.

(** What [bid] does: nothing, or it adds a bid that the validator accepted. *)
Lemma bid_effect e w c who bid_amount bid_id rk out w' :
  Auctioneer.bid c who bid_amount bid_id rk e w = Some (tt, out, w') ->
  w' = w
  \/ exists a,
       dict_get (Auctioneer._channels (Auctioneer.self w)) c = Some (Some a)
       /\ status a = Running
       /\ (validate_bid who bid_amount (bids a) (Auctioneer._dkp (Auctioneer.self w))
             (valuable (Auctioneer._limits (Auctioneer.self w)))
             (minimum (Auctioneer._limits (Auctioneer.self w)))
             (maximum (Auctioneer._limits (Auctioneer.self w)))).1 = true
       /\ w' = with_slot w c
                 (Some (with_bid a (mkBid who rk bid_amount bid_id)
                          (Auctioneer.utcnow_at e (Auctioneer.clock_reads w))))
                 (S (Auctioneer.clock_reads w)).
Proof.
  intros H.
  change (Auctioneer.call (Auctioneer.OpBid c who bid_amount bid_id rk) e w
          = Some (tt, out, w')) in H.
  destruct (dict_get (Auctioneer._channels (Auctioneer.self w)) c) as [[a|]|] eqn:Hslot.
  2:{ destruct (call_rejected e w (Auctioneer.OpBid c who bid_amount bid_id rk) c eq_refl)
        as (m & E & _); [tauto|].
      rewrite E in H. injection H as _ <-. now left. }
  2:{ destruct (call_rejected e w (Auctioneer.OpBid c who bid_amount bid_id rk) c eq_refl)
        as (m & E & _); [tauto|].
      rewrite E in H. injection H as _ <-. now left. }
  destruct (decide (status a = Running)) as [Hst|Hst].
  - cbn [Auctioneer.call] in H.
    rewrite (bid_running e w c a Hslot _ _ _ _ Hst) in H.
    destruct (validate_bid _ _ _ _ _ _ _) as [[|] err] eqn:Hv; injection H as _ <-.
    + right. exists a. rewrite Hv. repeat split; auto.
    + now left.
  - destruct (call_rejected e w (Auctioneer.OpBid c who bid_amount bid_id rk) c eq_refl)
      as (m & E & _).
    { right. right. exists a. split; [exact Hslot|]. cbn.
      destruct (status a); [contradiction|right; left|left]. }
    rewrite E in H. injection H as _ <-. now left.
Qed.

(** X11. In every world reachable from a new [Auctioneer] the limits are
    those it was built with, and every live bid of every auction lies
    between its minimum and its maximum: only validated bids enter the
    live set. *)
Theorem live_bids_are_within_limits (e : Auctioneer.Env) (channels : list string)
    (lim : AuctionLimits) (w : Auctioneer.World) :
  reachable e channels lim w ->
  Auctioneer._limits (Auctioneer.self w) = lim
  /\ forall c a b,
       dict_get (Auctioneer._channels (Auctioneer.self w)) c = Some (Some a) ->
       b ∈ bids a ->
       minimum lim <= bid b <= maximum lim.
Proof.
  intros Hreach.
  assert (Hall : Auctioneer._limits (Auctioneer.self w) = lim
                 /\ NoDup (Auctioneer._channels (Auctioneer.self w)).*1
                 /\ forall c a b,
                      dict_get (Auctioneer._channels (Auctioneer.self w)) c = Some (Some a) ->
                      b ∈ bids a ->
                      minimum lim <= bid b <= maximum lim).
  2:{ destruct Hall as (H1 & _ & H2). split; assumption. }
  induction Hreach as [reads draws|w op out w' Hreach (Hlim & Hnd & Hinv) Hcall].
  - cbn. split; [reflexivity|].
    destruct (init_channels channels []) as [Hnd Hnone]; [constructor|constructor|].
    split; [exact Hnd|]. intros c a b Hget. apply dict_get_elem in Hget.
    rewrite Forall_forall in Hnone. apply Hnone in Hget. discriminate.
  - destruct (call_keeps_config _ _ _ _ _ Hcall) as [Hlim' _].
    split; [congruence|]. split; [exact (call_keeps_keys _ _ _ _ _ Hnd Hcall)|].
    intros c a' b Hafter Hb.
    destruct (call_channels_step _ _ _ _ _ Hnd Hcall) as [_ Hstep].
    specialize (Hstep c).
    destruct (dict_get (Auctioneer._channels (Auctioneer.self w)) c) as [prior|] eqn:Hget;
      [|congruence].
    destruct Hstep as (slot' & Hget' & Hstep). rewrite Hafter in Hget'.
    injection Hget' as <-.
    inversion Hstep; subst; cbn in Hb;
      try (eapply Hinv; [exact Hget|exact Hb]);
      try (now apply elem_of_nil in Hb).
    (* the call is a bid *)
    cbn [Auctioneer.call] in Hcall. apply bid_effect in Hcall.
    destruct Hcall as [->|(a0 & Hget0 & _ & Hv & ->)].
    + rewrite Hget in Hafter. injection Hafter as E.
      eapply Hinv; [exact Hget|]. rewrite E. exact Hb.
    + cbn in Hafter. rewrite dict_get_set in Hafter.
      destruct (decide (c = c)); [|contradiction]. injection Hafter as E.
      rewrite Hget in Hget0. injection Hget0 as <-.
      apply set_add_elem in Hb as [->|Hb]; [|eapply Hinv; [exact Hget|exact Hb]].
      apply validate_bid_accept_bounds in Hv. cbn. lia.
Qed.

Lemma live_bids_are_within_limits_witness :
  exists w a,
    reachable env two_channels limits w
    /\ dict_get (Auctioneer._channels (Auctioneer.self w)) "raid" = Some (Some a)
    /\ mkBid "alice" Raider 50 0 ∈ bids a
    /\ minimum limits <= 50 <= maximum limits.
Proof.
  assert (Hreach : reachable env two_channels limits
            {| Auctioneer.self :=
                 {| Auctioneer._pending_items := [];
                    Auctioneer._channels :=
                      [("raid",
                        Some (with_bid (started sample_item (seconds 0))
                                (mkBid "alice" Raider 50 0) (seconds 2)));
                       ("spare", None)];
                    Auctioneer._limits := limits;
                    Auctioneer._dkp := balances |};
               Auctioneer.clock_reads := 3;
               Auctioneer.random_draws := 1 |}).
  { eapply (reach_call _ _ _ _ (Auctioneer.OpBid "raid" "alice" 50 0 Raider)).
    - eapply (reach_call _ _ _ _ (Auctioneer.OpUpdateDkp balances)).
      + eapply (reach_call _ _ _ _ Auctioneer.OpNext).
        * eapply (reach_call _ _ _ _ (Auctioneer.OpAdd sample_item)).
          -- apply (reach_init env two_channels limits 0 0).
          -- vm_compute. reflexivity.
        * vm_compute. reflexivity.
      + vm_compute. reflexivity.
    - vm_compute. reflexivity. }
  eexists _, _. split; [exact Hreach|]. split; [reflexivity|].
  assert (Hb : mkBid "alice" Raider 50 0
               ∈ bids (with_bid (started sample_item (seconds 0))
                         (mkBid "alice" Raider 50 0) (seconds 2)))
    by (cbn; left).
  split; [exact Hb|].
  destruct (live_bids_are_within_limits _ _ _ _ Hreach) as [_ H].
  exact (H "raid" _ _ eq_refl Hb).
Defined.

(** ** Bidding on a running auction *)

Lemma awaiting_has_time a now : awaits_update a = true -> seconds 15 <= time_left a now.
Proof. intros H. rewrite time_left_eq, H. lia. Qed.

(** X12. On a running auction a bid that the validator rejects changes
    nothing and yields one hidden message, the validator's reason.  A bid
    that it accepts yields a hidden acknowledgement and a public
    announcement; afterwards the bid is in the live set together with all
    earlier bids (a bid equal to a live one is not added twice), the time of
    the last bid is the clock reading, status and cached results are as
    before, and, when that reading is later than the last update, at least
    15 seconds are left at any time: the auction cannot close before one
    more update. *)
Theorem bid_on_running_auction (e : Auctioneer.Env) (w : Auctioneer.World)
    (c who : string) (bid_amount bid_id : Z) (rk : BidderRank) (a : RunningAuction) :
  dict_get (Auctioneer._channels (Auctioneer.self w)) c = Some (Some a) ->
  status a = Running ->
  let verdict :=
    validate_bid who bid_amount (bids a) (Auctioneer._dkp (Auctioneer.self w))
      (valuable (Auctioneer._limits (Auctioneer.self w)))
      (minimum (Auctioneer._limits (Auctioneer.self w)))
      (maximum (Auctioneer._limits (Auctioneer.self w))) in
  let b := mkBid who rk bid_amount bid_id in
  let now := Auctioneer.utcnow_at e (Auctioneer.clock_reads w) in
  (verdict.1 = false ->
   Auctioneer.bid c who bid_amount bid_id rk e w
   = Some (tt, [{| channel := c; message := verdict.2; hidden := true |}], w))
  /\ (verdict.1 = true ->
      exists out w' a',
        Auctioneer.bid c who bid_amount bid_id rk e w = Some (tt, out, w')
        /\ hidden <$> out = [true; false]
        /\ dict_get (Auctioneer._channels (Auctioneer.self w')) c = Some (Some a')
        /\ b ∈ bids a'
        /\ (forall x, x ∈ bids a' <-> x = b \/ x ∈ bids a)
        /\ (b ∈ bids a -> bids a' = bids a)
        /\ (b ∉ bids a -> bids a' = bids a ++ [b])
        /\ last_bid a' = Some now
        /\ status a' = Running /\ results a' = results a
        /\ auction_item a' = auction_item a /\ started_at a' = started_at a
        /\ last_updated a' = last_updated a
        /\ ((forall lu, last_updated a = Some lu -> lu < now) ->
            forall t, seconds 15 <= time_left a' t)).
Proof.
  intros Hslot Hst verdict b now. subst verdict.
  rewrite (bid_running e w c a Hslot who bid_amount bid_id rk Hst).
  destruct (validate_bid _ _ _ _ _ _ _) as [[|] err]; cbn [fst snd].
  - split; [discriminate|]. intros _.
    eexists _, _, (with_bid a b now). split; [reflexivity|]. split; [reflexivity|].
    split. { cbn. rewrite dict_get_set. destruct (decide (c = c)); [reflexivity|contradiction]. }
    split; [apply set_add_elem; now left|].
    split; [intros x; apply set_add_elem|].
    split. { intros Hin. cbn. unfold Auctioneer.set_add. now rewrite bool_decide_eq_true_2. }
    split. { intros Hout. cbn. unfold Auctioneer.set_add. now rewrite bool_decide_eq_false_2. }
    split; [reflexivity|]. split; [exact Hst|]. repeat (split; [reflexivity|]).
    intros Hlu t. apply awaiting_has_time. unfold awaits_update. cbn.
    destruct (last_updated a) as [lu|]; [|reflexivity].
    specialize (Hlu lu eq_refl). now apply Z.ltb_lt.
  - split; [reflexivity|discriminate].
Qed.

Lemma bid_on_running_auction_witness :
  Auctioneer.bid "raid" "bob" 103 0 Raider env (raid_world fresh_auction)
  = Some (tt, [{| channel := "raid"; message := msg_increments 50; hidden := true |}],
          raid_world fresh_auction)
  /\ exists out w' a',
       Auctioneer.bid "raid" "alice" 50 0 Raider env (raid_world fresh_auction)
       = Some (tt, out, w')
       /\ dict_get (Auctioneer._channels (Auctioneer.self w')) "raid" = Some (Some a')
       /\ mkBid "alice" Raider 50 0 ∈ bids a'
       /\ forall t, seconds 15 <= time_left a' t.
Proof.
  destruct (bid_on_running_auction env (raid_world fresh_auction) "raid" "bob" 103 0 Raider
              fresh_auction eq_refl eq_refl) as [Hrej _].
  destruct (bid_on_running_auction env (raid_world fresh_auction) "raid" "alice" 50 0 Raider
              fresh_auction eq_refl eq_refl) as [_ Hacc].
  split; [apply Hrej; reflexivity|].
  destruct Hacc as (out & w' & a' & H1 & _ & H2 & H3 & _ & _ & _ & _ & _ & _ & _ & _ & _ & H4);
    [reflexivity|].
  exists out, w', a'. split; [exact H1|]. split; [exact H2|]. split; [exact H3|].
  apply H4. intros lu Hlu. discriminate Hlu.
Defined.

(** ** Accepting never writes *)

(** X13. [accept] is read-only in every state: whatever the channel holds
    and whatever the status, it returns the world it was given; it yields at
    least one message, the first one hidden, all for the channel of the
    call. *)
Theorem accept_never_changes_the_world (e : Auctioneer.Env) (w : Auctioneer.World)
    (c : string) (force : bool) :
  exists m rest,
    Auctioneer.accept c force e w = Some (tt, m :: rest, w)
    /\ hidden m = true
    /\ Forall (fun x => channel x = c) (m :: rest).
Proof.
  destruct (dict_get (Auctioneer._channels (Auctioneer.self w)) c) as [[a|]|] eqn:Hslot.
  2:{ destruct (call_rejected e w (Auctioneer.OpAccept c force) c eq_refl)
        as (m & E & Hh & Hc); [tauto|].
      exists m, []. split; [exact E|]. split; [exact Hh|]. repeat constructor. exact Hc. }
  2:{ destruct (call_rejected e w (Auctioneer.OpAccept c force) c eq_refl)
        as (m & E & Hh & Hc); [tauto|].
      exists m, []. split; [exact E|]. split; [exact Hh|]. repeat constructor. exact Hc. }
  destruct (decide (status a = Finished)) as [Hst|Hst].
  - rewrite (accept_finished e w c a Hslot force Hst).
    destruct (negb force && _); eexists _, _; (split; [reflexivity|]);
      split; try reflexivity; repeat constructor.
  - destruct (call_rejected e w (Auctioneer.OpAccept c force) c eq_refl)
      as (m & E & Hh & Hc).
    { right. right. exists a. split; [exact Hslot|]. cbn.
      destruct (status a); [left|right; left|contradiction]. }
    exists m, []. split; [exact E|]. split; [exact Hh|]. repeat constructor. exact Hc.
Qed.

(** ** Stopping, reopening, deleting *)

(** X14. Stopping a running auction and reopening it gives a running
    auction for the same item with the same bids, no cached results, no
    last bid and no last update, started at the reading of the clock;
    nothing else in the channel dict changes. *)
Theorem stop_then_reopen_keeps_bids (e : Auctioneer.Env) (w : Auctioneer.World)
    (c : string) (a : RunningAuction) :
  dict_get (Auctioneer._channels (Auctioneer.self w)) c = Some (Some a) ->
  status a = Running ->
  exists out1 w1 out2 w2,
    Auctioneer.stop c e w = Some (tt, out1, w1)
    /\ Auctioneer.reopen c e w1 = Some (tt, out2, w2)
    /\ dict_get (Auctioneer._channels (Auctioneer.self w2)) c
       = Some (Some {| auction_item := auction_item a; status := Running;
                       started_at := Auctioneer.utcnow_at e (Auctioneer.clock_reads w);
                       last_bid := None; last_updated := None;
                       bids := bids a; results := None |})
    /\ (forall c', c' <> c ->
          dict_get (Auctioneer._channels (Auctioneer.self w2)) c'
          = dict_get (Auctioneer._channels (Auctioneer.self w)) c')
    /\ hidden <$> out1 = [true; false] /\ hidden <$> out2 = [true; false].
Proof.
  intros Hslot Hst.
  rewrite (stop_running e w c a Hslot Hst).
  set (w1 := with_slot w c (Some (stopped a)) (Auctioneer.clock_reads w)).
  assert (Hslot1 : dict_get (Auctioneer._channels (Auctioneer.self w1)) c
                   = Some (Some (stopped a))).
  { cbn. rewrite dict_get_set. destruct (decide (c = c)); [reflexivity|contradiction]. }
  assert (Hst1 : status (stopped a) <> Running) by discriminate.
  eexists _, w1, _, _. split; [reflexivity|].
  split; [exact (reopen_not_running e w1 c (stopped a) Hslot1 Hst1)|].
  split.
  { cbn. rewrite dict_get_set. destruct (decide (c = c)); [reflexivity|contradiction]. }
  split; [|split; reflexivity].
  intros c' Hc'. cbn. rewrite !dict_get_set.
  destruct (decide (c' = c)); [contradiction|reflexivity].
Qed.

Lemma stop_then_reopen_keeps_bids_witness :
  exists out1 w1 out2 w2 a2,
    Auctioneer.stop "spare" env busy_world = Some (tt, out1, w1)
    /\ Auctioneer.reopen "spare" env w1 = Some (tt, out2, w2)
    /\ dict_get (Auctioneer._channels (Auctioneer.self w2)) "spare" = Some (Some a2)
    /\ bids a2 = [mkBid "alice" Raider 50 0]
    /\ status a2 = Running.
Proof.
  destruct (stop_then_reopen_keeps_bids env busy_world "spare" expired_auction
              eq_refl eq_refl) as (out1 & w1 & out2 & w2 & H1 & H2 & H3 & _).
  eexists out1, w1, out2, w2, _. split; [exact H1|]. split; [exact H2|].
  split; [exact H3|]. split; reflexivity.
Defined.

(** X15. [delete] frees the channel: the slot is empty afterwards, every
    other slot is as before, and any guarded operation then called on the
    channel is refused with the notice that no auction is active, leaving
    the world as it is. *)
Theorem delete_frees_the_channel (e : Auctioneer.Env) (w : Auctioneer.World)
    (c : string) (a : RunningAuction) :
  dict_get (Auctioneer._channels (Auctioneer.self w)) c = Some (Some a) ->
  exists out w1,
    Auctioneer.delete c e w = Some (tt, out, w1)
    /\ hidden <$> out = [true; false]
    /\ dict_get (Auctioneer._channels (Auctioneer.self w1)) c = Some None
    /\ (forall c', c' <> c ->
          dict_get (Auctioneer._channels (Auctioneer.self w1)) c'
          = dict_get (Auctioneer._channels (Auctioneer.self w)) c')
    /\ forall e' op,
         op_channel op = Some c ->
         Auctioneer.call op e' w1
         = Some (tt, [hidden_note c "There isn't an active auction in this channel."], w1).
Proof.
  intros Hslot. rewrite (delete_any e w c a Hslot).
  set (w1 := with_slot w c None (Auctioneer.clock_reads w)).
  assert (Hslot1 : dict_get (Auctioneer._channels (Auctioneer.self w1)) c = Some None).
  { cbn. rewrite dict_get_set. destruct (decide (c = c)); [reflexivity|contradiction]. }
  eexists _, w1. split; [reflexivity|]. split; [reflexivity|]. split; [exact Hslot1|].
  split.
  { intros c' Hc'. cbn. rewrite dict_get_set.
    destruct (decide (c' = c)); [contradiction|reflexivity]. }
  intros e' op Hop.
  destruct op; try discriminate; injection Hop as ->; cbn [Auctioneer.call];
    unfold Auctioneer.bid, Auctioneer.stop, Auctioneer.accept, Auctioneer.reopen,
      Auctioneer.restart, Auctioneer.delete;
    exact (check_auction_channels_empty _ _ _ _ Hslot1).
Qed.

Lemma delete_frees_the_channel_witness :
  exists out w1,
    Auctioneer.delete "raid" env busy_world = Some (tt, out, w1)
    /\ dict_get (Auctioneer._channels (Auctioneer.self w1)) "raid" = Some None
    /\ Auctioneer.call (Auctioneer.OpBid "raid" "alice" 50 0 Raider) env w1
       = Some (tt, [hidden_note "raid" "There isn't an active auction in this channel."], w1).
Proof.
  destruct (delete_frees_the_channel env busy_world "raid" fresh_auction eq_refl)
    as (out & w1 & H1 & _ & H2 & _ & H3).
  exists out, w1. split; [exact H1|]. split; [exact H2|].
  apply H3. reflexivity.
Defined.

(** ** Starting pending auctions: how many, which, where *)

Definition count_empty (d : list (string * option RunningAuction)) : nat :=
  length (filter (fun kv => snd kv = None) d).

Lemma empty_channels_length s :
  length (empty_channels s) = count_empty (Auctioneer._channels s).
Proof. unfold empty_channels, count_empty. apply length_fmap. Qed.

Lemma count_empty_full d :
  forallb (fun kv => bool_decide (is_Some (snd kv))) d = true <-> count_empty d = 0%nat.
Proof.
  unfold count_empty. induction d as [|[k [a|]] d IH]; cbn [forallb snd].
  - split; reflexivity.
  - rewrite (bool_decide_eq_true_2 (is_Some (Some a))) by eauto. cbn [andb].
    rewrite filter_cons_False by (cbn; discriminate). exact IH.
  - rewrite (bool_decide_eq_false_2 (is_Some None)) by (intros [? [=]]). cbn [andb].
    rewrite filter_cons_True by reflexivity. cbn. split; discriminate.
Qed.

Lemma count_empty_start d c a :
  dict_get d c = Some None ->
  S (count_empty (dict_set d c (Some a))) = count_empty d.
Proof.
  unfold count_empty. induction d as [|[k v] d IH]; cbn [dict_get dict_set];
    [discriminate|].
  destruct (decide (c = k)) as [->|Hc].
  - intros [= ->]. rewrite filter_cons_False by (cbn; discriminate).
    rewrite filter_cons_True by reflexivity. reflexivity.
  - intros H. destruct v as [b|].
    + rewrite !filter_cons_False by (cbn; discriminate). now apply IH.
    + rewrite !filter_cons_True by reflexivity. cbn [length]. f_equal. now apply IH.
Qed.

Lemma next_loop_counts e pending : forall w out w',
  NoDup (Auctioneer._channels (Auctioneer.self w)).*1 ->
  Auctioneer._pending_items (Auctioneer.self w) = pending ->
  Auctioneer.next_loop pending e w = Some (tt, out, w') ->
  let m := Nat.min (length pending) (count_empty (Auctioneer._channels (Auctioneer.self w))) in
  Auctioneer._pending_items (Auctioneer.self w') = drop m pending
  /\ (count_empty (Auctioneer._channels (Auctioneer.self w')) + m
      = count_empty (Auctioneer._channels (Auctioneer.self w)))%nat
  /\ Forall2 (fun i msg => exists c left,
                  msg = start_note c i left
                  /\ dict_get (Auctioneer._channels (Auctioneer.self w)) c = Some None)
       (take m pending) out.
Proof.
  induction pending as [|i rest IH]; intros w out w' Hnd Hpend H.
  - cbn in H. injection H as <- <-. cbn. split; [exact Hpend|]. split; [lia|constructor].
  - rewrite next_loop_cons in H.
    destruct (forallb _ _) eqn:Hfull.
    + injection H as <- <-. apply count_empty_full in Hfull. rewrite Hfull.
      rewrite Nat.min_0_r. cbn. split; [exact Hpend|]. split; [reflexivity|constructor].
    + destruct (empty_channels (Auctioneer.self w) !! _) as [c|] eqn:Hc; [|discriminate].
      cbv zeta in H.
      destruct (Auctioneer.next_loop rest e _) as [[[[] out0] w0]|] eqn:Hrest;
        [|discriminate].
      injection H as <- <-.
      assert (Hslot : dict_get (Auctioneer._channels (Auctioneer.self w)) c = Some None).
      { apply empty_channel_slot; [exact Hnd|]. eapply list_elem_of_lookup_2. exact Hc. }
      pose proof (count_empty_start _ c
                    (started i (Auctioneer.utcnow_at e (Auctioneer.clock_reads w))) Hslot)
        as Hcount.
      apply IH in Hrest; [|cbn; rewrite dict_set_keys; [exact Hnd|rewrite Hslot; eauto]
                          |reflexivity].
      cbv zeta in Hrest. unfold after_start in Hrest.
      cbn [Auctioneer.self Auctioneer._channels Auctioneer._pending_items] in Hrest.
      destruct Hrest as (Hp & Hn & Hmsgs).
      rewrite <- Hcount. cbn [length Nat.min]. cbn [drop take].
      split; [exact Hp|]. split; [lia|].
      constructor; [eauto|].
      eapply Forall2_impl; [exact Hmsgs|].
      cbn. intros i' msg (c' & left & -> & Hget). exists c', left. split; [reflexivity|].
      rewrite dict_get_set in Hget. destruct (decide (c' = c)); [discriminate|exact Hget].
Qed.

(** Item [i] was started by the round that yielded [msg]: in a channel
    that was empty, as a new auction for [i] whose start time is a reading
    of the clock, with the time left at the next reading in the message. *)
Definition started_in (e : Auctioneer.Env) (w w' : Auctioneer.World)
    (i : AuctionItem) (msg : AuctionMessage) : Prop :=
  exists c k,
    (Auctioneer.clock_reads w <= k)%nat
    /\ msg = start_note c i
               (time_left (started i (Auctioneer.utcnow_at e k))
                  (Auctioneer.utcnow_at e (S k)))
    /\ dict_get (Auctioneer._channels (Auctioneer.self w)) c = Some None
    /\ dict_get (Auctioneer._channels (Auctioneer.self w')) c
       = Some (Some (started i (Auctioneer.utcnow_at e k))).

Lemma next_loop_fills e pending : forall w out w',
  NoDup (Auctioneer._channels (Auctioneer.self w)).*1 ->
  Auctioneer.next_loop pending e w = Some (tt, out, w') ->
  let m := Nat.min (length pending) (count_empty (Auctioneer._channels (Auctioneer.self w))) in
  Forall2 (started_in e w w') (take m pending) out
  /\ Auctioneer.clock_reads w' = (2 * m + Auctioneer.clock_reads w)%nat
  /\ Auctioneer.random_draws w' = (m + Auctioneer.random_draws w)%nat
  /\ (forall c, Forall (fun msg => channel msg <> c) out ->
                dict_get (Auctioneer._channels (Auctioneer.self w')) c
                = dict_get (Auctioneer._channels (Auctioneer.self w)) c).
Proof.
  induction pending as [|i rest IH]; intros w out w' Hnd H.
  - cbn in H. injection H as <- <-. cbn. split; [constructor|]. repeat split; reflexivity.
  - rewrite next_loop_cons in H.
    destruct (forallb _ _) eqn:Hfull.
    + injection H as <- <-. apply count_empty_full in Hfull. rewrite Hfull.
      rewrite Nat.min_0_r. cbn. split; [constructor|]. repeat split; reflexivity.
    + destruct (empty_channels (Auctioneer.self w) !! _) as [c|] eqn:Hc; [|discriminate].
      cbv zeta in H.
      destruct (Auctioneer.next_loop rest e _) as [[[[] out0] w0]|] eqn:Hrest;
        [|discriminate].
      injection H as <- <-.
      assert (Hslot : dict_get (Auctioneer._channels (Auctioneer.self w)) c = Some None).
      { apply empty_channel_slot; [exact Hnd|]. eapply list_elem_of_lookup_2. exact Hc. }
      pose proof (count_empty_start _ c
                    (started i (Auctioneer.utcnow_at e (Auctioneer.clock_reads w))) Hslot)
        as Hcount.
      assert (Hnd1 : NoDup (Auctioneer._channels
                              (Auctioneer.self (after_start e w c i rest))).*1).
      { cbn. rewrite dict_set_keys; [exact Hnd|rewrite Hslot; eauto]. }
      pose proof (next_loop_channels_step _ _ _ _ _ Hnd1 Hrest) as [_ Hkeep].
      apply IH in Hrest; [|exact Hnd1].
      cbv zeta in Hrest. unfold after_start in Hrest, Hkeep.
      cbn [Auctioneer.self Auctioneer._channels Auctioneer.clock_reads
           Auctioneer.random_draws] in Hrest, Hkeep.
      destruct Hrest as (Hmsgs & Hreads & Hdraws & Hother).
      rewrite <- Hcount. cbn [length Nat.min]. cbn [take].
      split; [|split; [lia|split; [lia|]]].
      * constructor.
        -- exists c, (Auctioneer.clock_reads w). split; [lia|]. split; [reflexivity|].
           split; [exact Hslot|].
           specialize (Hkeep c). rewrite dict_get_set in Hkeep.
           destruct (decide (c = c)); [|contradiction].
           destruct Hkeep as (slot' & Hafter & Hstep). rewrite Hafter.
           inversion Hstep; subst; try discriminate. reflexivity.
        -- eapply Forall2_impl; [exact Hmsgs|].
           intros i' msg (c' & k & Hk & -> & Hget & Hget').
           exists c', k. split; [cbn in Hk; lia|]. split; [reflexivity|].
           split; [|exact Hget'].
           cbn in Hget. rewrite dict_get_set in Hget.
           destruct (decide (c' = c)); [discriminate|exact Hget].
      * intros x Hx. apply Forall_cons in Hx as [Hx1 Hx]. cbn in Hx1.
        rewrite (Hother x Hx), dict_get_set.
        destruct (decide (x = c)); [congruence|reflexivity].
Qed.

(** X16. [next] starts the oldest pending items, as many as there are
    pending items and empty channels: with [m] the smaller of the two
    numbers, the first [m] pending items are started in order, each with one
    public message naming its channel, which was empty and afterwards holds
    a new running auction for that very item, without bids, started at a
    reading of the clock; the channel of the first round is the one that
    [random.choice] draws from the empty channels, and the later rounds are
    [next] again on the world the first round left.  [m] items leave the
    queue and [m] channels fewer are empty, so afterwards the queue is empty
    or no channel is; two clock readings and one draw are made per item.
    Channels that no message names keep their slot, auctions already in a
    channel are untouched. *)
Theorem next_starts_oldest_items_in_empty_channels (e : Auctioneer.Env)
    (w w' : Auctioneer.World) (out : list AuctionMessage) :
  NoDup (Auctioneer._channels (Auctioneer.self w)).*1 ->
  Auctioneer.next e w = Some (tt, out, w') ->
  let pending := Auctioneer._pending_items (Auctioneer.self w) in
  let m := Nat.min (length pending) (count_empty (Auctioneer._channels (Auctioneer.self w))) in
  Auctioneer._pending_items (Auctioneer.self w') = drop m pending
  /\ (count_empty (Auctioneer._channels (Auctioneer.self w')) + m
      = count_empty (Auctioneer._channels (Auctioneer.self w)))%nat
  /\ Forall2 (fun i msg => exists c left,
                  msg = start_note c i left
                  /\ dict_get (Auctioneer._channels (Auctioneer.self w)) c = Some None)
       (take m pending) out
  /\ (Auctioneer._pending_items (Auctioneer.self w') = []
      \/ count_empty (Auctioneer._channels (Auctioneer.self w')) = 0%nat)
  /\ (forall c a,
        dict_get (Auctioneer._channels (Auctioneer.self w)) c = Some (Some a) ->
        dict_get (Auctioneer._channels (Auctioneer.self w')) c = Some (Some a))
  /\ Forall2 (started_in e w w') (take m pending) out
  /\ (forall c, Forall (fun msg => channel msg <> c) out ->
                dict_get (Auctioneer._channels (Auctioneer.self w')) c
                = dict_get (Auctioneer._channels (Auctioneer.self w)) c)
  /\ Auctioneer.clock_reads w' = (2 * m + Auctioneer.clock_reads w)%nat
  /\ Auctioneer.random_draws w' = (m + Auctioneer.random_draws w)%nat
  /\ (forall i rest,
        pending = i :: rest ->
        count_empty (Auctioneer._channels (Auctioneer.self w)) <> 0%nat ->
        exists c out1,
          empty_channels (Auctioneer.self w)
            !! (Auctioneer.draw_at e (Auctioneer.random_draws w)
                  `mod` length (empty_channels (Auctioneer.self w)))%nat = Some c
          /\ Auctioneer.next e (after_start e w c i rest) = Some (tt, out1, w')
          /\ out = start_note c i
                     (time_left (started i (Auctioneer.utcnow_at e (Auctioneer.clock_reads w)))
                        (Auctioneer.utcnow_at e (S (Auctioneer.clock_reads w))))
                   :: out1).
Proof.
  intros Hnd Hnext. cbv zeta.
  assert (Hstep := call_channels_step e w Auctioneer.OpNext out w' Hnd Hnext).
  unfold Auctioneer.next, Auctioneer.bind, Auctioneer.get_self in Hnext.
  destruct (Auctioneer.next_loop _ e w) as [[[[] out0] w0]|] eqn:Hloop; [|discriminate].
  injection Hnext as <- <-.
  destruct (next_loop_counts _ _ _ _ _ Hnd eq_refl Hloop) as (Hp & Hn & Hmsgs).
  destruct (next_loop_fills _ _ _ _ _ Hnd Hloop) as (Hfill & Hreads & Hdraws & Hother).
  split; [exact Hp|]. split; [exact Hn|]. split; [exact Hmsgs|]. split; [|split].
  - rewrite Hp.
    destruct (Nat.min_spec (length (Auctioneer._pending_items (Auctioneer.self w)))
                (count_empty (Auctioneer._channels (Auctioneer.self w)))) as [[_ E]|[_ E]];
      rewrite E in *.
    + left. apply drop_all.
    + right. lia.
  - intros c a Hget. destruct Hstep as [_ Hstep]. specialize (Hstep c).
    rewrite Hget in Hstep. destruct Hstep as (slot' & Hafter & Hstep).
    rewrite Hafter. inversion Hstep; subst; try discriminate. reflexivity.
  - split; [exact Hfill|]. split; [exact Hother|]. split; [exact Hreads|].
    split; [exact Hdraws|].
    intros i rest Hpend Hcount. rewrite Hpend in Hloop.
    rewrite next_loop_cons in Hloop.
    destruct (forallb _ _) eqn:Hfull.
    { apply count_empty_full in Hfull. contradiction. }
    destruct (empty_channels (Auctioneer.self w) !! _) as [c|] eqn:Hc; [|discriminate].
    cbv zeta in Hloop.
    destruct (Auctioneer.next_loop rest e _) as [[[[] out1] w1]|] eqn:Hrest;
      [|discriminate].
    injection Hloop as <- <-.
    exists c, out1. split; [reflexivity|]. split; [|reflexivity].
    unfold Auctioneer.next, Auctioneer.bind, Auctioneer.get_self.
    change (Auctioneer._pending_items (Auctioneer.self (after_start e w c i rest)))
      with rest.
    rewrite Hrest. reflexivity.
Qed.

Definition shield : AuctionItem :=
  {| item := "Shield"; quantity := 2; added_by := "officer" |}.

Definition three_channels_world : Auctioneer.World :=
  {| Auctioneer.self :=
       {| Auctioneer._pending_items := [sample_item; shield];
          Auctioneer._channels := [("raid", None); ("spare", None); ("third", None)];
          Auctioneer._limits := limits;
          Auctioneer._dkp := balances |};
     Auctioneer.clock_reads := 0;
     Auctioneer.random_draws := 0 |}.

(** Two pending items and three empty channels: the sword is started in the
    channel drawn first, the shield in the one drawn next, one channel stays
    empty and nothing stays pending. *)
Lemma next_starts_oldest_items_in_empty_channels_witness :
  exists out w' c1 c2 k1 k2,
    Auctioneer.next env three_channels_world = Some (tt, out, w')
    /\ Auctioneer._pending_items (Auctioneer.self w') = []
    /\ count_empty (Auctioneer._channels (Auctioneer.self w')) = 1%nat
    /\ length out = 2%nat
    /\ dict_get (Auctioneer._channels (Auctioneer.self w')) c1
       = Some (Some (started sample_item (Auctioneer.utcnow_at env k1)))
    /\ dict_get (Auctioneer._channels (Auctioneer.self w')) c2
       = Some (Some (started shield (Auctioneer.utcnow_at env k2))).
Proof.
  destruct (call_total env three_channels_world Auctioneer.OpNext) as (out & w' & Hnext).
  cbn [Auctioneer.call] in Hnext.
  destruct (next_starts_oldest_items_in_empty_channels env three_channels_world w' out)
    as (Hp & Hn & _ & _ & _ & Hfill & _).
  - apply (bool_decide_unpack (NoDup ["raid"; "spare"; "third"])). vm_compute. exact I.
  - exact Hnext.
  - change (Nat.min _ _) with 2%nat in Hp, Hn, Hfill.
    change (take 2 (Auctioneer._pending_items (Auctioneer.self three_channels_world)))
      with [sample_item; shield] in Hfill.
    apply Forall2_cons_inv_l in Hfill as (m1 & out' & (c1 & k1 & _ & _ & _ & H1) & Hfill & ->).
    apply Forall2_cons_inv_l in Hfill as (m2 & out'' & (c2 & k2 & _ & _ & _ & H2) & Hfill & ->).
    apply Forall2_nil_inv_l in Hfill as ->.
    exists [m1; m2], w', c1, c2, k1, k2. split; [exact Hnext|].
    split; [exact Hp|]. split.
    { change (count_empty (Auctioneer._channels (Auctioneer.self three_channels_world)))
        with 3%nat in Hn. lia. }
    split; [reflexivity|]. split; [exact H1|exact H2].
Defined.

(** ** The engine never raises *)

Lemma dict_get_Some_keys {V} (d : list (string * V)) (k : string) (v : V) :
  dict_get d k = Some v -> k ∈ d.*1.
Proof.
  intros H. apply dict_get_elem in H. apply list_elem_of_fmap. exists (k, v). auto.
Qed.

(** The messages of a call are for the channel of the call or, for [run]
    and [next], for a channel of the channel dict. *)
Lemma call_messages_addressed e w op out w' :
  NoDup (Auctioneer._channels (Auctioneer.self w)).*1 ->
  Auctioneer.call op e w = Some (tt, out, w') ->
  Forall (fun m => op_channel op = Some (channel m)
                   \/ channel m ∈ (Auctioneer._channels (Auctioneer.self w)).*1)
    out.
Proof.
  intros Hnd Hcall.
  destruct (op_channel op) as [c|] eqn:Hop.
  - destruct (channel_call_shape _ _ _ _ _ _ Hop Hcall) as [Hout _].
    eapply Forall_impl; [exact Hout|]. cbn. intros m ->. now left.
  - destruct op; try discriminate; cbn [Auctioneer.call] in Hcall.
    + injection Hcall as <- _. constructor.
    + injection Hcall as <- _. constructor.
    + destruct (run_outcome_all e w) as (entries' & out' & n & E & Hitems).
      rewrite E in Hcall. injection Hcall as <- _.
      eapply Forall_impl; [exact (items_outcome_channels _ _ _ _ _ _ _ Hitems)|].
      cbn. intros m Hm. now right.
    + unfold Auctioneer.next, Auctioneer.bind, Auctioneer.get_self in Hcall.
      destruct (Auctioneer.next_loop _ e w) as [[[[] out0] w0]|] eqn:Hloop; [|discriminate].
      injection Hcall as <- _.
      destruct (next_loop_counts _ _ _ _ _ Hnd eq_refl Hloop) as (_ & _ & Hmsgs).
      cbn. clear -Hmsgs.
      induction Hmsgs as [|i msg items msgs (c & left & -> & Hget) _ IH]; constructor.
      * right. cbn. eapply dict_get_Some_keys. exact Hget.
      * exact IH.
Qed.

(** Python's [datetime] is bounded: counted in microseconds from
    [datetime.min], the largest one, [datetime.max], is the last microsecond
    of the year 9999, and an addition that passes it raises
    [OverflowError].  The embedding has unbounded integers, so the room that
    the additions of [time_left] need is stated apart. *)
Definition datetime_max : datetime := 3652059 * 86400 * 1000000 - 1.

(** A timestamp to which the engine can add its 90, 30 or 15 seconds. *)
Definition leaves_room (t : datetime) : Prop :=
  0 <= t /\ t + seconds 90 <= datetime_max.

Definition clock_leaves_room (e : Auctioneer.Env) : Prop :=
  forall n, leaves_room (Auctioneer.utcnow_at e n).

Definition auction_leaves_room (a : RunningAuction) : Prop :=
  leaves_room (started_at a)
  /\ (forall lb, last_bid a = Some lb -> leaves_room lb)
  /\ (forall lu, last_updated a = Some lu -> leaves_room lu).

Definition world_leaves_room (w : Auctioneer.World) : Prop :=
  forall c a,
    dict_get (Auctioneer._channels (Auctioneer.self w)) c = Some (Some a) ->
    auction_leaves_room a.

(** [datetime + timedelta] as Python computes it: [None] stands for the
    [OverflowError] of a sum outside [datetime.min .. datetime.max]. *)
Definition datetime_add (t : datetime) (d : timedelta) : option datetime :=
  if bool_decide (0 <= t + d <= datetime_max) then Some (t + d) else None.

(** [RunningAuction.time_left] again, now with the bounded sums of the
    source: the same statements in the same order, each sum through
    [datetime_add]. *)
Definition time_left_bounded (a : RunningAuction) (now : datetime) : option timedelta :=
  fin ← datetime_add (started_at a) (seconds 90);
  fin ← match last_bid a with
        | Some lb => bid_end ← datetime_add lb (seconds 30); Some (later bid_end fin)
        | None => Some fin
        end;
  fin ← match last_updated a with
        | Some lu =>
            if (match last_bid a with None => true | Some lb => lu >? lb end)
            then updated_end ← datetime_add lu (seconds 15); Some (later updated_end fin)
            else Some fin
        | None => Some fin
        end;
  fin ← (if (match last_updated a with
             | None => true
             | Some lu => match last_bid a with None => false | Some lb => lu <? lb end
             end)
         then updated_end ← datetime_add now (seconds 15); Some (later updated_end fin)
         else Some fin);
  Some (if fin >? now then fin - now else seconds 0).

Lemma datetime_add_room t d :
  leaves_room t -> 0 <= d <= seconds 90 -> datetime_add t d = Some (t + d).
Proof.
  intros [H0 H1] Hd. unfold datetime_add.
  rewrite bool_decide_eq_true_2; [reflexivity|]. unfold seconds in *. lia.
Qed.

(** With such timestamps no sum of [time_left] overflows, and the bounded
    computation is the one on integers. *)
Lemma time_left_bounded_room a now :
  auction_leaves_room a -> leaves_room now ->
  time_left_bounded a now = Some (time_left a now).
Proof.
  intros (Hs & Hb & Hu) Hn. unfold time_left_bounded, time_left.
  rewrite (datetime_add_room _ (seconds 90) Hs) by (unfold seconds; lia).
  rewrite (datetime_add_room _ (seconds 15) Hn) by (unfold seconds; lia).
  cbn [mbind option_bind].
  destruct (last_bid a) as [lb|].
  - rewrite (datetime_add_room _ (seconds 30) (Hb lb eq_refl)) by (unfold seconds; lia).
    cbn [mbind option_bind].
    destruct (last_updated a) as [lu|]; [|reflexivity].
    rewrite (datetime_add_room _ (seconds 15) (Hu lu eq_refl)) by (unfold seconds; lia).
    destruct (lu >? lb), (lu <? lb); reflexivity.
  - destruct (last_updated a) as [lu|]; [|reflexivity].
    rewrite (datetime_add_room _ (seconds 15) (Hu lu eq_refl)) by (unfold seconds; lia).
    reflexivity.
Qed.

(** Without that room the source raises: an auction started in the last 90
    seconds of the year 9999 has no [time_left]. *)
Lemma time_left_bounded_overflow now :
  time_left_bounded
    {| auction_item := sample_item; status := Running;
       started_at := datetime_max - seconds 89;
       last_bid := None; last_updated := None; bids := []; results := None |} now
  = None.
Proof. reflexivity. Qed.

(** What a guarded operation puts in the slot of its channel when it takes
    effect. *)
Lemma channel_call_slot e w op c out w' :
  op_channel op = Some c ->
  Auctioneer.call op e w = Some (tt, out, w') ->
  w' = w
  \/ exists a slot k,
       dict_get (Auctioneer._channels (Auctioneer.self w)) c = Some (Some a)
       /\ w' = with_slot w c slot k
       /\ (slot = None
           \/ slot = Some (stopped a)
           \/ slot = Some (reopened a (Auctioneer.utcnow_at e (Auctioneer.clock_reads w)))
           \/ slot = Some (started (auction_item a)
                             (Auctioneer.utcnow_at e (Auctioneer.clock_reads w)))
           \/ exists b,
                slot = Some (with_bid a b
                               (Auctioneer.utcnow_at e (Auctioneer.clock_reads w)))).
Proof.
  intros Hop H.
  destruct (dict_get (Auctioneer._channels (Auctioneer.self w)) c) as [[a|]|] eqn:Hslot.
  2:{ destruct (call_rejected e w op c Hop) as (m & E & _); [tauto|].
      rewrite E in H. injection H as _ <-. now left. }
  2:{ destruct (call_rejected e w op c Hop) as (m & E & _); [tauto|].
      rewrite E in H. injection H as _ <-. now left. }
  destruct (decide (status a ∈ op_forbidden op)) as [Hf|Hf].
  { destruct (call_rejected e w op c Hop) as (m & E & _); [eauto|].
    rewrite E in H. injection H as _ <-. now left. }
  destruct op; try discriminate; injection Hop as ->; cbn [Auctioneer.call] in H;
    cbn [op_forbidden] in Hf.
  - assert (Hst : status a = Running).
    { destruct (status a); [reflexivity|exfalso; apply Hf..].
      - right; left.
      - left. }
    rewrite (bid_running e w c a Hslot _ _ _ _ Hst) in H.
    destruct (validate_bid _ _ _ _ _ _ _) as [[|] err]; injection H as _ <-.
    + right. eexists a, _, _. split; [reflexivity|]. split; [reflexivity|].
      do 4 right. eexists. reflexivity.
    + now left.
  - assert (Hst : status a = Running).
    { destruct (status a); [reflexivity|exfalso; apply Hf..].
      - right; left.
      - left. }
    rewrite (stop_running e w c a Hslot Hst) in H. injection H as _ <-.
    right. eexists a, _, _. split; [reflexivity|]. split; [reflexivity|].
    right. left. reflexivity.
  - assert (Hst : status a = Finished).
    { destruct (status a); [exfalso; apply Hf; left|exfalso; apply Hf; right; left|reflexivity]. }
    rewrite (accept_finished e w c a Hslot _ Hst) in H. injection H as _ <-. now left.
  - assert (Hst : status a <> Running).
    { intros E. apply Hf. rewrite E. left. }
    rewrite (reopen_not_running e w c a Hslot Hst) in H. injection H as _ <-.
    right. eexists a, _, _. split; [reflexivity|]. split; [reflexivity|].
    do 2 right. left. reflexivity.
  - rewrite (restart_any e w c a Hslot) in H. injection H as _ <-.
    right. eexists a, _, _. split; [reflexivity|]. split; [reflexivity|].
    do 3 right. left. reflexivity.
  - rewrite (delete_any e w c a Hslot) in H. injection H as _ <-.
    right. eexists a, _, _. split; [reflexivity|]. split; [reflexivity|].
    left. reflexivity.
Qed.

Lemma started_leaves_room i now : leaves_room now -> auction_leaves_room (started i now).
Proof. intros H. split; [exact H|]. split; discriminate. Qed.

Lemma call_keeps_room e w op out w' :
  clock_leaves_room e ->
  NoDup (Auctioneer._channels (Auctioneer.self w)).*1 ->
  world_leaves_room w ->
  Auctioneer.call op e w = Some (tt, out, w') ->
  world_leaves_room w'.
Proof.
  intros Hclock Hnd Hw Hcall c' a' Hafter.
  destruct (op_channel op) as [c|] eqn:Hop.
  - destruct (channel_call_slot _ _ _ _ _ _ Hop Hcall)
      as [->|(a & slot & k & Hget & -> & Hslot)]; [exact (Hw _ _ Hafter)|].
    cbn in Hafter. rewrite dict_get_set in Hafter.
    destruct (decide (c' = c)) as [->|Hne]; [|exact (Hw _ _ Hafter)].
    injection Hafter as Hafter. specialize (Hw _ _ Hget).
    destruct Hw as (Hs & Hb & Hu).
    destruct Hslot as [->|[->|[->|[->|[b ->]]]]]; try discriminate;
      injection Hafter as <-.
    + split; [exact Hs|]. split; assumption.
    + split; [apply Hclock|]. split; discriminate.
    + apply started_leaves_room, Hclock.
    + split; [exact Hs|]. split; [|exact Hu].
      cbn. intros lb [= <-]. apply Hclock.
  - destruct op; try discriminate; cbn [Auctioneer.call] in Hcall.
    + injection Hcall as _ <-. exact (Hw _ _ Hafter).
    + injection Hcall as _ <-. exact (Hw _ _ Hafter).
    + destruct (run_outcome_all e w) as (entries' & out' & n & E & Hitems).
      rewrite E in Hcall. injection Hcall as _ <-. cbn in Hafter.
      pose proof (items_outcome_lookup _ _ _ _ _ _ _ c' Hitems) as L.
      destruct (dict_get (Auctioneer._channels (Auctioneer.self w)) c') as [slot|] eqn:Hget;
        [|congruence].
      destruct L as (k' & slot' & out1 & n1 & _ & Hr & Hget' & _).
      rewrite Hafter in Hget'. injection Hget' as <-.
      inversion Hr; subst;
        match goal with
        | H : dict_get _ c' = Some (Some ?a0) |- _ =>
            destruct (Hw _ _ H) as (Hs & Hb & Hu)
        end.
      * split; [exact Hs|]. split; assumption.
      * split; [exact Hs|]. split; assumption.
      * split; [exact Hs|]. split; [exact Hb|].
        cbn. intros lu [= <-]. apply Hclock.
      * split; [exact Hs|]. split; assumption.
    + unfold Auctioneer.next, Auctioneer.bind, Auctioneer.get_self in Hcall.
      destruct (Auctioneer.next_loop _ e w) as [[[[] out0] w0]|] eqn:Hloop; [|discriminate].
      injection Hcall as _ <-.
      destruct (next_loop_fills _ _ _ _ _ Hnd Hloop) as (Hfill & _ & _ & Hother).
      destruct (decide (Forall (fun msg => channel msg <> c') out0)) as [Hno|Hyes].
      * rewrite (Hother c' Hno) in Hafter. exact (Hw _ _ Hafter).
      * apply not_Forall_Exists in Hyes; [|intros x; apply _].
        apply Exists_exists in Hyes as (msg & Hmsg & Hc).
        assert (Hch : channel msg = c').
        { destruct (decide (channel msg = c')) as [E|N]; [exact E|exfalso; exact (Hc N)]. }
        apply list_elem_of_lookup in Hmsg as [j Hj].
        destruct (Forall2_lookup_r _ _ _ _ _ Hfill Hj) as (i & _ & (c0 & k & _ & -> & _ & Hset)).
        cbn in Hch. subst c0. rewrite Hafter in Hset. injection Hset as ->.
        apply started_leaves_room, Hclock.
Qed.

(** X17. As long as no datetime comes within 90 seconds of [datetime.max]
    (where a sum of [time_left] raises [OverflowError]), no call into the
    engine raises, whatever the state and the arguments: no missing key, no
    attribute of [None], no choice from an empty sequence, no overflow.  If
    every clock reading and every timestamp of the auctions leaves that
    room, then [time_left] with the bounded sums of the source is defined
    for every auction at every clock reading and is the [time_left] on
    integers that the calls use; the call returns; the timestamps of the
    world it leaves have that room again, with [time_left] defined there as
    well, and the channel dict keeps its distinct keys, so the same holds of
    the next call.  Every message is addressed to the channel of the call
    or, for [run] and [next], to a channel of the channel dict. *)
Theorem calls_never_raise (e : Auctioneer.Env) (w : Auctioneer.World)
    (op : Auctioneer.Op) :
  clock_leaves_room e ->
  world_leaves_room w ->
  NoDup (Auctioneer._channels (Auctioneer.self w)).*1 ->
  exists out w',
    Auctioneer.call op e w = Some (tt, out, w')
    /\ (forall c a n,
          dict_get (Auctioneer._channels (Auctioneer.self w)) c = Some (Some a)
          \/ dict_get (Auctioneer._channels (Auctioneer.self w')) c = Some (Some a) ->
          time_left_bounded a (Auctioneer.utcnow_at e n)
          = Some (time_left a (Auctioneer.utcnow_at e n)))
    /\ world_leaves_room w'
    /\ NoDup (Auctioneer._channels (Auctioneer.self w')).*1
    /\ Forall (fun m => op_channel op = Some (channel m)
                        \/ channel m ∈ (Auctioneer._channels (Auctioneer.self w)).*1)
         out.
Proof.
  intros Hclock Hw Hnd.
  destruct (call_total e w op) as (out & w' & Hcall).
  pose proof (call_keeps_room _ _ _ _ _ Hclock Hnd Hw Hcall) as Hw'.
  exists out, w'. split; [exact Hcall|].
  split.
  { intros c a n [Hget|Hget]; apply time_left_bounded_room; eauto. }
  split; [exact Hw'|].
  split; [exact (call_keeps_keys _ _ _ _ _ Hnd Hcall)|].
  exact (call_messages_addressed _ _ _ _ _ Hnd Hcall).
Qed.

(** A clock that stops after 1000 readings, one second apart. *)
Definition bounded_env : Auctioneer.Env :=
  {| Auctioneer.utcnow_at := fun n => seconds (Z.of_nat (Nat.min n 1000));
     Auctioneer.draw_at := fun n => n |}.

Lemma bounded_env_leaves_room : clock_leaves_room bounded_env.
Proof.
  intros n. unfold leaves_room, datetime_max. cbn [Auctioneer.utcnow_at bounded_env].
  unfold seconds. lia.
Qed.

Lemma calls_never_raise_witness :
  exists out w',
    Auctioneer.call Auctioneer.OpRun bounded_env busy_world = Some (tt, out, w')
    /\ time_left_bounded expired_auction (seconds 100)
       = Some (time_left expired_auction (seconds 100))
    /\ world_leaves_room w'
    /\ Forall (fun m => channel m ∈ ["raid"; "spare"]) out.
Proof.
  destruct (calls_never_raise bounded_env busy_world Auctioneer.OpRun)
    as (out & w' & Hcall & Htime & Hroom & _ & Haddr).
  - exact bounded_env_leaves_room.
  - intros c a Hget. cbn in Hget.
    destruct (decide (c = "raid")); [injection Hget as <-|].
    + split; [|split; discriminate].
      unfold leaves_room, datetime_max, seconds. cbn. lia.
    + destruct (decide (c = "spare")); [injection Hget as <-|discriminate].
      split; [|split; cbn; intros ? [= <-]];
        unfold leaves_room, datetime_max, seconds; cbn; lia.
  - apply (bool_decide_unpack (NoDup ["raid"; "spare"])). vm_compute. exact I.
  - exists out, w'. split; [exact Hcall|].
    split; [exact (Htime "spare" expired_auction 100%nat (or_introl eq_refl))|].
    split; [exact Hroom|].
    eapply Forall_impl; [exact Haddr|].
    cbn. intros m [H|H]; [discriminate|exact H].
Defined.

(** ** A new Auctioneer *)

Lemma init_lookup channels c : forall d,
  dict_get (fold_left (fun d c => dict_set d c (None : option RunningAuction)) channels d) c
  = if decide (c ∈ channels) then Some None else dict_get d c.
Proof.
  induction channels as [|x rest IH]; cbn [fold_left]; intros d.
  - destruct (decide (c ∈ [])) as [H|_]; [now apply elem_of_nil in H|reflexivity].
  - rewrite IH, dict_get_set.
    destruct (decide (c ∈ rest)) as [Hin|Hout].
    + destruct (decide (c ∈ x :: rest)) as [_|Hn]; [reflexivity|].
      exfalso. apply Hn. now right.
    + destruct (decide (c = x)) as [->|Hne].
      * destruct (decide (x ∈ x :: rest)) as [_|Hn]; [reflexivity|].
        exfalso. apply Hn. left.
      * destruct (decide (c ∈ x :: rest)) as [Hin|_]; [|reflexivity].
        apply elem_of_cons in Hin as [?|?]; contradiction.
Qed.

Lemma empty_slots_not_running (d : list (string * option RunningAuction)) :
  Forall (fun kv => kv.2 = None) d ->
  existsb (fun kv => bool_decide (is_Some (snd kv))) d = false.
Proof.
  induction 1 as [|[k v] d Hv _ IH]; [reflexivity|].
  cbn in Hv. subst v. cbn [existsb snd].
  rewrite (bool_decide_eq_false_2 (is_Some None)) by (intros [? [=]]). exact IH.
Qed.

(** X18. A new [Auctioneer] has nothing pending and no balances, and its
    channel dict holds exactly the configured channels, each once (also when
    the configuration repeats a name) and each empty; so it has no running
    auction, and every guarded operation is refused: on a configured channel
    because no auction is active, elsewhere because the channel is not an
    auction channel. *)
Theorem new_auctioneer_is_empty (channels : list string) (lim : AuctionLimits) :
  let s := Auctioneer.__init__ channels lim in
  Auctioneer._pending_items s = []
  /\ Auctioneer._dkp s = ∅
  /\ Auctioneer._limits s = lim
  /\ NoDup (Auctioneer._channels s).*1
  /\ (forall c, dict_get (Auctioneer._channels s) c
                = if decide (c ∈ channels) then Some None else None)
  /\ Auctioneer.has_running_auctions s = false
  /\ (forall e reads draws op c,
        op_channel op = Some c ->
        let w := {| Auctioneer.self := s; Auctioneer.clock_reads := reads;
                    Auctioneer.random_draws := draws |} in
        Auctioneer.call op e w
        = Some (tt,
                [hidden_note c (if decide (c ∈ channels)
                                then "There isn't an active auction in this channel."
                                else "This isn't an auction channel. Try Again.")],
                w)).
Proof.
  cbv zeta.
  destruct (init_channels channels []) as [Hnd Hnone]; [constructor|constructor|].
  assert (Hlookup : forall c,
            dict_get (Auctioneer._channels (Auctioneer.__init__ channels lim)) c
            = if decide (c ∈ channels) then Some None else None).
  { intros c. cbn. now rewrite init_lookup. }
  split; [reflexivity|]. split; [reflexivity|]. split; [reflexivity|].
  split; [exact Hnd|]. split; [exact Hlookup|]. split.
  - unfold Auctioneer.has_running_auctions. cbn [Auctioneer._channels Auctioneer.__init__].
    now apply empty_slots_not_running.
  - intros e reads draws op c Hop. specialize (Hlookup c).
    destruct (decide (c ∈ channels)).
    + destruct op; try discriminate; injection Hop as ->; cbn [Auctioneer.call];
        unfold Auctioneer.bid, Auctioneer.stop, Auctioneer.accept, Auctioneer.reopen,
          Auctioneer.restart, Auctioneer.delete;
        (apply check_auction_channels_empty; exact Hlookup).
    + destruct op; try discriminate; injection Hop as ->; cbn [Auctioneer.call];
        unfold Auctioneer.bid, Auctioneer.stop, Auctioneer.accept, Auctioneer.reopen,
          Auctioneer.restart, Auctioneer.delete;
        (apply check_auction_channels_unknown; exact Hlookup).
Qed.

Lemma new_auctioneer_is_empty_witness :
  Auctioneer.call (Auctioneer.OpStop "lobby") env
    {| Auctioneer.self := Auctioneer.__init__ ["raid"; "spare"; "raid"] limits;
       Auctioneer.clock_reads := 0; Auctioneer.random_draws := 0 |}
  = Some (tt, [hidden_note "lobby" "This isn't an auction channel. Try Again."],
          {| Auctioneer.self := Auctioneer.__init__ ["raid"; "spare"; "raid"] limits;
             Auctioneer.clock_reads := 0; Auctioneer.random_draws := 0 |}).
Proof.
  destruct (new_auctioneer_is_empty ["raid"; "spare"; "raid"] limits)
    as (_ & _ & _ & _ & _ & _ & H).
  exact (H env 0%nat 0%nat (Auctioneer.OpStop "lobby") "lobby" eq_refl).
Defined.

(** ** The closing time in closed form *)

Lemma fixed_end_max a :
  fixed_end a
  = Z.max (started_at a + seconds 90)
      (Z.max (from_option (fun lb => lb + seconds 30) (started_at a + seconds 90) (last_bid a))
             (from_option (fun lu => lu + seconds 15) (started_at a + seconds 90)
                (last_updated a))).
Proof.
  unfold fixed_end, later, seconds.
  destruct (last_bid a) as [lb|], (last_updated a) as [lu|]; cbn [from_option];
    try destruct (Z.gtb_spec (lb + 30 * 1000000) (started_at a + 90 * 1000000));
    try destruct (Z.gtb_spec lu lb);
    repeat match goal with
      | |- context [?x >? ?y] => destruct (Z.gtb_spec x y)
      end; lia.
Qed.

(** X19. The time left is the largest of: what remains of 90 seconds after
    the start, of 30 seconds after the last bid and of 15 seconds after the
    last update; and, while no update has been posted since the last bid
    (or at all), 15 seconds, otherwise 0. *)
Theorem time_left_closed_form (a : RunningAuction) (now : datetime) :
  let since_start := started_at a + seconds 90 - now in
  let since_bid := from_option (fun lb => lb + seconds 30 - now) since_start (last_bid a) in
  let since_update :=
    from_option (fun lu => lu + seconds 15 - now) since_start (last_updated a) in
  let floor :=
    match last_updated a, last_bid a with
    | None, _ => seconds 15
    | Some lu, Some lb => if lu <? lb then seconds 15 else 0
    | Some _, None => 0
    end in
  time_left a now = Z.max floor (Z.max since_start (Z.max since_bid since_update)).
Proof.
  cbv zeta. rewrite time_left_eq, fixed_end_max. unfold awaits_update.
  destruct (last_updated a) as [lu|], (last_bid a) as [lb|]; cbn [from_option];
    try destruct (lu <? lb); lia.
Qed.

(** ** Due updates and the acceptance that follows a closing *)

Lemma needs_update_later a now now' :
  needs_update a now = true -> now <= now' -> needs_update a now' = true.
Proof.
  rewrite !needs_update_iff. intros (Hs & H1 & H2 & H3) Hle.
  split; [exact Hs|]. split; [lia|]. split.
  - intros lb Hlb. specialize (H2 lb Hlb). lia.
  - intros lu Hlu. specialize (H3 lu Hlu). lia.
Qed.

Lemma updated_closes a t now :
  (forall lb, last_bid a = Some lb -> lb < t) ->
  t + seconds 15 <= now ->
  started_at a + seconds 90 <= now ->
  (forall lb, last_bid a = Some lb -> lb + seconds 30 <= now) ->
  time_left (updated a t) now = 0.
Proof.
  intros Hlb Hu Hs Hb. rewrite time_left_eq.
  assert (Haw : awaits_update (updated a t) = false).
  { apply awaits_update_false_iff. exists t. split; [reflexivity|].
    cbn. intros lb Hl. specialize (Hlb lb Hl). lia. }
  rewrite Haw.
  destruct (fixed_end_is_a_bound (updated a t)) as [Ef|[(lb & Hl & Ef)|(lu & Hl & Ef)]];
    rewrite Ef.
  - cbn. lia.
  - cbn in Hl. specialize (Hb lb Hl). lia.
  - cbn in Hl. injection Hl as <-. lia.
Qed.

(** X20. An auction for which an update is due when a tick begins is served
    by that tick: the tick emits exactly one message for its channel, a
    public one, and either closes the auction or stamps its last update with
    a clock reading that is later than its last bid and keeps it running
    with the same bids, so that its next transition by a tick, if no bid
    comes, is its closing.  (The clock does not run backwards.) *)
Theorem tick_serves_due_auction (e : Auctioneer.Env) (w : Auctioneer.World)
    (c : string) (a : RunningAuction) :
  (forall i j, (i <= j)%nat -> Auctioneer.utcnow_at e i <= Auctioneer.utcnow_at e j) ->
  NoDup (Auctioneer._channels (Auctioneer.self w)).*1 ->
  dict_get (Auctioneer._channels (Auctioneer.self w)) c = Some (Some a) ->
  needs_update a (Auctioneer.utcnow_at e (Auctioneer.clock_reads w)) = true ->
  exists out w' a' m,
    Auctioneer.run e w = Some (tt, out, w')
    /\ dict_get (Auctioneer._channels (Auctioneer.self w')) c = Some (Some a')
    /\ filter (fun x => channel x = c) out = [m]
    /\ hidden m = false
    /\ bids a' = bids a
    /\ (status a' = Finished
        \/ (status a' = Running
            /\ exists t,
                 last_updated a' = Some t
                 /\ Auctioneer.utcnow_at e (Auctioneer.clock_reads w) <= t
                 /\ (forall lb, last_bid a' = Some lb -> lb < t)
                 /\ forall now, t + seconds 15 <= now ->
                                started_at a' + seconds 90 <= now ->
                                (forall lb, last_bid a' = Some lb -> lb + seconds 30 <= now) ->
                                time_left a' now = 0)).
Proof.
  intros Hclock Hnd Hget Hdue.
  destruct (run_outcome_all e w) as (entries' & out & n & E & Hitems).
  pose proof (items_outcome_lookup _ _ _ _ _ _ _ c Hitems) as L.
  rewrite Hget in L. destruct L as (k' & slot' & out1 & n1 & Hk & Hr & Hafter & Hf).
  specialize (Hf Hnd).
  assert (Hst : status a = Running) by (apply needs_update_iff in Hdue; tauto).
  assert (Hdue' : needs_update a (Auctioneer.utcnow_at e (S k')) = true).
  { eapply needs_update_later; [exact Hdue|]. apply Hclock. lia. }
  revert Hf Hafter.
  inversion Hr; subst; try contradiction; try congruence; intros Hf Hafter.
  - eexists out, _, _, _. split; [exact E|]. split; [exact Hafter|].
    split; [exact Hf|]. split; [reflexivity|]. split; [reflexivity|]. now left.
  - eexists out, _, _, _. split; [exact E|]. split; [exact Hafter|].
    split; [exact Hf|]. split; [reflexivity|]. split; [reflexivity|]. right.
    split; [exact Hst|].
    exists (Auctioneer.utcnow_at e (S (S k'))). split; [reflexivity|].
    assert (Hmono1 : Auctioneer.utcnow_at e (Auctioneer.clock_reads w)
                     <= Auctioneer.utcnow_at e (S (S k'))) by (apply Hclock; lia).
    assert (Hmono2 : Auctioneer.utcnow_at e (S k') <= Auctioneer.utcnow_at e (S (S k')))
      by (apply Hclock; lia).
    split; [exact Hmono1|].
    assert (Hlb : forall lb, last_bid a = Some lb -> lb < Auctioneer.utcnow_at e (S (S k'))).
    { intros lb Hlb. apply needs_update_iff in Hdue'. destruct Hdue' as (_ & _ & Hb & _).
      specialize (Hb lb Hlb). unfold seconds in Hb. lia. }
    split; [exact Hlb|].
    intros now Hu Hs Hb. now apply updated_closes.
Qed.

Definition due_world : Auctioneer.World :=
  {| Auctioneer.self :=
       {| Auctioneer._pending_items := [];
          Auctioneer._channels := [("raid", Some fresh_auction)];
          Auctioneer._limits := limits;
          Auctioneer._dkp := balances |};
     Auctioneer.clock_reads := 40;
     Auctioneer.random_draws := 0 |}.

Lemma tick_serves_due_auction_witness :
  exists out w' a' m,
    Auctioneer.run env due_world = Some (tt, out, w')
    /\ dict_get (Auctioneer._channels (Auctioneer.self w')) "raid" = Some (Some a')
    /\ filter (fun x => channel x = "raid") out = [m]
    /\ hidden m = false
    /\ bids a' = bids fresh_auction.
Proof.
  destruct (tick_serves_due_auction env due_world "raid" fresh_auction)
    as (out & w' & a' & m & H1 & H2 & H3 & H4 & H5 & _).
  - exact env_clock_monotone.
  - apply (bool_decide_unpack (NoDup ["raid"])). vm_compute. exact I.
  - reflexivity.
  - vm_compute. reflexivity.
  - exists out, w', a', m. repeat split; assumption.
Defined.

(** X21. The results cached at closing are accepted as long as nothing has
    changed: when a tick has closed an auction, [accept] without force, on
    the world the tick left, is granted and announces the cached results. *)
Theorem accept_after_closing_tick (e e' : Auctioneer.Env) (w w' : Auctioneer.World)
    (out : list AuctionMessage) (c : string) (a a' : RunningAuction) :
  Auctioneer.run e w = Some (tt, out, w') ->
  dict_get (Auctioneer._channels (Auctioneer.self w)) c = Some (Some a) ->
  dict_get (Auctioneer._channels (Auctioneer.self w')) c = Some (Some a') ->
  status a = Running ->
  status a' = Finished ->
  exists r,
    results a' = Some r
    /\ Auctioneer.accept c false e' w' = Some (tt, acceptance c r, w').
Proof.
  intros Hrun Hget Hget' Hst Hst'.
  destruct (run_outcome_all e w) as (entries' & out' & n & E & Hitems).
  rewrite E in Hrun. injection Hrun as <- <-.
  pose proof (items_outcome_lookup _ _ _ _ _ _ _ c Hitems) as L.
  rewrite Hget in L. destruct L as (k' & slot' & out1 & n1 & _ & Hr & Hafter & _).
  cbn in Hget'. rewrite Hget' in Hafter. injection Hafter as <-.
  inversion Hr; subst; try congruence; cbn in Hst'; try congruence.
  eexists. split; [reflexivity|].
  match goal with
  | |- Auctioneer.accept _ _ _ ?w1 = _ =>
      assert (Hslot1 : dict_get (Auctioneer._channels (Auctioneer.self w1)) c
                       = Some (Some (closed a r))) by exact Hget'
  end.
  rewrite (accept_finished e' _ c (closed a r) Hslot1 false eq_refl).
  cbn [negb andb Auctioneer.self with_channels Auctioneer._dkp Auctioneer._limits].
  assert (Hsame : determine_results (closed a r) (Auctioneer._dkp (Auctioneer.self w))
                    (member (Auctioneer._limits (Auctioneer.self w))) = r)
    by (apply determine_results_bids; reflexivity).
  rewrite Hsame. cbn [results closed].
  rewrite bool_decide_eq_true_2 by reflexivity. reflexivity.
Qed.

Lemma accept_after_closing_tick_witness :
  exists out w' r,
    Auctioneer.run env expired_world = Some (tt, out, w')
    /\ Auctioneer.accept "raid" false env w' = Some (tt, acceptance "raid" r, w').
Proof.
  assert (Hrun : Auctioneer.run env expired_world
                 = Some (tt,
                         [closing_note "raid" (determine_results expired_auction balances 20)],
                         with_channels expired_world
                           [("spare", None);
                            ("raid", Some (closed expired_auction
                                             (determine_results expired_auction balances 20)))]
                           1))
    by (vm_compute; reflexivity).
  destruct (accept_after_closing_tick env env expired_world _ _ "raid" expired_auction _
              Hrun eq_refl eq_refl eq_refl eq_refl) as (r & _ & Hacc).
  eexists _, _, r. split; [exact Hrun|exact Hacc].
Defined.
